(** * optimism.py: the source-introspection core

    A shallow embedding of the lexical scanner, the execution-order AST
    walker, the call-site resolver, the context builder and [deepish_copy]
    of [optimism.py], followed by the properties proved about them.

    Conventions.  Source text is a list of characters ([list ascii]), a
    character being a code point below 256; an index into it is a [nat]
    (every caller in the module passes an index computed from a position in
    the text, never a negative one).  A Python generator is modelled by the
    list of the values it yields, in order. *)

From Stdlib Require Import Ascii String ZArith Lia Sorted DecimalString.
From stdpp Require Import base option list gmap strings.

Local Open Scope char_scope.

(* ===================================================================== *)
(** * Part I: the embedding                                               *)
(* ===================================================================== *)

(** ** The lexical scanner *)

Definition text_of (s : string) : list ascii := list_ascii_of_string s.

(** The [quote] variable of [unquoted_enumerate] is [None], a one-character
    string (one quote character) or a three-character string (the same quote
    character three times).  [Single c] is the one-character string made of
    [c], [Triple c] the three-character string made of [c]. *)
Inductive quote_mark : Type :=
| Single (c : ascii)
| Triple (c : ascii).

Definition quote_mark_eqb (a b : quote_mark) : bool :=
  match a, b with
  | Single x, Single y => Ascii.eqb x y
  | Triple x, Triple y => Ascii.eqb x y
  | _, _ => false
  end.

(** [quote == m], with [quote] possibly [None]. *)
Definition quote_is (quote : option quote_mark) (m : quote_mark) : bool :=
  match quote with
  | Some q => quote_mark_eqb q m
  | None => false
  end.

(** The double-quote character (code 34), the apostrophe and the
    backslash. *)
Definition dquote : ascii := "034".
Definition squote : ascii := "'".
Definition backslash : ascii := "\".

(** [char == dquote or char == squote]. *)
Definition is_quote_char (char : ascii) : bool :=
  Ascii.eqb char dquote || Ascii.eqb char squote.

(** [src[at:at + 3]] is one of the two triple quotes, for a [char = src[at]]
    that is a quote character: [rest] is [src[at + 1:]]. *)
Definition triple_here (char : ascii) (rest : list ascii) : bool :=
  match rest with
  | c1 :: c2 :: _ => Ascii.eqb c1 char && Ascii.eqb c2 char
  | _ => false
  end.

(** The loop of [unquoted_enumerate]: [at_] is the variable [at] and [here]
    is [src[at:]], so that [while at < len(src)] is [here <> []] and
    [at += n] drops [n] characters (or all of them when fewer are left). *)
Fixpoint unquoted_loop (quote : option quote_mark) (at_ : nat)
    (here : list ascii) {struct here} : list (nat * ascii) :=
  match here with
  | [] => []
  | char :: here1 =>
      if bool_decide (is_Some quote) && Ascii.eqb char backslash then
        (* skip escaped characters in quoted strings: at += 2 *)
        match here1 with
        | [] => []
        | _ :: here2 => unquoted_loop quote (at_ + 2) here2
        end
      else if is_quote_char char then
        if quote_is quote (Single char) then
          (* single end quote *)
          unquoted_loop None (at_ + 1) here1
        else if triple_here char here1 then
          match here1 with
          | _ :: _ :: here3 =>
              if quote_is quote (Triple char) || quote_is quote (Single char)
              then unquoted_loop None (at_ + 3) here3
              else
                match quote with
                | Some _ => unquoted_loop quote (at_ + 3) here3
                | None => unquoted_loop (Some (Triple char)) (at_ + 3) here3
                end
          | _ => []
          end
        else
          match quote with
          | None => unquoted_loop (Some (Single char)) (at_ + 1) here1
          | Some _ => unquoted_loop quote (at_ + 1) here1
          end
      else
        match quote with
        | Some _ => unquoted_loop quote (at_ + 1) here1
        | None => (at_, char) :: unquoted_loop None (at_ + 1) here1
        end
  end.

Definition unquoted_enumerate (src : list ascii) (start_index : nat)
    : list (nat * ascii) :=
  unquoted_loop None start_index (drop start_index src).

(** [find_identifier_end]: the loop runs [at] from [start_index + 1] while
    the character there is a letter, a digit or an underscore.

    [str.isalpha] holds of the letters: below 256 these are the letters of
    the ASCII range, the ordinal indicators (170 and 186), the micro sign
    (181) and the letters from 192 on, the multiplication sign (215) and
    the division sign (247) apart.  [str.isdigit] holds of the digits:
    below 256 these are the digits of the ASCII range and the superscript
    digits (178, 179 and 185). *)
Definition isalpha (ch : ascii) : bool :=
  let n := nat_of_ascii ch in
  (((65 <=? n) && (n <=? 90)) || ((97 <=? n) && (n <=? 122))
   || (n =? 170) || (n =? 181) || (n =? 186)
   || ((192 <=? n) && negb (n =? 215) && negb (n =? 247)))%nat.

Definition isdigit (ch : ascii) : bool :=
  let n := nat_of_ascii ch in
  (((48 <=? n) && (n <=? 57)) || (n =? 178) || (n =? 179) || (n =? 185))%nat.

Fixpoint identifier_loop (at_ : nat) (here : list ascii) : nat :=
  match here with
  | [] => at_
  | ch :: here1 =>
      if negb (isalpha ch) && negb (isdigit ch) && negb (Ascii.eqb ch "_")
      then at_
      else identifier_loop (at_ + 1) here1
  end.

Definition find_identifier_end (code : list ascii) (start_index : nat) : nat :=
  identifier_loop (start_index + 1) (drop (start_index + 1) code) - 1.

(** [code[i:i + 1] == ch], the one-character slice comparison used for the
    neighbours of a period. *)
Definition char_at_is (code : list ascii) (i : nat) (ch : ascii) : bool :=
  match code !! i with
  | Some c => Ascii.eqb c ch
  | None => false
  end.

(** The [for] loop of [find_nth_attribute_period] over the pairs yielded by
    [unquoted_enumerate]: the state is the counter [n] and the loop variable
    [at] ([None] while it is unbound). *)
Fixpoint attribute_period_loop (code : list ascii) (n : Z) (at_ : option nat)
    (pairs : list (nat * ascii)) : Z * option nat :=
  match pairs with
  | [] => (n, at_)
  | (i, char) :: pairs1 =>
      if Ascii.eqb char "." then
        if (match i with
            | O => false (* code[-1:0] is empty *)
            | S j => char_at_is code j "."
            end) || char_at_is code (i + 1) "."
        then attribute_period_loop code n (Some i) pairs1
        else
          let n := (n - 1)%Z in
          if (n <? 0)%Z then (n, Some i)
          else attribute_period_loop code n (Some i) pairs1
      else attribute_period_loop code n (Some i) pairs1
  end.

Definition find_nth_attribute_period (code : list ascii) (start_index : nat)
    (n : Z) : option nat :=
  let '(n, at_) :=
    attribute_period_loop code n None (unquoted_enumerate code start_index) in
  if (n <? 0)%Z then at_ else None.

(** The [for] loop of [find_closing_item]: the state is [level] and the loop
    variable [at]. *)
Fixpoint closing_loop (open_delim close_delim : ascii) (level : Z)
    (at_ : option nat) (pairs : list (nat * ascii)) : Z * option nat :=
  match pairs with
  | [] => (level, at_)
  | (i, char) :: pairs1 =>
      if Ascii.eqb char open_delim then
        closing_loop open_delim close_delim (level + 1) (Some i) pairs1
      else if Ascii.eqb char close_delim then
        let level := (level - 1)%Z in
        if (level <? 1)%Z then (level, Some i)
        else closing_loop open_delim close_delim level (Some i) pairs1
      else closing_loop open_delim close_delim level (Some i) pairs1
  end.

(** [openclose] is the pair of its two characters, [openclose[0]] and
    [openclose[1]]. *)
Definition find_closing_item (code : list ascii) (start_index : nat)
    (openclose : ascii * ascii) : option nat :=
  let '(level, at_) :=
    closing_loop openclose.1 openclose.2 1%Z None
      (unquoted_enumerate code (start_index + 1)) in
  if (level =? 0)%Z then at_ else None.

(** [delims] of [find_unbracketed_comma]. *)
Definition delims (char : ascii) : option ascii :=
  if Ascii.eqb char "(" then Some ")"
  else if Ascii.eqb char "[" then Some "]"
  else if Ascii.eqb char "{" then Some "}"
  else None.

Definition closing (char : ascii) : bool :=
  Ascii.eqb char ")" || Ascii.eqb char "]" || Ascii.eqb char "}".

(** The [for] loop of [find_unbracketed_comma]; [seeking] is kept with its
    last element first. *)
Fixpoint comma_loop (seeking : list ascii) (pairs : list (nat * ascii))
    : option nat :=
  match pairs with
  | [] => None
  | (i, char) :: pairs1 =>
      match delims char with
      | Some close_delim => comma_loop (close_delim :: seeking) pairs1
      | None =>
          match seeking with
          | top :: seeking1 =>
              if Ascii.eqb char top then comma_loop seeking1 pairs1
              else if closing char then None
              else comma_loop seeking pairs1
          | [] =>
              if closing char then None
              else if Ascii.eqb char "," then Some i
              else comma_loop seeking pairs1
          end
      end
  end.

Definition find_unbracketed_comma (code : list ascii) (start_index : nat)
    : option nat :=
  comma_loop [] (unquoted_enumerate code start_index).

Definition dq3 : list ascii := [dquote; dquote; dquote].

(** The text of the quoting scenario of [test_unquoted_enumerate] ([rqs]). *)
Definition rqs : list ascii :=
  text_of "a'b'''c" ++ dq3 ++ text_of "'''" ++ [dquote] ++ text_of "d"
  ++ [dquote] ++ text_of "''''" ++ dq3 ++ text_of "e'''" ++ dq3
  ++ text_of "f" ++ dq3 ++ text_of "'''".

(** ** Syntax trees

    A value stored in a field of a tree node is [None], a list, a string or
    a node.  A node carries a unique identity [uid] (Python compares nodes
    with [is]), the class it is an instance of, its position attributes when
    it has them ([hasattr(node, 'lineno')]) and its fields by name.  The
    walker also meets the iterator that [reversed(l)] builds over a list
    [l], which is neither a list nor a node. *)

Inductive kind : Type :=
| ast_Module | ast_Interactive | ast_Expression | ast_FunctionType
| ast_FunctionDef | ast_AsyncFunctionDef | ast_ClassDef | ast_Return
| ast_Delete | ast_Assign | ast_AugAssign | ast_AnnAssign | ast_For
| ast_AsyncFor | ast_While | ast_If | ast_IfExp | ast_With | ast_AsyncWith
| ast_Raise | ast_Try | ast_Assert | ast_Expr | ast_Import | ast_ImportFrom
| ast_Global | ast_Nonlocal | ast_Pass | ast_Break | ast_Continue
| ast_BoolOp | ast_NamedExpr | ast_BinOp | ast_UnaryOp | ast_Lambda
| ast_Dict | ast_Tuple | ast_List | ast_Set | ast_ListComp | ast_SetComp
| ast_GeneratorExp | ast_DictComp | ast_Await | ast_Yield | ast_YieldFrom
| ast_Compare | ast_Call | ast_FormattedValue | ast_JoinedStr
| ast_Attribute | ast_Starred | ast_Subscript | ast_Slice | ast_Index
| ast_ExtSlice | ast_Constant | ast_Name | ast_comprehension
| ast_ExceptHandler | ast_arguments | ast_arg | ast_keyword | ast_withitem
| ast_alias | ast_type_ignore
| ast_other (class_name : string).

Record position : Type := Position {
  lineno : nat;
  col_offset : nat;
  end_lineno : nat;
  end_col_offset : nat
}.

#[warnings="-register-all"]
Inductive ast : Type :=
| PyNone
| PyStr (s : string)
| PyList (items : list ast)
| PyReversed (items : list ast)
| Node (uid : nat) (k : kind) (pos : option position)
       (fields : list (string * ast)).

(** [node.name]; a field the node does not have reads as [None] (the parser
    gives every node all the fields of its class). *)
Fixpoint getattr (fields : list (string * ast)) (name : string) : ast :=
  match fields with
  | [] => PyNone
  | (f, v) :: fields1 => if String.eqb f name then v else getattr fields1 name
  end.

Definition node_fields (node : ast) : list (string * ast) :=
  match node with
  | Node _ _ _ fields => fields
  | _ => []
  end.

Definition field (node : ast) (name : string) : ast :=
  getattr (node_fields node) name.

Definition node_uid (node : ast) : option nat :=
  match node with
  | Node uid _ _ _ => Some uid
  | _ => None
  end.

Definition node_kind (node : ast) : option kind :=
  match node with
  | Node _ k _ _ => Some k
  | _ => None
  end.

Definition node_lineno (node : ast) : option nat :=
  match node with
  | Node _ _ (Some p) _ => Some (lineno p)
  | _ => None
  end.

(** [a is b] for two nodes. *)
Definition is_node (a b : ast) : bool :=
  match node_uid a, node_uid b with
  | Some x, Some y => Nat.eqb x y
  | _, _ => false
  end.

Definition isinstance_Call (node : ast) : bool :=
  match node_kind node with Some ast_Call => true | _ => false end.

Local Open Scope string_scope.
Local Open Scope list_scope.

(** [reversed(node.name)]: the iterator over the list in the field. *)
Definition reversed (fields : list (string * ast)) (name : string) : ast :=
  match getattr fields name with
  | PyList items => PyReversed (rev items)
  | _ => PyNone
  end.

(** [walk_ast_in_order]: the nodes below [node] in execution order, the node
    itself last.  In the body, [w name] is
    [yield from walk_ast_in_order(node.name)] and [w_each name] lists, item
    by item, what the walk of each item of the list [node.name] yields.
    A value that is not [None], a list or a tuple goes through the chain of
    [isinstance] tests and is yielded: so does a string, and so does the
    iterator [reversed(node.decorator_list)], which is not a list: the
    decorators themselves are not walked. *)
Fixpoint walk_ast_in_order (node : ast) : list ast :=
  match node with
  | PyNone => []
  | PyList items => flat_map walk_ast_in_order items
  | PyStr _ | PyReversed _ => [node]
  | Node _ k _ fields =>
      let w (name : string) : list ast :=
        (fix pick (fs : list (string * ast)) : list ast :=
           match fs with
           | [] => []
           | (f, v) :: fs1 =>
               if String.eqb f name then walk_ast_in_order v else pick fs1
           end) fields in
      let w_each (name : string) : list (list ast) :=
        (fix pick (fs : list (string * ast)) : list (list ast) :=
           match fs with
           | [] => []
           | (f, v) :: fs1 =>
               if String.eqb f name then
                 match v with
                 | PyList items => map walk_ast_in_order items
                 | _ => []
                 end
               else pick fs1
           end) fields in
      let w_reversed (name : string) : list ast :=
        match reversed fields name with
        | PyNone => []
        | iterator => [iterator]
        end in
      (match k with
       | ast_Module | ast_Interactive | ast_Expression => w "body"
       | ast_FunctionType => w "argtypes" ++ w "returns"
       | ast_FunctionDef | ast_AsyncFunctionDef =>
           w "args" ++ w "returns" ++ w_reversed "decorator_list" ++ w "body"
       | ast_ClassDef =>
           w "bases" ++ w "keywords" ++ w_reversed "decorator_list"
           ++ w "body"
       | ast_Return => w "value"
       | ast_Delete => w "targets"
       | ast_Assign => w "value" ++ w "targets"
       | ast_AugAssign => w "value" ++ w "target"
       | ast_AnnAssign => w "value" ++ w "annotation" ++ w "target"
       | ast_For | ast_AsyncFor =>
           w "iter" ++ w "target" ++ w "body" ++ w "orelse"
       | ast_While | ast_If | ast_IfExp => w "test" ++ w "body" ++ w "orelse"
       | ast_With | ast_AsyncWith => w "items" ++ w "items"
       | ast_Raise => w "cause" ++ w "exc"
       | ast_Try => w "body" ++ w "handlers" ++ w "orelse" ++ w "finalbody"
       | ast_Assert => w "test" ++ w "msg"
       | ast_Expr => w "value"
       | ast_BoolOp => w "values"
       | ast_NamedExpr => w "value" ++ w "target"
       | ast_BinOp => w "left" ++ w "right"
       | ast_UnaryOp => w "operand"
       | ast_Lambda => w "args" ++ w "body"
       | ast_Dict =>
           concat (zip_with app (w_each "keys") (w_each "values"))
       | ast_Tuple | ast_List | ast_Set => w "elts"
       | ast_ListComp | ast_SetComp | ast_GeneratorExp =>
           w "generators" ++ w "elt"
       | ast_DictComp => w "generators" ++ w "key" ++ w "value"
       | ast_Await | ast_Yield | ast_YieldFrom => w "value"
       | ast_Compare => w "left" ++ w "comparators"
       | ast_Call => w "func" ++ w "args" ++ w "keywords"
       | ast_FormattedValue => w "value" ++ w "format_spec"
       | ast_JoinedStr => w "values"
       | ast_Attribute | ast_Starred => w "value"
       | ast_Subscript => w "value" ++ w "slice"
       | ast_Slice => w "lower" ++ w "upper" ++ w "step"
       | ast_comprehension => w "iter" ++ w "ifs" ++ w "target"
       | ast_ExceptHandler => w "type" ++ w "body"
       | ast_arguments =>
           w "defaults" ++ w "kw_defaults" ++ w "posonlyargs" ++ w "args"
           ++ w "vararg" ++ w "kwonlyargs" ++ w "kwarg"
       | ast_arg => w "annotation"
       | ast_keyword => w "value"
       | ast_withitem => w "context_expr" ++ w "optional_vars"
       | _ => []
       end) ++ [node]
  end.

(** [ast.iter_child_nodes(node)]: the nodes held by the fields of [node], in
    field order, a list field contributing the nodes among its items. *)
Definition is_ast_node (v : ast) : bool :=
  match v with Node _ _ _ _ => true | _ => false end.

Definition iter_child_nodes (node : ast) : list ast :=
  flat_map
    (fun fv : string * ast =>
       match fv.2 with
       | Node _ _ _ _ => [fv.2]
       | PyList items => filter (fun v => is_ast_node v = true) items
       | _ => []
       end)
    (node_fields node).

(** [ast.walk(node)]: breadth-first, from a queue [todo] that starts as
    [[node]]; each round pops the first node, appends its children to the
    queue and yields it.  [fuel] bounds the number of rounds. *)
Fixpoint ast_walk_loop (fuel : nat) (todo : list ast) : list ast :=
  match fuel, todo with
  | S fuel1, node :: todo1 =>
      node :: ast_walk_loop fuel1 (todo1 ++ iter_child_nodes node)
  | _, _ => []
  end.

(** The number of nodes in a tree: the number of rounds [ast.walk] makes. *)
Fixpoint ast_size (v : ast) : nat :=
  match v with
  | PyNone | PyStr _ | PyReversed _ => 0
  | PyList items => list_sum (map ast_size items)
  | Node _ _ _ fields =>
      S (list_sum (map (fun fv : string * ast => ast_size fv.2) fields))
  end.

Definition ast_walk (node : ast) : list ast :=
  ast_walk_loop (ast_size node) [node].

(** ** Parent links

    [assign_parents(root)] gives every node below [root] a [parent]
    attribute and sets [root.parent = None].  The attribute lives in a side
    table from the identity of a node to the chain of its ancestors, nearest
    first: [node.parent] is the head of the chain, [node.parent.parent] the
    second element, and so on up to [root], whose chain is empty. *)
Fixpoint parent_chains (ancestors : list ast) (node : ast)
    : list (nat * list ast) :=
  match node with
  | Node uid _ _ fields =>
      (uid, ancestors)
      :: flat_map
           (fun fv : string * ast =>
              match fv with
              | (_, PyList items) =>
                  flat_map (parent_chains (node :: ancestors)) items
              | (_, v) => parent_chains (node :: ancestors) v
              end)
           fields
  | _ => []
  end.

(** The table after [assign_parents(root)], starting from the table [table]
    the nodes had before: entries of nodes below [root] are overwritten. *)
Definition assign_parents (root : ast) (table : gmap nat (list ast))
    : gmap nat (list ast) :=
  list_to_map (parent_chains [] root) ∪ table.

(** The chain of ancestors of [node]: empty when it has no [parent]
    attribute or when the attribute is [None]. *)
Definition ancestors_of (table : gmap nat (list ast)) (node : ast)
    : list ast :=
  match node_uid node with
  | Some uid => default [] (table !! uid)
  | None => []
  end.

(** [is_inside_call_func(node)], along the chain of ancestors of [node]. *)
Fixpoint inside_call_func_along (node : ast) (chain : list ast) : bool :=
  match chain with
  | [] => false
  | parent :: chain1 =>
      if isinstance_Call parent && is_node (field parent "func") node
      then true
      else inside_call_func_along parent chain1
  end.

Definition is_inside_call_func (table : gmap nat (list ast)) (node : ast)
    : bool :=
  inside_call_func_along node (ancestors_of table node).

(** ** Outcomes of a call

    A call returns a value, raises an exception, or (in the model only) runs
    out of the fuel that bounds a recursion. *)
Inductive exn : Type :=
| AttributeError | IndexError | TypeError | ValueError | SyntaxError
| OtherException (what : string).

Inductive outcome (A : Type) : Type :=
| Returns (a : A)
| Raises (e : exn)
| OutOfFuel.
Arguments Returns {A} a.
Arguments Raises {A} e.
Arguments OutOfFuel {A}.

#[export] Instance outcome_ret : MRet outcome := @Returns.

#[export] Instance outcome_fmap : FMap outcome :=
  fun A B (f : A -> B) (m : outcome A) =>
    match m with
    | Returns a => Returns (f a)
    | Raises e => Raises e
    | OutOfFuel => OutOfFuel
    end.

#[export] Instance outcome_bind : MBind outcome :=
  fun A B (f : A -> outcome B) (m : outcome A) =>
    match m with
    | Returns a => f a
    | Raises e => Raises e
    | OutOfFuel => OutOfFuel
    end.

(** ** Objects

    An object is known by its address in the heap ([id(obj)]); the heap is
    the list of the objects allocated so far, a new object taking the next
    address.  Containers hold the addresses of their items. *)
Inductive pyobj : Type :=
| ObjList (items : list nat)
| ObjTuple (items : list nat)
| ObjDict (items : list (nat * nat))
| ObjSet (items : list nat)
| ObjGenerator (over : list nat)
| ObjOther (descr : string).

(** The two functions of the [copy] module: each takes the heap and the
    address of an object and either raises ([None]) or returns the heap it
    leaves and the address of the copy. *)
Record copy_module : Type := CopyModule {
  copy_deepcopy : list pyobj -> nat -> option (list pyobj * nat);
  copy_copy : list pyobj -> nat -> option (list pyobj * nat)
}.

(** The state [deepish_copy] works on: the heap and the [memo] dictionary,
    which is shared by all the recursive calls. *)
Record copy_state : Type := CopyState {
  heap : list pyobj;
  memo : gmap nat nat
}.

Definition alloc (o : pyobj) (st : copy_state) : nat * copy_state :=
  (length (heap st), CopyState (heap st ++ [o]) (memo st)).

Definition memoize (obj result : nat) (st : copy_state) : copy_state :=
  CopyState (heap st) (<[obj := result]> (memo st)).

(** [result.append(item)] on the list at address [result]. *)
Definition list_append (result item : nat) (st : copy_state) : copy_state :=
  match heap st !! result with
  | Some (ObjList items) =>
      CopyState (<[result := ObjList (items ++ [item])]> (heap st)) (memo st)
  | _ => st
  end.

(** [result.update(pairs)] and [result |= set(items)] on the fresh, empty
    dictionary or set at address [result]. *)
Definition fill (result : nat) (o : pyobj) (st : copy_state) : copy_state :=
  CopyState (<[result := o]> (heap st)) (memo st).

(** The generator [(deepish_copy(item, memo) for item in obj)] run to its
    end, collecting the copies in order; [rec] is the recursive call. *)
Fixpoint copy_all (rec : nat -> copy_state -> outcome (nat * copy_state))
    (items : list nat) (st : copy_state) : outcome (list nat * copy_state) :=
  match items with
  | [] => Returns ([], st)
  | item :: items1 =>
      '(c, st) ← rec item st;
      '(cs, st) ← copy_all rec items1 st;
      Returns (c :: cs, st)
  end.

(** [result.extend(deepish_copy(item, memo) for item in obj)]: each copy is
    appended to the list at [result] as soon as it is made. *)
Fixpoint extend_with_copies
    (rec : nat -> copy_state -> outcome (nat * copy_state)) (result : nat)
    (items : list nat) (st : copy_state) : outcome (nat * copy_state) :=
  match items with
  | [] => Returns (result, st)
  | item :: items1 =>
      '(c, st) ← rec item st;
      extend_with_copies rec result items1 (list_append result c st)
  end.

(** The keys and values of a dictionary in the order the comprehension of
    the dictionary case copies them, and back. *)
Definition keys_and_values (items : list (nat * nat)) : list nat :=
  flat_map (fun kv : nat * nat => [kv.1; kv.2]) items.

Fixpoint pair_up (l : list nat) : list (nat * nat) :=
  match l with
  | k :: v :: l1 => (k, v) :: pair_up l1
  | _ => []
  end.

(** [deepish_copy(obj, memo)].  [fuel] bounds the depth of the recursion. *)
Fixpoint deepish_copy (fuel : nat) (lib : copy_module) (obj : nat)
    (st : copy_state) : outcome (nat * copy_state) :=
  match memo st !! obj with
  | Some known => Returns (known, st)
  | None =>
      match copy_deepcopy lib (heap st) obj with
      | Some (heap1, result) =>
          Returns (result, memoize obj result (CopyState heap1 (memo st)))
      | None =>
          match fuel with
          | O => OutOfFuel
          | S fuel1 =>
              match heap st !! obj with
              | Some (ObjList items) =>
                  let '(result, st) := alloc (ObjList []) st in
                  let st := memoize obj result st in
                  extend_with_copies (deepish_copy fuel1 lib) result items st
              | Some (ObjTuple items) =>
                  (* a generator expression: nothing is copied yet *)
                  let '(result, st) := alloc (ObjGenerator items) st in
                  Returns (result, memoize obj result st)
              | Some (ObjDict items) =>
                  let '(result, st) := alloc (ObjDict []) st in
                  let st := memoize obj result st in
                  '(cs, st) ←
                    copy_all (deepish_copy fuel1 lib) (keys_and_values items)
                      st;
                  Returns (result, fill result (ObjDict (pair_up cs)) st)
              | Some (ObjSet items) =>
                  let '(result, st) := alloc (ObjSet []) st in
                  let st := memoize obj result st in
                  '(cs, st) ← copy_all (deepish_copy fuel1 lib) items st;
                  Returns (result, fill result (ObjSet cs) st)
              | _ =>
                  (* Can't go deeper I guess *)
                  match copy_copy lib (heap st) obj with
                  | Some (heap1, result) =>
                      Returns
                        (result,
                         memoize obj result (CopyState heap1 (memo st)))
                  | None =>
                      (* Can't even copy (e.g., a module) *)
                      Returns (obj, memoize obj obj st)
                  end
              end
          end
      end
  end.

(** The addresses a heap object holds. *)
Definition held_by (o : pyobj) : list nat :=
  match o with
  | ObjList items | ObjTuple items | ObjSet items | ObjGenerator items =>
      items
  | ObjDict items => keys_and_values items
  | ObjOther _ => []
  end.

(** The objects [deepish_copy] copies item by item: instances of [list],
    [tuple], [dict] and [set]. *)
Definition is_container (o : pyobj) : bool :=
  match o with
  | ObjList _ | ObjTuple _ | ObjDict _ | ObjSet _ => true
  | ObjGenerator _ | ObjOther _ => false
  end.

(** A heap is closed when its objects hold addresses of the heap only. *)
Definition heap_closed (h : list pyobj) : Prop :=
  forall a o x, h !! a = Some o -> x ∈ held_by o -> x < length h.

(** A function of the [copy] module is well behaved when it leaves the
    objects of the heap as they are, adding its copies after them. *)
Definition extends_heap
    (f : list pyobj -> nat -> option (list pyobj * nat)) : Prop :=
  forall h a h' r, f h a = Some (h', r) -> h `prefix_of` h'.

(** The objects of the original heap (of [size] objects) that [memo] does
    not know yet. *)
Definition unknown (size : nat) (memo : gmap nat nat) : list nat :=
  filter (fun a => memo !! a = None) (seq 0 size).

(** [unchanged_below n h h']: the heap [h'] holds at least the objects of
    [h], and the objects at the addresses below [n] are the same. *)
Definition unchanged_below (n : nat) (h h' : list pyobj) : Prop :=
  length h <= length h' /\ forall a, a < n -> h' !! a = h !! a.

(** [copied_elementwise st' o v]: the object at [v] is a container of the
    kind of [o] whose items are, one by one, the copies that [memo] records
    for the items of [o]. *)
Definition copied_elementwise (st' : copy_state) (o : pyobj) (v : nat)
    : Prop :=
  match o with
  | ObjList items =>
      exists cs,
        heap st' !! v = Some (ObjList cs)
        /\ Forall2 (fun item c => memo st' !! item = Some c) items cs
  | ObjDict items =>
      exists cs,
        heap st' !! v = Some (ObjDict cs)
        /\ Forall2 (fun kv kc : nat * nat =>
                      memo st' !! kv.1 = Some kc.1
                      /\ memo st' !! kv.2 = Some kc.2) items cs
  | ObjSet items =>
      exists cs,
        heap st' !! v = Some (ObjSet cs)
        /\ Forall2 (fun item c => memo st' !! item = Some c) items cs
  | _ => True
  end.

(** What a call [rec item st] does when it has enough fuel, for a heap whose
    first objects are those of [original]: it returns the copy [v] of
    [item], leaves the objects the heap held as they were, keeps what [memo]
    knew and adds [v] for [item]; and when [item] was not known and
    [copy.deepcopy] refuses it, [v] is a new container, copied item by
    item. *)
Definition total_on (lib : copy_module) (original : list pyobj) (fuel : nat)
    (rec : nat -> copy_state -> outcome (nat * copy_state)) : Prop :=
  forall item st,
    item < length original ->
    unchanged_below (length original) original (heap st) ->
    length (unknown (length original) (memo st)) < fuel ->
    exists v st',
      rec item st = Returns (v, st')
      /\ unchanged_below (length (heap st)) (heap st) (heap st')
      /\ memo st ⊆ memo st'
      /\ memo st' !! item = Some v
      /\ (memo st !! item = None ->
          copy_deepcopy lib (heap st) item = None ->
          forall o, heap st !! item = Some o -> copied_elementwise st' o v).

(** ** Source text of an expression *)

Local Open Scope char_scope.

Definition newline : ascii := "010".
Definition carriage_return : ascii := "013".

(** [str.splitlines()]: the lines of a text, without their line breaks.  A
    line ends at a line feed, a carriage return (with the line feed that
    follows it, if any), a vertical tab, a form feed, a file, group or record
    separator, or a next-line character. *)
Definition is_line_break (c : ascii) : bool :=
  let n := nat_of_ascii c in
  ((n =? 10) || (n =? 11) || (n =? 12) || (n =? 13) || (n =? 28)
   || (n =? 29) || (n =? 30) || (n =? 133))%nat.

Fixpoint splitlines_from (line : list ascii) (here : list ascii)
    : list (list ascii) :=
  match here with
  | [] => match line with [] => [] | _ => [rev line] end
  | c :: here1 =>
      if is_line_break c then
        match here1 with
        | c1 :: here2 =>
            if Ascii.eqb c carriage_return && Ascii.eqb c1 newline
            then rev line :: splitlines_from [] here2
            else rev line :: splitlines_from [] here1
        | [] => [rev line]
        end
      else splitlines_from (c :: line) here1
  end.

Definition splitlines (src : list ascii) : list (list ascii) :=
  splitlines_from [] src.

(** [get_src_index]; [lines[:lineno - 1]] is [lines[:-1]] when [lineno] is
    zero. *)
Definition get_src_index (src : list ascii) (lineno col_offset : nat) : nat :=
  let lines := splitlines src in
  let above :=
    match lineno with
    | O => removelast lines
    | S n => take n lines
    end in
  list_sum (map length above) + length above + col_offset.

(** The lines of a text with their line breaks kept, a line ending at a
    line feed or a carriage return only: how [ast.get_source_segment] splits
    the source. *)
Fixpoint splitlines_no_ff_from (line : list ascii) (here : list ascii)
    : list (list ascii) :=
  match here with
  | [] => match line with [] => [] | _ => [rev line] end
  | c :: here1 =>
      if Ascii.eqb c newline then
        rev (c :: line) :: splitlines_no_ff_from [] here1
      else if Ascii.eqb c carriage_return then
        match here1 with
        | c1 :: here2 =>
            if Ascii.eqb c1 newline
            then rev (c1 :: c :: line) :: splitlines_no_ff_from [] here2
            else rev (c :: line) :: splitlines_no_ff_from [] here1
        | [] => [rev (c :: line)]
        end
      else splitlines_no_ff_from (c :: line) here1
  end.

(** [lines[i]] for a line number [i + 1]; line number zero reads the last
    line. *)
Definition line_at (lines : list (list ascii)) (lineno : nat)
    : outcome (list ascii) :=
  match lineno with
  | O => match last lines with
         | Some l => Returns l
         | None => Raises IndexError
         end
  | S i => match lines !! i with
           | Some l => Returns l
           | None => Raises IndexError
           end
  end.

(** [str.encode()]: the UTF-8 bytes of a text.  A character below 128 is
    one byte, a character from 128 to 255 two: [192 + n / 64] and
    [128 + n mod 64]. *)
Definition byte_of_nat (n : nat) : Byte.byte := byte_of_ascii (ascii_of_nat n).

Definition encode_char (c : ascii) : list Byte.byte :=
  let n := nat_of_ascii c in
  if (n <? 128)%nat then [byte_of_nat n]
  else [byte_of_nat (192 + n / 64); byte_of_nat (128 + n mod 64)].

Definition encode (s : list ascii) : list Byte.byte :=
  flat_map encode_char s.

(** [bytes.decode()] for a slice of the bytes of such a text: a byte below
    128 is a character, the bytes 194 and 195 start a character of two
    bytes, and a slice that starts inside a character or ends inside one
    raises [UnicodeDecodeError].  No other byte starts a character below
    256. *)
Fixpoint decode (bs : list Byte.byte) : outcome (list ascii) :=
  match bs with
  | [] => Returns []
  | b :: bs1 =>
      let n := Byte.to_nat b in
      if (n <? 128)%nat then
        rest ← decode bs1;
        Returns (ascii_of_nat n :: rest)
      else if ((n =? 194) || (n =? 195))%nat then
        match bs1 with
        | b1 :: bs2 =>
            let m := Byte.to_nat b1 in
            if ((128 <=? m) && (m <? 192))%nat then
              rest ← decode bs2;
              Returns (ascii_of_nat ((n - 192) * 64 + (m - 128)) :: rest)
            else Raises (OtherException "UnicodeDecodeError")
        | [] => Raises (OtherException "UnicodeDecodeError")
        end
      else Raises (OtherException "UnicodeDecodeError")
  end.

(** [ast.get_source_segment(source, node)] (with [padded=False]): [None]
    when the node has no end position, else the text between the start and
    the end positions of the node.  The column offsets of a node count the
    UTF-8 bytes of its line, and the function slices the bytes of the line;
    [lines[lineno + 1:end_lineno]] counts from the end of the list when the
    end line number is zero. *)
Definition get_source_segment (source : list ascii) (node : ast)
    : outcome (option (list ascii)) :=
  match node with
  | Node _ _ (Some p) _ =>
      let lines := splitlines_no_ff_from [] source in
      if (end_lineno p =? lineno p)%nat then
        l ← line_at lines (lineno p);
        Some
          <$> decode (take (end_col_offset p - col_offset p)
                        (drop (col_offset p) (encode l)))
      else
        l ← line_at lines (lineno p);
        first ← decode (drop (col_offset p) (encode l));
        e ← line_at lines (end_lineno p);
        last ← decode (take (end_col_offset p) (encode e));
        let between :=
          drop (lineno p)
            match end_lineno p with
            | O => removelast lines
            | S i => take i lines
            end in
        Returns (Some (first ++ concat between ++ last)%list)
  | _ => Returns None
  end.

(** [str.strip()]. *)
Definition isspace (c : ascii) : bool :=
  let n := nat_of_ascii c in
  (((9 <=? n) && (n <=? 13)) || ((28 <=? n) && (n <=? 32)) || (n =? 133)
   || (n =? 160))%nat.

Fixpoint lstrip (s : list ascii) : list ascii :=
  match s with
  | c :: s1 => if isspace c then lstrip s1 else s
  | [] => []
  end.

Definition strip (s : list ascii) : list ascii :=
  rev (lstrip (rev (lstrip s))).

(** [textwrap.dedent(text)].  Lines are what a line feed separates; a line
    of blanks and tabs only counts as empty; the margin is the longest run
    of blanks and tabs that starts every other non-empty line; it is removed
    from the lines that start with it. *)
Definition is_blank (c : ascii) : bool :=
  Ascii.eqb c " " || Ascii.eqb c "009".

Fixpoint split_on_newline (line : list ascii) (here : list ascii)
    : list (list ascii) :=
  match here with
  | [] => [rev line]
  | c :: here1 =>
      if Ascii.eqb c newline then rev line :: split_on_newline [] here1
      else split_on_newline (c :: line) here1
  end.

Fixpoint leading_blanks (l : list ascii) : list ascii :=
  match l with
  | c :: l1 => if is_blank c then c :: leading_blanks l1 else []
  | [] => []
  end.

Fixpoint common_prefix (a b : list ascii) : list ascii :=
  match a, b with
  | x :: a1, y :: b1 => if Ascii.eqb x y then x :: common_prefix a1 b1 else []
  | _, _ => []
  end.

Fixpoint starts_with (prefix l : list ascii) : bool :=
  match prefix, l with
  | [] , _ => true
  | x :: p1, y :: l1 => Ascii.eqb x y && starts_with p1 l1
  | _ :: _, [] => false
  end.

Definition join_lines (lines : list (list ascii)) : list ascii :=
  match lines with
  | [] => []
  | l :: ls => l ++ flat_map (fun l1 => newline :: l1) ls
  end.

Definition dedent (text : list ascii) : list ascii :=
  let lines :=
    map (fun l => if forallb is_blank l then [] else l)
      (split_on_newline [] text) in
  let indents :=
    map leading_blanks (filter (fun l => l <> []) lines) in
  let margin :=
    match indents with
    | [] => []
    | i :: is_ => foldl common_prefix i is_
    end in
  join_lines
    (map (fun l =>
            if starts_with margin l then drop (length margin) l else l)
       lines).

(** [src.index(ch, start)]. *)
Fixpoint index_loop (ch : ascii) (at_ : nat) (here : list ascii)
    : outcome nat :=
  match here with
  | [] => Raises ValueError
  | c :: here1 =>
      if Ascii.eqb c ch then Returns at_ else index_loop ch (at_ + 1) here1
  end.

Definition str_index (src : list ascii) (ch : ascii) (start : nat)
    : outcome nat :=
  index_loop ch start (drop start src).

(** Reading an attribute of a node that may not have it. *)
Definition node_position (node : ast) : outcome position :=
  match node with
  | Node _ _ (Some p) _ => Returns p
  | _ => Raises AttributeError
  end.

(** [l[0]] *)
Definition first_item (l : ast) : outcome ast :=
  match l with
  | PyList (x :: _) => Returns x
  | PyList [] => Raises IndexError
  | _ => Raises TypeError
  end.

(** [dedent(text).strip()], where [text] may be [None]. *)
Definition dedent_strip (text : option (list ascii))
    : outcome (list ascii) :=
  match text with
  | Some t => Returns (strip (dedent t))
  | None => Raises TypeError
  end.

Local Open Scope string_scope.
Local Open Scope list_scope.

(** [get_expr_src(src, call_node)]; [has_get_source_segment] is
    [hasattr(ast, 'get_source_segment')]. *)
Definition get_expr_src_exact (src : list ascii) (call_node : ast)
    : outcome (list ascii) :=
  arg_expr ← first_item (field call_node "args");
  seg ← get_source_segment src arg_expr;
  dedent_strip seg.

Definition get_expr_src_scan (src : list ascii) (call_node : ast)
    : outcome (list ascii) :=
  arg_expr ← first_item (field call_node "args");
  p ← node_position call_node;
  let start := get_src_index src (lineno p) (col_offset p) in
  open_paren ← str_index src "("%char start;
  let end_ := find_closing_item src open_paren ("("%char, ")"%char) in
  let first_comma := find_unbracketed_comma src (open_paren + 1) in
  match first_comma, end_ with
  | Some comma, Some e =>
      Returns
        (strip (dedent (take (e `min` comma - (open_paren + 1))
                          (drop (open_paren + 1) src))))
  | Some comma, None => Raises TypeError (* min(None, first_comma) *)
  | None, Some e =>
      Returns
        (strip (dedent (take (e - (open_paren + 1))
                          (drop (open_paren + 1) src))))
  | None, None => Returns (strip (dedent (drop (open_paren + 1) src)))
  end.

Definition get_expr_src (has_get_source_segment : bool) (src : list ascii)
    (call_node : ast) : outcome (list ascii) :=
  if has_get_source_segment then get_expr_src_exact src call_node
  else get_expr_src_scan src call_node.

Definition isinstance (node : ast) (test : kind -> bool) : bool :=
  match node_kind node with
  | Some k => test k
  | None => false
  end.

Definition is_Attribute (k : kind) : bool :=
  match k with ast_Attribute => true | _ => false end.
Definition is_Name (k : kind) : bool :=
  match k with ast_Name => true | _ => false end.
Definition is_Subscript (k : kind) : bool :=
  match k with ast_Subscript => true | _ => false end.
Definition is_Slice (k : kind) : bool :=
  match k with ast_Slice => true | _ => false end.
Definition is_Index (k : kind) : bool :=
  match k with ast_Index => true | _ => false end.
Definition is_ExtSlice (k : kind) : bool :=
  match k with ast_ExtSlice => true | _ => false end.

(** [src[start:end + 1]], where [end] may be [None]. *)
Definition slice_through (src : list ascii) (start : nat) (end_ : option nat)
    : outcome (list ascii) :=
  match end_ with
  | Some e => Returns (take (e + 1 - start) (drop start src))
  | None => Raises TypeError
  end.

(** [get_ref_src(src, node)] for an attribute, name or subscript node. *)
Definition get_ref_src_scan (src : list ascii) (node : ast)
    : outcome (option (list ascii)) :=
  p ← node_position node;
  let start := get_src_index src (lineno p) (col_offset p) in
  if isinstance node is_Attribute then
    let inner_period_count :=
      (Z.of_nat
         (length (filter (fun n => isinstance n is_Attribute = true)
                    (ast_walk node))) - 1)%Z in
    match find_nth_attribute_period src start inner_period_count with
    | Some dot =>
        Some <$> slice_through src start
                   (Some (find_identifier_end src (dot + 1)))
    | None => Raises TypeError (* dot + 1 *)
    end
  else if isinstance node is_Name then
    Some <$> slice_through src start (Some (find_identifier_end src start))
  else if isinstance node is_Subscript then
    let inner := field node "slice" in
    inner ←
      (if isinstance inner is_Slice then Returns inner
       else if isinstance inner is_Index then Returns (field inner "value")
       else if isinstance inner is_ExtSlice then
         first_item (field inner "dims")
       else Raises TypeError);
    ip ← node_position inner;
    let sub_start := get_src_index src (lineno ip) (col_offset ip) in
    Some <$> slice_through src start
               (find_closing_item src (sub_start - 1) ("["%char, "]"%char))
  else Raises (OtherException "UnboundLocalError").

Definition get_ref_src (has_get_source_segment : bool) (src : list ascii)
    (node : ast) : outcome (option (list ascii)) :=
  if has_get_source_segment then get_source_segment src node
  else get_ref_src_scan src node.

(** ** Frames, the host and the state of the module *)

(** The argument of [get_my_context] and of [find_call_nodes_on_line]: a
    name (a [str]) or a function object, known by its address and its
    [__name__]. *)
Inductive target : Type :=
| ByName (name : string)
| ByFunction (obj : nat) (dunder_name : string).

(** A stack frame of the caller: the [__name__] and [__file__] globals, the
    file name of its code object, the line being executed, and what
    [eval(compile(ast.Expression(node), ...), globals, locals)] does on the
    heap for an expression [node]. *)
Record frame : Type := Frame {
  f_globals_name : option string;
  f_globals_file : option string;
  co_filename : string;
  f_lineno : nat;
  f_eval : ast -> list pyobj -> outcome (nat * list pyobj)
}.

(** What the module finds around it: the [DETAIL_LEVEL] global, which
    facilities the [ast] module has, the file system, the parser and the
    [copy] module. *)
Record host : Type := Host {
  DETAIL_LEVEL : Z;
  has_get_source_segment : bool;
  ast_unparse : option (ast -> string);
  read_file : string -> option (list ascii);
  ast_parse : list ascii -> string -> outcome ast;
  copy_lib : copy_module
}.

(** A line printed to [sys.stderr]. *)
Inductive message : Type :=
| Warning_unable_to_get_source
| Call_is_on_line (line : nat) (module_name : option string)
    (filename : string)
| Warning_unable_to_find_call_node (function_name : string) (line : nat)
    (filename : string).

(** The mutable state: the [COMPLETED_PER_LINE] global, what has been
    printed to [sys.stderr], and the heap. *)
Record world : Type := World {
  COMPLETED_PER_LINE : gmap string (gmap (string * nat) nat);
  stderr : list message;
  objects : list pyobj
}.

(** A computation on the state.  The state an exception leaves behind is
    kept: what was done before the exception stays done. *)
Definition M (A : Type) : Type := world -> outcome A * world.

#[export] Instance M_ret : MRet M := fun A (a : A) w => (Returns a, w).

#[export] Instance M_bind : MBind M :=
  fun A B (f : A -> M B) (m : M A) w =>
    match m w with
    | (Returns a, w1) => f a w1
    | (Raises e, w1) => (Raises e, w1)
    | (OutOfFuel, w1) => (OutOfFuel, w1)
    end.

Definition lift {A : Type} (o : outcome A) : M A := fun w => (o, w).

Definition print (m : message) : M unit :=
  fun w =>
    (Returns tt,
     World (COMPLETED_PER_LINE w) (stderr w ++ [m]) (objects w)).

(** [evaluate_in_context(node, stack_frame)]. *)
Definition evaluate_in_context (node : ast) (stack_frame : frame) : M nat :=
  fun w =>
    match f_eval stack_frame node (objects w) with
    | Returns (v, heap1) =>
        (Returns v, World (COMPLETED_PER_LINE w) (stderr w) heap1)
    | Raises e => (Raises e, w)
    | OutOfFuel => (OutOfFuel, w)
    end.

(** [deepish_copy(obj)], with the fresh [memo] the default argument stands
    for. *)
Definition deepish_copy_fresh (lib : copy_module) (obj : nat) : M nat :=
  fun w =>
    match deepish_copy (S (length (objects w))) lib obj
            (CopyState (objects w) ∅) with
    | Returns (v, st) =>
        (Returns v, World (COMPLETED_PER_LINE w) (stderr w) (heap st))
    | Raises e => (Raises e, w)
    | OutOfFuel => (OutOfFuel, w)
    end.

(** [get_filename(stack_frame)] (with [speculate_filename=True]) and
    [get_code_line(stack_frame)]. *)
Definition get_filename (stack_frame : frame) : option string :=
  match f_globals_file stack_frame with
  | Some filename => Some filename
  | None => Some (co_filename stack_frame)
  end.

Definition get_code_line (stack_frame : frame) : nat :=
  f_lineno stack_frame.

(** ** The call-site resolver *)

(** The predicate [call_matches] local to [find_call_nodes_on_line]:
    [name_matches] is its first disjunct, for a [function] that is a
    string. *)
Definition name_matches (h : host) (name : string) (call_expr : ast) : bool :=
  (isinstance call_expr is_Name
   && match field call_expr "id" with
      | PyStr s => String.eqb s name
      | _ => false
      end)
  || (isinstance call_expr is_Attribute
      && match field call_expr "attr" with
         | PyStr s => String.eqb s name
         | _ => false
         end)
  || match ast_unparse h with
     | Some unparse => String.eqb (unparse call_expr) name
     | None => false
     end.

Definition call_matches (h : host) (fr : frame) (function : target)
    (call_node : ast) : M bool :=
  let call_expr := field call_node "func" in
  match function with
  | ByName name => mret (name_matches h name call_expr)
  | ByFunction obj _ =>
      v ← evaluate_in_context call_expr fr;
      mret (Nat.eqb v obj)
  end.

(** The first loop: the nodes on the target line, in execution order, and
    the matching calls among them. *)
Fixpoint primary_search (h : host) (fr : frame) (function : target)
    (line : nat) (children : list ast) (result all_on_line : list ast)
    : M (list ast * list ast) :=
  match children with
  | [] => mret (result, all_on_line)
  | child :: children1 =>
      if bool_decide (node_lineno child = Some line) then
        let all_on_line := all_on_line ++ [child] in
        if isinstance_Call child then
          matches ← call_matches h fr function child;
          primary_search h fr function line children1
            (if matches : bool then result ++ [child] else result) all_on_line
        else primary_search h fr function line children1 result all_on_line
      else primary_search h fr function line children1 result all_on_line
  end.

(** The classes at which the upward walk of the second loop stops. *)
Definition stops_climb (k : kind) : bool :=
  match k with
  | ast_Call
  | ast_Module | ast_Interactive | ast_Expression
  | ast_FunctionDef | ast_AsyncFunctionDef
  | ast_ClassDef
  | ast_Return
  | ast_Delete
  | ast_Assign | ast_AugAssign | ast_AnnAssign
  | ast_For | ast_AsyncFor
  | ast_While
  | ast_If
  | ast_With | ast_AsyncWith
  | ast_Raise
  | ast_Try
  | ast_Assert => true
  | _ => false
  end.

(** The [while] loop of the second loop, from [here = on_line.parent] along
    the chain of ancestors: the value of [here] when it ends ([PyNone] for
    [None]). *)
Fixpoint climb (chain : list ast) : ast :=
  match chain with
  | [] => PyNone
  | here :: chain1 =>
      if isinstance here stops_climb then here else climb chain1
  end.

(** The second loop. *)
Fixpoint fallback_search (h : host) (fr : frame) (function : target)
    (table : gmap nat (list ast)) (all_on_line : list ast)
    (result : list ast) : M (list ast) :=
  match all_on_line with
  | [] => mret result
  | on_line :: all_on_line1 =>
      let here := climb (ancestors_of table on_line) in
      if isinstance_Call here then
        matches ← call_matches h fr function here;
        fallback_search h fr function table all_on_line1
          (if matches : bool then result ++ [here] else result)
      else fallback_search h fr function table all_on_line1 result
  end.

(** [find_call_nodes_on_line(node, frame, function, lineno)]; [table] holds
    the [parent] attributes of the nodes. *)
Definition find_call_nodes_on_line (h : host)
    (table : gmap nat (list ast)) (node : ast) (fr : frame)
    (function : target) (line : nat) : M (list ast) :=
  '(result, all_on_line) ←
    primary_search h fr function line (walk_ast_in_order node) [] [];
  if (length result =? 0)%nat then
    fallback_search h fr function table all_on_line result
  else mret result.

(** A node is on the target line; a node is a call that [matching]
    accepts. *)
Definition on_the_line (line : nat) (n : ast) : Prop :=
  node_lineno n = Some line.

Definition matching_call (matching : ast -> bool) (n : ast) : Prop :=
  isinstance_Call n && matching n = true.

#[export] Instance on_the_line_dec line n : Decision (on_the_line line n).
Proof. unfold on_the_line. apply _. Defined.

#[export] Instance matching_call_dec matching n :
  Decision (matching_call matching n).
Proof. unfold matching_call. apply _. Defined.

(** ** The context builder *)

(** The dictionary [get_my_context] returns: with the [file] and [line]
    keys only, or with all seven keys.  A key of [values] is what
    [get_ref_src] returned, a text or [None]. *)
Inductive context : Type :=
| LocationOnly (file : option string) (line : nat)
| FullContext (file : string) (line : nat) (src : list ascii) (expr : ast)
    (expr_src : list ascii) (values : gmap (option (list ascii)) nat)
    (relevant : gset (option (list ascii))).

Definition context_keys (c : context) : list string :=
  match c with
  | LocationOnly _ _ => ["file"; "line"]
  | FullContext _ _ _ _ _ _ _ =>
      ["file"; "line"; "src"; "expr"; "expr_src"; "values"; "relevant"]
  end.

(** [d.setdefault(k, v)]: the value found or stored, and the dictionary. *)
Definition setdefault `{Countable K} {V : Type} (d : gmap K V) (k : K)
    (v : V) : V * gmap K V :=
  match d !! k with
  | Some x => (x, d)
  | None => (v, <[k := v]> d)
  end.

(** [COMPLETED_PER_LINE.setdefault(function_name, {})
      .setdefault((filename, lineno), 0)]: the count read, and the global
    after the two calls. *)
Definition read_counter (function_name filename : string) (line : nat)
    : M nat :=
  fun w =>
    let '(inner, outer) :=
      setdefault (COMPLETED_PER_LINE w) function_name ∅ in
    let '(prev_this_line, inner) := setdefault inner (filename, line) 0 in
    (Returns prev_this_line,
     World (<[function_name := inner]> outer) (stderr w) (objects w)).

(** [COMPLETED_PER_LINE[function_name][(filename, lineno)] += 1]; a missing
    key raises [KeyError]. *)
Definition bump_counter (function_name filename : string) (line : nat)
    : M unit :=
  fun w =>
    match COMPLETED_PER_LINE w !! function_name with
    | Some inner =>
        match inner !! (filename, line) with
        | Some n =>
            (Returns tt,
             World (<[function_name := <[(filename, line) := n + 1]> inner]>
                      (COMPLETED_PER_LINE w))
               (stderr w) (objects w))
        | None => (Raises (OtherException "KeyError"), w)
        end
    | None => (Raises (OtherException "KeyError"), w)
    end.

(** [candidates[i]] *)
Definition item_at (l : list ast) (i : nat) : outcome ast :=
  match l !! i with
  | Some x => Returns x
  | None => Raises IndexError
  end.

Definition is_reference (k : kind) : bool :=
  match k with
  | ast_Attribute | ast_Subscript | ast_Name => true
  | _ => false
  end.

(** The loop over [ast.walk(arg_expr)] that fills [result['values']] and
    [result['relevant']]. *)
Fixpoint collect_values (h : host) (fr : frame) (src : list ascii)
    (table : gmap nat (list ast)) (nodes : list ast)
    (values : gmap (option (list ascii)) nat)
    (relevant : gset (option (list ascii)))
    : M (gmap (option (list ascii)) nat * gset (option (list ascii))) :=
  match nodes with
  | [] => mret (values, relevant)
  | node :: nodes1 =>
      if isinstance node is_reference then
        key ← lift (get_ref_src (has_get_source_segment h) src node);
        match values !! key with
        | Some _ => collect_values h fr src table nodes1 values relevant
        | None =>
            v ← evaluate_in_context node fr;
            val ← deepish_copy_fresh (copy_lib h) v;
            collect_values h fr src table nodes1 (<[key := val]> values)
              (if is_inside_call_func table node then relevant
               else {[key]} ∪ relevant)
        end
      else collect_values h fr src table nodes1 values relevant
  end.

(** [function_name] *)
Definition name_of (function_or_name : target) : string :=
  match function_or_name with
  | ByFunction _ dunder_name => dunder_name
  | ByName name => name
  end.

(** What [get_my_context] does with the call node [match_] it has
    selected, once the counter is recorded: from [arg_expr = match.args[0]]
    to the end. *)
Definition describe_call (h : host) (fr : frame) (filename : string)
    (line : nat) (src : list ascii) (table : gmap nat (list ast))
    (match_ : ast) : M context :=
  arg_expr ← lift (first_item (field match_ "args"));
  let table := assign_parents arg_expr table in
  expr_src ← lift (get_expr_src (has_get_source_segment h) src match_);
  '(values, relevant) ←
    collect_values h fr src table (ast_walk arg_expr) ∅ ∅;
  mret (FullContext filename line src arg_expr expr_src values relevant).

(** What [get_my_context] does once the source has been read. *)
Definition build_context (h : host) (fr : frame)
    (function_or_name : target) (filename : string) (line : nat)
    (src : list ascii) : M context :=
  let function_name := name_of function_or_name in
  src_node ← lift (ast_parse h src filename);
  let table := assign_parents src_node ∅ in
  candidates ←
    find_call_nodes_on_line h table src_node fr function_or_name line;
  if (length candidates =? 0)%nat then
    print (Warning_unable_to_find_call_node function_name line filename);;
    mret (LocationOnly (Some filename) line)
  else
    prev_this_line ← read_counter function_name filename line;
    match_ ← lift (item_at candidates (prev_this_line `mod` length candidates));
    bump_counter function_name filename line;;
    describe_call h fr filename line src table match_.

(** [get_my_context(function_or_name)]; [caller] is what
    [get_external_calling_frame()] returns. *)
Definition get_my_context (h : host) (caller : option frame)
    (function_or_name : target) : M context :=
  match caller with
  | None => lift (Raises AttributeError)
  | Some fr =>
      let filename := get_filename fr in
      let line := get_code_line fr in
      match filename with
      | None => mret (LocationOnly filename line)
      | Some file =>
          match read_file h file with
          | Some src => build_context h fr function_or_name file line src
          | None =>
              (if (DETAIL_LEVEL h >=? 2)%Z then
                 print Warning_unable_to_get_source;;
                 print (Call_is_on_line line (f_globals_name fr) file)
               else mret tt);;
              mret (LocationOnly filename line)
          end
      end
  end.

(** ** Fixtures: concrete sources, trees and hosts *)

(** Node builders: a name, a call, an expression statement, a module, with
    the fields of the class in the order of [_fields]. *)
Definition mkName (uid : nat) (p : position) (id : string) : ast :=
  Node uid ast_Name (Some p)
    [("id", PyStr id); ("ctx", Node (1000 + uid) (ast_other "Load") None [])].

Definition mkCall (uid : nat) (p : position) (func : ast) (args : list ast)
    : ast :=
  Node uid ast_Call (Some p)
    [("func", func); ("args", PyList args); ("keywords", PyList [])].

Definition mkExpr (uid : nat) (p : position) (value : ast) : ast :=
  Node uid ast_Expr (Some p) [("value", value)].

Definition mkModule (uid : nat) (body : list ast) : ast :=
  Node uid ast_Module None
    [("body", PyList body); ("type_ignores", PyList [])].

(** A span on one line. *)
Definition on_line (line c0 c1 : nat) : position := Position line c0 line c1.

(** The source [expect(f(y), z)] and its tree. *)
Definition src_C : list ascii := text_of "expect(f(y), z)".

Definition name_f : ast := mkName 4 (on_line 1 7 8) "f".
Definition name_y : ast := mkName 5 (on_line 1 9 10) "y".
Definition call_f_y : ast := mkCall 3 (on_line 1 7 11) name_f [name_y].
Definition call_expect_C : ast :=
  mkCall 1 (on_line 1 0 15) (mkName 2 (on_line 1 0 6) "expect")
    [call_f_y; mkName 6 (on_line 1 13 14) "z"].
Definition tree_C : ast := mkModule 0 [mkExpr 7 (on_line 1 0 15) call_expect_C].

(** The statement [x = [A for y in C if D]] of the docstring of
    [walk_ast_in_order], and its tree. *)
Definition target_x : ast := mkName 11 (on_line 1 0 1) "x".
Definition elt_A : ast := mkName 12 (on_line 1 5 6) "A".
Definition loop_var_y : ast := mkName 13 (on_line 1 11 12) "y".
Definition iter_C : ast := mkName 14 (on_line 1 16 17) "C".
Definition cond_D : ast := mkName 15 (on_line 1 21 22) "D".
Definition comprehension_y_C_D : ast :=
  Node 16 ast_comprehension None
    [("target", loop_var_y); ("iter", iter_C); ("ifs", PyList [cond_D]);
     ("is_async", PyNone)].
Definition listcomp_A : ast :=
  Node 17 ast_ListComp (Some (on_line 1 4 23))
    [("elt", elt_A); ("generators", PyList [comprehension_y_C_D])].
Definition assign_x : ast :=
  Node 18 ast_Assign (Some (on_line 1 0 23))
    [("targets", PyList [target_x]); ("value", listcomp_A);
     ("type_comment", PyNone)].

(** A call over three lines,
    [expect(] / [    a + b,] / [    3)],
    and its tree: the arguments are on lines 2 and 3. *)
Definition src_multiline : list ascii :=
  text_of "expect(" ++ [newline] ++ text_of "    a + b," ++ [newline]
  ++ text_of "    3)".

Definition name_a : ast := mkName 23 (on_line 2 4 5) "a".
Definition name_b : ast := mkName 24 (on_line 2 8 9) "b".
Definition binop_a_b : ast :=
  Node 22 ast_BinOp (Some (on_line 2 4 9))
    [("left", name_a); ("op", Node 1022 (ast_other "Add") None []);
     ("right", name_b)].
Definition call_multiline : ast :=
  mkCall 21 (Position 1 0 3 6) (mkName 26 (on_line 1 0 6) "expect")
    [binop_a_b;
     Node 25 ast_Constant (Some (on_line 3 4 5))
       [("value", PyStr "3"); ("kind", PyNone)]].
Definition tree_multiline : ast :=
  mkModule 20 [mkExpr 27 (Position 1 0 3 6) call_multiline].

(** A heap with the function [expect] at address 0, the function [f] at 1,
    the value of [y] at 2 and the value of [z] at 3; the names evaluate to
    these addresses. *)
Definition heap_C : list pyobj :=
  [ObjOther "function expect"; ObjOther "function f"; ObjOther "int 3";
   ObjOther "int 4"].

Definition eval_names (names : list (string * nat)) (node : ast)
    (heap : list pyobj) : outcome (nat * list pyobj) :=
  match field node "id" with
  | PyStr id =>
      match (list_to_map names : gmap string nat) !! id with
      | Some v => Returns (v, heap)
      | None => Raises (OtherException "NameError")
      end
  | _ => Raises (OtherException "not a name")
  end.

Definition frame_C : frame :=
  Frame (Some "__main__") (Some "m.py") "m.py" 1
    (eval_names [("expect", 0); ("f", 1); ("y", 2); ("z", 3)]).

(** A [copy] module for heaps of atoms: a module refuses to be copied, any
    other atom (a function, a number) is its own copy, and no container can
    be copied. *)
Definition copy_atoms : copy_module :=
  CopyModule
    (fun heap obj =>
       match heap !! obj with
       | Some (ObjOther descr) =>
           if String.eqb descr "module" then None else Some (heap, obj)
       | _ => None
       end)
    (fun heap obj => None).

(** A [copy] module for heaps of lists of atoms without sharing or cycles
    inside one copied list: [copy.deepcopy] refuses a module, copies any
    other atom as itself and a list item by item into a new list;
    [copy.copy] refuses everything.  [fuel] bounds the nesting of the
    lists. *)
Fixpoint deepcopy_lists (fuel : nat) (heap : list pyobj) (obj : nat)
    : option (list pyobj * nat) :=
  match fuel with
  | O => None
  | S fuel1 =>
      match heap !! obj with
      | Some (ObjOther descr) =>
          if String.eqb descr "module" then None else Some (heap, obj)
      | Some (ObjList items) =>
          (fix each (items : list nat) (heap : list pyobj) (copies : list nat)
               : option (list pyobj * nat) :=
             match items with
             | [] => Some (heap ++ [ObjList (rev copies)], length heap)
             | item :: items1 =>
                 match deepcopy_lists fuel1 heap item with
                 | Some (heap1, c) => each items1 heap1 (c :: copies)
                 | None => None
                 end
             end) items heap []
      | _ => None
      end
  end.

Definition copy_lists : copy_module :=
  CopyModule (fun heap obj => deepcopy_lists (length heap) heap obj)
    (fun heap obj => None).

(** A heap where the list at address 1 is shared: the list at address 0
    holds it, the list at address 2 that holds it too, and a module. *)
Definition heap_shared : list pyobj :=
  [ObjList [1; 2; 3]; ObjList [4]; ObjList [1]; ObjOther "module";
   ObjOther "int 1"].

(** A heap where the list at address 0 holds itself and a module. *)
Definition heap_cyclic : list pyobj :=
  [ObjList [0; 1]; ObjOther "module"].

(** A host that reads [src] for every file and parses it to [tree]. *)
Definition host_of (src : list ascii) (tree : ast) : host :=
  Host 0 true None (fun _ => Some src) (fun _ _ => Returns tree) copy_atoms.

Definition empty_world (heap : list pyobj) : world := World ∅ [] heap.

(** The frame of the caller of the call over three lines, stopped on line
    2. *)
Definition frame_multiline : frame :=
  Frame (Some "__main__") (Some "m.py") "m.py" 2
    (eval_names [("expect", 0); ("a", 2); ("b", 3)]).

(** The count [COMPLETED_PER_LINE] holds for a function name, file and
    line: zero when it holds none. *)
Definition counter_of (completed : gmap string (gmap (string * nat) nat))
    (function_name filename : string) (line : nat) : nat :=
  default 0 (completed !! function_name ≫= (.!! (filename, line))).

(** The state after [n] successive calls of [get_my_context] from the same
    frame, whatever they return or raise. *)
Fixpoint after_builds (h : host) (fr : frame) (function_or_name : target)
    (n : nat) (w : world) : world :=
  match n with
  | O => w
  | S n1 =>
      after_builds h fr function_or_name n1
        (get_my_context h (Some fr) function_or_name w).2
  end.

(** The source [expect(a,1) and expect(b,2)] of the disambiguation
    scenario, its tree, and the frame of its caller. *)
Definition src_D : list ascii := text_of "expect(a,1) and expect(b,2)".

Definition mkConstant (uid : nat) (p : position) (repr : string) : ast :=
  Node uid ast_Constant (Some p) [("value", PyStr repr); ("kind", PyNone)].

Definition call_over_a : ast :=
  mkCall 31 (on_line 1 0 11) (mkName 32 (on_line 1 0 6) "expect")
    [mkName 33 (on_line 1 7 8) "a"; mkConstant 34 (on_line 1 9 10) "1"].
Definition call_over_b : ast :=
  mkCall 35 (on_line 1 16 27) (mkName 36 (on_line 1 16 22) "expect")
    [mkName 37 (on_line 1 23 24) "b"; mkConstant 38 (on_line 1 25 26) "2"].
Definition tree_D : ast :=
  mkModule 30
    [mkExpr 39 (on_line 1 0 27)
       (Node 40 ast_BoolOp (Some (on_line 1 0 27))
          [("op", Node 1040 (ast_other "And") None []);
           ("values", PyList [call_over_a; call_over_b])])].

Definition frame_D : frame :=
  Frame (Some "__main__") (Some "m.py") "m.py" 1
    (eval_names [("expect", 0); ("a", 2); ("b", 3)]).

(** The source [expect([v for v in y], z)] and its tree.  The loop variable
    [v] is local to the comprehension: the frame of the caller does not bind
    it. *)
Definition src_comp : list ascii := text_of "expect([v for v in y], z)".

Definition listcomp_v : ast :=
  Node 43 ast_ListComp (Some (on_line 1 7 21))
    [("elt", mkName 44 (on_line 1 8 9) "v");
     ("generators",
      PyList
        [Node 45 ast_comprehension None
           [("target", mkName 46 (on_line 1 14 15) "v");
            ("iter", mkName 47 (on_line 1 19 20) "y");
            ("ifs", PyList []); ("is_async", PyNone)]])].
Definition call_comp : ast :=
  mkCall 41 (on_line 1 0 25) (mkName 42 (on_line 1 0 6) "expect")
    [listcomp_v; mkName 48 (on_line 1 23 24) "z"].
Definition tree_comp : ast := mkModule 49 [mkExpr 50 (on_line 1 0 25) call_comp].

(** The source [expect(a,1) and m.expect(b,2)]: two functions named
    [expect] are called on one line, the function [expect] of the caller, at
    address 0, and the function [expect] of the module [m], at address 4. *)
Definition src_two : list ascii := text_of "expect(a,1) and m.expect(b,2)".

Definition call_m_expect : ast :=
  mkCall 55 (on_line 1 16 29)
    (Node 56 ast_Attribute (Some (on_line 1 16 24))
       [("value", mkName 57 (on_line 1 16 17) "m"); ("attr", PyStr "expect");
        ("ctx", Node 1056 (ast_other "Load") None [])])
    [mkName 58 (on_line 1 25 26) "b"; mkConstant 59 (on_line 1 27 28) "2"].
Definition tree_two : ast :=
  mkModule 51
    [mkExpr 52 (on_line 1 0 29)
       (Node 53 ast_BoolOp (Some (on_line 1 0 29))
          [("op", Node 1053 (ast_other "And") None []);
           ("values", PyList [call_over_a; call_m_expect])])].

Definition heap_two : list pyobj :=
  heap_C ++ [ObjOther "function expect of m"].

Definition frame_two : frame :=
  Frame (Some "__main__") (Some "m.py") "m.py" 1
    (fun node heap =>
       if isinstance node is_Attribute then Returns (4, heap)
       else eval_names [("expect", 0); ("a", 2); ("b", 3)] node heap).

(** The source [expect(f(f), z)]: the function [f] is called on itself. *)
Definition src_ff : list ascii := text_of "expect(f(f), z)".

Definition callee_f : ast := mkName 64 (on_line 1 7 8) "f".
Definition argument_f : ast := mkName 65 (on_line 1 9 10) "f".
Definition call_f_f : ast := mkCall 63 (on_line 1 7 11) callee_f [argument_f].
Definition tree_ff : ast :=
  mkModule 60
    [mkExpr 67 (on_line 1 0 15)
       (mkCall 61 (on_line 1 0 15) (mkName 62 (on_line 1 0 6) "expect")
          [call_f_f; mkName 66 (on_line 1 13 14) "z"])].

(** The call [f(] / [    a +] / [    b] / [)], whose argument spans two
    lines. *)
Definition src_lines : list ascii :=
  text_of "f(" ++ [newline] ++ text_of "    a +" ++ [newline]
  ++ text_of "    b" ++ [newline] ++ text_of ")".

Definition arg_lines : ast :=
  Node 72 ast_BinOp (Some (Position 2 4 3 5))
    [("left", mkName 73 (on_line 2 4 5) "a");
     ("op", Node 1072 (ast_other "Add") None []);
     ("right", mkName 74 (on_line 3 4 5) "b")].
Definition call_lines : ast :=
  mkCall 70 (Position 1 0 4 1) (mkName 71 (on_line 1 0 1) "f") [arg_lines].

(** The attribute [f(1.5).z]. *)
Definition src_attr : list ascii := text_of "f(1.5).z".

Definition attr_node : ast :=
  Node 80 ast_Attribute (Some (on_line 1 0 8))
    [("value",
      mkCall 81 (on_line 1 0 6) (mkName 82 (on_line 1 0 1) "f")
        [mkConstant 83 (on_line 1 2 5) "1.5"]);
     ("attr", PyStr "z"); ("ctx", Node 1080 (ast_other "Load") None [])].

(** The subscript [x[1:2]], as parsers without [ast.get_source_segment]
    build it: the slice node has no position. *)
Definition src_slice : list ascii := text_of "x[1:2]".

Definition slice_node : ast :=
  Node 85 ast_Subscript (Some (on_line 1 0 6))
    [("value", mkName 86 (on_line 1 0 1) "x");
     ("slice",
      Node 87 ast_Slice None
        [("lower", mkConstant 88 (on_line 1 2 3) "1");
         ("upper", mkConstant 89 (on_line 1 4 5) "2"); ("step", PyNone)]);
     ("ctx", Node 1085 (ast_other "Load") None [])].

(** The call [f( a + b )], on one line. *)
Definition src_padded : list ascii := text_of "f( a + b )".

Definition call_padded : ast :=
  mkCall 95 (on_line 1 0 10) (mkName 96 (on_line 1 0 1) "f")
    [Node 97 ast_BinOp (Some (on_line 1 3 8))
       [("left", mkName 98 (on_line 1 3 4) "a");
        ("op", Node 1097 (ast_other "Add") None []);
        ("right", mkName 99 (on_line 1 7 8) "b")]].

(** The line [s = ..; f(x)] where the string holds two letters [e] with an
    acute accent (code 233), each of two bytes: the call starts at
    character 10 and at byte 12 of the line, and the parser gives the byte
    offsets. *)
Definition src_accent : list ascii :=
  text_of "s = " ++ [dquote; "233"%char; "233"%char; dquote]
  ++ text_of "; f(x)".

Definition name_x_accent : ast := mkName 222 (on_line 1 14 15) "x".
Definition call_accent : ast :=
  mkCall 220 (on_line 1 12 16) (mkName 221 (on_line 1 12 13) "f")
    [name_x_accent].

(** The call [expect(expect(] / [    u, 1), v + w)]: a call of [expect]
    whose first argument is a call of [expect], both opened on line 1 with
    their arguments on line 2, and the frame of its caller, stopped on
    line 2. *)
Definition src_nested : list ascii :=
  text_of "expect(expect(" ++ [newline] ++ text_of "    u, 1), v + w)".

Definition name_u : ast := mkName 203 (on_line 2 4 5) "u".
Definition call_inner : ast :=
  mkCall 202 (Position 1 7 2 9) (mkName 204 (on_line 1 7 13) "expect")
    [name_u; mkConstant 205 (on_line 2 7 8) "1"].
Definition binop_v_w : ast :=
  Node 206 ast_BinOp (Some (on_line 2 11 16))
    [("left", mkName 207 (on_line 2 11 12) "v");
     ("op", Node 1206 (ast_other "Add") None []);
     ("right", mkName 208 (on_line 2 15 16) "w")].
Definition call_outer : ast :=
  mkCall 201 (Position 1 0 2 17) (mkName 209 (on_line 1 0 6) "expect")
    [call_inner; binop_v_w].
Definition tree_nested : ast :=
  mkModule 200 [mkExpr 210 (Position 1 0 2 17) call_outer].

Definition frame_nested : frame :=
  Frame (Some "__main__") (Some "m.py") "m.py" 2
    (eval_names [("expect", 0); ("u", 2); ("v", 2); ("w", 3)]).

(** A host whose files cannot be read. *)
Definition host_unreadable (detail_level : Z) : host :=
  Host detail_level true None (fun _ => None)
    (fun _ _ => Raises SyntaxError) copy_atoms.

(** The file name [get_my_context] works with: the [__file__] global of the
    frame, or the file name of its code object. *)
Definition frame_file (fr : frame) : string :=
  default (co_filename fr) (f_globals_file fr).

(** [first_reference h src nodes key node]: among [nodes], in order, [node]
    is the first name, attribute or subscript whose source text is [key]. *)
Definition first_reference (h : host) (src : list ascii) (nodes : list ast)
    (key : option (list ascii)) (node : ast) : Prop :=
  exists before after,
    nodes = before ++ node :: after
    /\ isinstance node is_reference = true
    /\ get_ref_src (has_get_source_segment h) src node = Returns key
    /\ forall x, x ∈ before -> isinstance x is_reference = true ->
         get_ref_src (has_get_source_segment h) src x <> Returns key.

(** The characters [find_identifier_end] runs over. *)
Definition is_identifier_char (ch : ascii) : bool :=
  isalpha ch || isdigit ch || Ascii.eqb ch "_".

(** [quiet m]: the computation [m] leaves [COMPLETED_PER_LINE] and
    [sys.stderr] as they are. *)
Definition quiet {A : Type} (m : M A) : Prop :=
  forall w o w', m w = (o, w') ->
    COMPLETED_PER_LINE w' = COMPLETED_PER_LINE w /\ stderr w' = stderr w.

(** ** Quoted-string spans

    What a quoted string is, stated on the text alone.  After an opening
    quote [q], [closes1 q l k] says that the first [k] characters of [l] are
    the body of the string and its closing quote: the body is made of escape
    pairs (a backslash and the character after it) and of characters other
    than [q] and the backslash.  [closes3] is the same for a string opened
    by three [q]: it ends at the first place outside an escape pair where
    three [q] stand. *)
Inductive closes1 (q : ascii) : list ascii -> nat -> Prop :=
| closes1_quote l :
    closes1 q (q :: l) 1
| closes1_escape c l k :
    closes1 q l k -> closes1 q (backslash :: c :: l) (2 + k)
| closes1_char c l k :
    c <> q -> c <> backslash -> closes1 q l k -> closes1 q (c :: l) (1 + k).

Inductive closes3 (q : ascii) : list ascii -> nat -> Prop :=
| closes3_quote l :
    closes3 q (q :: q :: q :: l) 3
| closes3_escape c l k :
    closes3 q l k -> closes3 q (backslash :: c :: l) (2 + k)
| closes3_char c l k :
    c <> backslash -> (forall l', c :: l <> q :: q :: q :: l') ->
    closes3 q l k -> closes3 q (c :: l) (1 + k).

(** [lexed n l pairs spans]: the text [l], whose first character has index
    [n], is a sequence of characters that are not quotes, listed with their
    indices in [pairs], and of quoted strings, whose extents [(a, b)] (from
    index [a] up to, not including, index [b]) are listed in [spans].  A
    string opens with three quotes when three stand there, with one
    otherwise; a string that never closes extends to the end of the text. *)
Inductive lexed : nat -> list ascii -> list (nat * ascii) ->
    list (nat * nat) -> Prop :=
| lexed_end n :
    lexed n [] [] []
| lexed_plain n c l pairs spans :
    is_quote_char c = false ->
    lexed (n + 1) l pairs spans ->
    lexed n (c :: l) ((n, c) :: pairs) spans
| lexed_triple n q l k pairs spans :
    is_quote_char q = true ->
    closes3 q l k ->
    lexed (n + 3 + k) (drop k l) pairs spans ->
    lexed n (q :: q :: q :: l) pairs ((n, n + 3 + k) :: spans)
| lexed_triple_open n q l :
    is_quote_char q = true ->
    (forall k, ~ closes3 q l k) ->
    lexed n (q :: q :: q :: l) [] [(n, n + 3 + length l)]
| lexed_single n q l k pairs spans :
    is_quote_char q = true ->
    triple_here q l = false ->
    closes1 q l k ->
    lexed (n + 1 + k) (drop k l) pairs spans ->
    lexed n (q :: l) pairs ((n, n + 1 + k) :: spans)
| lexed_single_open n q l :
    is_quote_char q = true ->
    triple_here q l = false ->
    (forall k, ~ closes1 q l k) ->
    lexed n (q :: l) [] [(n, n + 1 + length l)].

(** [in_spans spans j]: index [j] lies inside one of the spans. *)
Definition in_spans (spans : list (nat * nat)) (j : nat) : Prop :=
  exists a b, (a, b) ∈ spans /\ a <= j < b.

(** ** Matching delimiters

    [depth_change open_delim close_delim cs]: how much deeper the nesting is
    after the characters [cs] than before them. *)
Fixpoint depth_change (open_delim close_delim : ascii) (cs : list ascii)
    : Z :=
  match cs with
  | [] => 0
  | c :: cs1 =>
      ((if Ascii.eqb c open_delim then 1
        else if Ascii.eqb c close_delim then -1
        else 0)
       + depth_change open_delim close_delim cs1)%Z
  end.

(** [closes_at code start open_delim close_delim k]: index [k] holds the
    closing delimiter that matches an opening delimiter at index [start].
    Among the characters outside quoted strings after [start], the one at
    [k] is a closing delimiter, the ones before it are balanced, and none of
    their closing delimiters is unmatched. *)
Definition closes_at (code : list ascii) (start : nat)
    (open_delim close_delim : ascii) (k : nat) : Prop :=
  exists pre post,
    unquoted_enumerate code (start + 1) = pre ++ (k, close_delim) :: post
    /\ depth_change open_delim close_delim pre.*2 = 0%Z
    /\ forall p, p `prefix_of` pre.*2 ->
         (0 <= depth_change open_delim close_delim p)%Z.

(** [outside_quotes text]: the characters of [text] outside its quoted
    strings, in order. *)
Definition outside_quotes (text : list ascii) : list ascii :=
  (unquoted_enumerate text 0).*2.

(** [balanced_snippet open_delim close_delim snippet]: outside quoted
    strings the delimiters of the snippet are balanced, and no closing
    delimiter before its end is unmatched: the depth is back to zero at the
    end of the snippet and not before. *)
Definition balanced_snippet (open_delim close_delim : ascii)
    (snippet : list ascii) : Prop :=
  depth_change open_delim close_delim (outside_quotes snippet) = 0%Z
  /\ forall p, p `prefix_of` outside_quotes snippet ->
       p <> [] -> p <> outside_quotes snippet ->
       (0 < depth_change open_delim close_delim p)%Z.

(** One iteration of the loop of [unquoted_enumerate], case by case: the
    state and text on entry, and what the loop yields from there. *)
Inductive loop_view : option quote_mark -> nat -> list ascii ->
    list (nat * ascii) -> Prop :=
| view_end quote n :
    loop_view quote n [] []
| view_escape_end q n :
    loop_view (Some q) n [backslash] []
| view_escape q n c l :
    loop_view (Some q) n (backslash :: c :: l)
      (unquoted_loop (Some q) (n + 2) l)
| view_close_single c n l :
    is_quote_char c = true ->
    loop_view (Some (Single c)) n (c :: l) (unquoted_loop None (n + 1) l)
| view_close_triple c n l :
    is_quote_char c = true ->
    loop_view (Some (Triple c)) n (c :: c :: c :: l)
      (unquoted_loop None (n + 3) l)
| view_skip_triple q c n l :
    is_quote_char c = true -> q <> Single c -> q <> Triple c ->
    loop_view (Some q) n (c :: c :: c :: l)
      (unquoted_loop (Some q) (n + 3) l)
| view_open_triple c n l :
    is_quote_char c = true ->
    loop_view None n (c :: c :: c :: l)
      (unquoted_loop (Some (Triple c)) (n + 3) l)
| view_open_single c n l :
    is_quote_char c = true -> triple_here c l = false ->
    loop_view None n (c :: l) (unquoted_loop (Some (Single c)) (n + 1) l)
| view_skip_quote q c n l :
    is_quote_char c = true -> q <> Single c -> triple_here c l = false ->
    loop_view (Some q) n (c :: l) (unquoted_loop (Some q) (n + 1) l)
| view_skip_char q c n l :
    is_quote_char c = false -> c <> backslash ->
    loop_view (Some q) n (c :: l) (unquoted_loop (Some q) (n + 1) l)
| view_yield c n l :
    is_quote_char c = false ->
    loop_view None n (c :: l) ((n, c) :: unquoted_loop None (n + 1) l).

Local Close Scope string_scope.


(** ** Message handling *)

(** [string[:stop]]: a negative [stop] counts from the end of the string. *)
Definition slice_to (string : list ascii) (stop : Z) : list ascii :=
  if (stop <? 0)%Z then take (length string - Z.to_nat (- stop)) string
  else take (Z.to_nat stop) string.

(** [ellipsis(string, maxlen)]. *)
Definition ellipsis (string : list ascii) (maxlen : Z) : list ascii :=
  if (Z.of_nat (length string) >? maxlen)%Z
  then slice_to string (maxlen - 3) ++ text_of "..."
  else string.

(** [sep.join(parts)]. *)
Definition str_join (sep : list ascii) (parts : list (list ascii))
    : list ascii :=
  match parts with
  | [] => []
  | p :: parts1 => p ++ flat_map (fun q => sep ++ q) parts1
  end.

(** [indent(msg, level)]; [' ' * level] is empty for a negative [level]. *)
Definition indent (msg : list ascii) (level : Z) : list ascii :=
  let indent := repeat " " (Z.to_nat level) in
  indent ++ str_join (newline :: indent) (splitlines msg).

(** [limited_repr(string)]: the [for] loop tries [n] lines, from
    [min(5, len(lines))] down to one; [None] is the loop ending without
    [break]. *)
Fixpoint limited_repr_loop (lines : list (list ascii)) (n : nat)
    : option (list ascii) :=
  match n with
  | O => None
  | S n1 =>
      let head := str_join [newline] (take n lines) in
      let head :=
        if (n <? length lines)%nat then head ++ newline :: text_of "..."
        else head in
      if (length head <? 240)%nat then Some head
      else limited_repr_loop lines n1
  end.

Definition limited_repr (string : list ascii) : list ascii :=
  let lines := splitlines string in
  if (length string <? 240)%nat && (length lines <? 5)%nat then string
  else
    let head :=
      match limited_repr_loop lines (5 `min` length lines) with
      | Some head => head
      | None => take 240 string ++ text_of "..."
      end in
    if (length head <? 12)%nat then take 240 string ++ text_of "..."
    else head.

(** [str.rstrip()]. *)
Definition rstrip (s : list ascii) : list ascii := rev (lstrip (rev s)).

(** [st.endswith('\n')]. *)
Definition endswith_newline (st : list ascii) : bool :=
  match last st with
  | Some c => Ascii.eqb c newline
  | None => false
  end.

(** [re.sub('[ \t]*([\r\n])', r'\1', st)]: every run of blanks and tabs that
    a carriage return or a line feed follows is removed.  [pending] holds,
    last first, the run of blanks and tabs just read. *)
Fixpoint sub_blanks_before_break (pending here : list ascii) : list ascii :=
  match here with
  | [] => rev pending
  | c :: here1 =>
      if is_blank c then sub_blanks_before_break (c :: pending) here1
      else if Ascii.eqb c carriage_return || Ascii.eqb c newline
      then c :: sub_blanks_before_break [] here1
      else rev pending ++ c :: sub_blanks_before_break [] here1
  end.

(** [trimWhitespace(st, requireNewline)]. *)
Definition trimWhitespace (st : list ascii) (requireNewline : bool)
    : list ascii :=
  if requireNewline then sub_blanks_before_break [] st
  else
    let result := str_join [newline] (map rstrip (splitlines st)) in
    if endswith_newline st then result ++ [newline] else result.

(** ** What the scanner helpers and the message functions are to do *)

(** A period that stands for an attribute access: neither the character
    before it nor the one after it is a period. *)
Definition is_attribute_period (code : list ascii) (p : nat * ascii) : bool :=
  Ascii.eqb p.2 "."
  && negb ((match p.1 with
            | O => false
            | S j => char_at_is code j "."
            end) || char_at_is code (p.1 + 1) ".").

Definition attribute_periods (code : list ascii) (start_index : nat)
    : list (nat * ascii) :=
  filter (fun p => is_attribute_period code p = true)
    (unquoted_enumerate code start_index).

(** Well-bracketed texts.  [nested w]: in [w] every opening bracket is
    closed by the bracket of its kind and every closing bracket closes one.
    [comma_free w]: moreover no comma of [w] stands outside brackets. *)
Inductive nested : list ascii -> Prop :=
| nested_nil : nested []
| nested_char c w :
    delims c = None -> closing c = false -> nested w -> nested (c :: w)
| nested_group o c w1 w2 :
    delims o = Some c -> nested w1 -> nested w2 ->
    nested (o :: w1 ++ c :: w2).

Inductive comma_free : list ascii -> Prop :=
| comma_free_nil : comma_free []
| comma_free_char c w :
    delims c = None -> closing c = false -> c <> "," -> comma_free w ->
    comma_free (c :: w)
| comma_free_group o c w1 w2 :
    delims o = Some c -> nested w1 -> comma_free w2 ->
    comma_free (o :: w1 ++ c :: w2).

(** [first_unbracketed_comma code start k]: index [k] holds a comma outside
    quoted strings, and the characters outside quoted strings from [start]
    up to it are well bracketed, with no comma outside brackets. *)
Definition first_unbracketed_comma (code : list ascii) (start k : nat)
    : Prop :=
  exists pre post,
    unquoted_enumerate code start = pre ++ (k, ",") :: post
    /\ comma_free pre.*2.

(** [closes_stack seeking w]: the text [w] closes, in order, the brackets
    that [seeking] (last element first) is waiting for, and is well
    bracketed otherwise, with no comma outside brackets after the last of
    them is closed. *)
Fixpoint closes_stack (seeking : list ascii) (w : list ascii) : Prop :=
  match seeking with
  | [] => comma_free w
  | top :: seeking1 =>
      exists w1 w2,
        w = w1 ++ top :: w2 /\ nested w1 /\ closes_stack seeking1 w2
  end.

(** A text with line breaks of one character: no carriage return is
    followed by a line feed. *)
Definition single_breaks (src : list ascii) : Prop :=
  forall a b, src <> a ++ carriage_return :: newline :: b.

(** A line holds no line break. *)
Definition break_free (l : list ascii) : Prop :=
  Forall (fun c => is_line_break c = false) l.

(** The lines [splitlines] gives back for lines joined by line feeds: the
    same lines, without the last one when it is empty. *)
Fixpoint without_last_empty (lines : list (list ascii))
    : list (list ascii) :=
  match lines with
  | [] => []
  | [l] => match l with [] => [] | _ => [l] end
  | l :: lines1 => l :: without_last_empty lines1
  end.

(** A line without trailing whitespace. *)
Definition no_trailing_space (l : list ascii) : Prop := rstrip l = l.

(** A blank or a tab stands directly before a carriage return or a line
    feed somewhere in the text. *)
Fixpoint blank_before_break (t : list ascii) : bool :=
  match t with
  | b :: t1 =>
      match t1 with
      | c :: _ =>
          (is_blank b
           && (Ascii.eqb c carriage_return || Ascii.eqb c newline))
          || blank_before_break t1
      | [] => false
      end
  | [] => false
  end.

(** ** Output capture *)

(** A stream is known by its address in the list of the streams that exist.
    [Terminal shown] is a stream of the host, such as the console, with
    what has been written to it; [Capturing original_stdout tee buffer] is
    a [CapturingStream], made with no argument, with its two attributes and
    the text of the [io.StringIO] underneath. *)
Inductive stream : Type :=
| Terminal (shown : list ascii)
| Capturing (original_stdout : option nat) (tee : bool)
    (buffer : list ascii).

(** [sys.stdin] and [builtins.input]: an object of the host, the
    [io.StringIO] that [_run] puts in its place, or the function
    [echoing_input] that [_run] defines around the function it found. *)
Inductive stdin_object : Type :=
| HostStdin (id : nat)
| FakeInput (contents : list ascii).

Inductive input_function : Type :=
| HostInput (id : nat)
| echoing_input (original_input : input_function).

(** What the module replaces while a test runs: [sys.stdout] ([None] or the
    address of a stream), [sys.stdin], [builtins.input], and the streams. *)
Record runtime : Type := Runtime {
  sys_stdout : option nat;
  sys_stdin : stdin_object;
  builtins_input : input_function;
  streams : list stream
}.

Definition set_stdout (out : option nat) (rt : runtime) : runtime :=
  Runtime out (sys_stdin rt) (builtins_input rt) (streams rt).

Definition set_stdin (i : stdin_object) (rt : runtime) : runtime :=
  Runtime (sys_stdout rt) i (builtins_input rt) (streams rt).

Definition set_input (f : input_function) (rt : runtime) : runtime :=
  Runtime (sys_stdout rt) (sys_stdin rt) f (streams rt).

Definition set_streams (ss : list stream) (rt : runtime) : runtime :=
  Runtime (sys_stdout rt) (sys_stdin rt) (builtins_input rt) ss.

(** [CapturingStream()]: the address of the new stream. *)
Definition CapturingStream (rt : runtime) : nat * runtime :=
  (length (streams rt),
   set_streams (streams rt ++ [Capturing None false []]) rt).

(** [self.echo(doit)]. *)
Definition echo (self : nat) (doit : bool) (rt : runtime) : outcome runtime :=
  match streams rt !! self with
  | Some (Capturing original _ buffer) =>
      Returns
        (set_streams (<[self := Capturing original doit buffer]> (streams rt))
           rt)
  | _ => Raises AttributeError
  end.

(** [self.install()]. *)
Definition install (self : nat) (rt : runtime) : outcome runtime :=
  match streams rt !! self with
  | Some (Capturing _ tee buffer) =>
      Returns
        (set_stdout (Some self)
           (set_streams
              (<[self := Capturing (sys_stdout rt) tee buffer]> (streams rt))
              rt))
  | _ => Raises AttributeError
  end.

(** [self.uninstall()]. *)
Definition uninstall (self : nat) (rt : runtime) : outcome runtime :=
  match streams rt !! self with
  | Some (Capturing (Some original) _ _) =>
      Returns (set_stdout (Some original) rt)
  | Some (Capturing None _ _) => Returns rt
  | _ => Raises AttributeError
  end.

(** [self.reset()] and [self.getvalue()]. *)
Definition reset (self : nat) (rt : runtime) : outcome runtime :=
  match streams rt !! self with
  | Some (Capturing original tee _) =>
      Returns
        (set_streams (<[self := Capturing original tee []]> (streams rt)) rt)
  | _ => Raises AttributeError
  end.

Definition getvalue (self : nat) (rt : runtime) : outcome (list ascii) :=
  match streams rt !! self with
  | Some (Capturing _ _ buffer) => Returns buffer
  | _ => Raises AttributeError
  end.

(** [stream.write(stuff)] for the stream at [self]: a [CapturingStream]
    first passes [stuff] on to [original_stdout] when [tee] is set, then
    writes it to its own buffer.  [fuel] bounds the chain of streams that
    pass the text on. *)
Fixpoint write (fuel : nat) (self : nat) (stuff : list ascii)
    (ss : list stream) : outcome (list stream) :=
  match fuel with
  | O => OutOfFuel
  | S fuel1 =>
      match ss !! self with
      | Some (Terminal shown) =>
          Returns (<[self := Terminal (shown ++ stuff)]> ss)
      | Some (Capturing original tee _) =>
          ss ←
            (if tee then
               match original with
               | Some out => write fuel1 out stuff ss
               | None => Returns ss
               end
             else Returns ss);
          match ss !! self with
          | Some (Capturing original tee buffer) =>
              Returns (<[self := Capturing original tee (buffer ++ stuff)]> ss)
          | _ => Raises AttributeError
          end
      | None => Raises AttributeError
      end
  end.

(** [self.writelines(lines)]. *)
Fixpoint writelines (fuel : nat) (self : nat) (lines : list (list ascii))
    (ss : list stream) : outcome (list stream) :=
  match lines with
  | [] => Returns ss
  | line :: lines1 =>
      ss ← write fuel self line ss;
      writelines fuel self lines1 ss
  end.

(** ** Running a test case *)

(** What a payload returns: [None], the class [NoResult], or another
    object, known by its address. *)
Inductive pyvalue : Type :=
| ValNone
| NoResult
| Val (addr : nat).

(** How a payload ends: it returns, raises an [Exception], or raises
    something that is not an [Exception] ([KeyboardInterrupt],
    [SystemExit]). *)
Inductive payload_outcome : Type :=
| Returned (value : pyvalue)
| RaisedException (e : exn)
| RaisedOther (what : string).

(** The dictionary [self.results]; [result] is [None] when the dictionary
    has no [result] key, and [skipped] tells whether it has the [skipped]
    key. *)
Record results : Type := Results {
  output : option (list ascii);
  error : option exn;
  traceback : option (list ascii);
  result : option pyvalue;
  skipped : bool
}.

(** [self._run(payload)], for a test case whose [echo] and [inputs]
    attributes are [self_echo] and [self_inputs]: the dictionary it stores
    in [self.results] and returns.  [format_exc] is
    [traceback.format_exc()] for the exception caught. *)
Definition _run (format_exc : exn -> list ascii) (SHOW_OUTPUT : bool)
    (self_echo : option bool) (self_inputs : option (list (list ascii)))
    (payload : runtime -> payload_outcome * runtime) (rt : runtime)
    : outcome results * runtime :=
  let original_input := builtins_input rt in
  let rt := set_input (echoing_input original_input) rt in
  let '(outputCapture, rt) := CapturingStream rt in
  match
    rt ← install outputCapture rt;
    if default SHOW_OUTPUT self_echo
    then echo outputCapture true rt
    else Returns rt
  with
  | Returns rt =>
      let original_stdin := sys_stdin rt in
      let rt :=
        match self_inputs with
        | Some inputs => set_stdin (FakeInput (str_join [newline] inputs)) rt
        | None => rt
        end in
      (* try *)
      let '(ended, rt) := payload rt in
      (* finally *)
      match uninstall outputCapture rt with
      | Returns rt =>
          let rt := set_input original_input rt in
          let rt :=
            match self_inputs with
            | Some _ => set_stdin original_stdin rt
            | None => rt
            end in
          match ended with
          | RaisedOther what => (Raises (OtherException what), rt)
          | Returned value =>
              match getvalue outputCapture rt with
              | Returns out =>
                  (Returns
                     (Results (Some out) None None
                        match value with
                        | NoResult => None
                        | _ => Some value
                        end
                        false),
                   rt)
              | Raises e => (Raises e, rt)
              | OutOfFuel => (OutOfFuel, rt)
              end
          | RaisedException e =>
              match getvalue outputCapture rt with
              | Returns out =>
                  (Returns
                     (Results (Some out) (Some e) (Some (format_exc e)) None
                        false),
                   rt)
              | Raises e => (Raises e, rt)
              | OutOfFuel => (OutOfFuel, rt)
              end
          end
      | Raises e => (Raises e, rt)
      | OutOfFuel => (OutOfFuel, rt)
      end
  | Raises e => (Raises e, rt)
  | OutOfFuel => (OutOfFuel, rt)
  end.

(** The payloads of [FileCase.run] and [BlockCase.run] execute the target
    and return nothing, that is [None]; the payload of [FunctionCase.run]
    returns what the target returns.  [execute] is what running the target
    does. *)
Definition returning_None (execute : runtime -> payload_outcome * runtime)
    (rt : runtime) : payload_outcome * runtime :=
  let '(ended, rt) := execute rt in
  (match ended with
   | Returned _ => Returned ValNone
   | _ => ended
   end, rt).

Definition FileCase_run (format_exc : exn -> list ascii) (SHOW_OUTPUT : bool)
    (self_echo : option bool) (self_inputs : option (list (list ascii)))
    (exec_file : runtime -> payload_outcome * runtime) (rt : runtime)
    : outcome results * runtime :=
  _run format_exc SHOW_OUTPUT self_echo self_inputs
    (returning_None exec_file) rt.

Definition BlockCase_run (format_exc : exn -> list ascii) (SHOW_OUTPUT : bool)
    (self_echo : option bool) (self_inputs : option (list (list ascii)))
    (exec_block : runtime -> payload_outcome * runtime) (rt : runtime)
    : outcome results * runtime :=
  _run format_exc SHOW_OUTPUT self_echo self_inputs
    (returning_None exec_block) rt.

Definition FunctionCase_run (format_exc : exn -> list ascii)
    (SHOW_OUTPUT : bool) (self_echo : option bool)
    (self_inputs : option (list (list ascii)))
    (call_target : runtime -> payload_outcome * runtime) (rt : runtime)
    : outcome results * runtime :=
  _run format_exc SHOW_OUTPUT self_echo self_inputs call_target rt.

(** [SkipCase.run]. *)
Definition SkipCase_run : results := Results None None None None true.

(** A payload that leaves every [CapturingStream] in place, with the
    stream it remembers as the original one. *)
Definition keeps_captures (payload : runtime -> payload_outcome * runtime)
    : Prop :=
  forall rt ended rt' a original tee buffer,
    payload rt = (ended, rt') ->
    streams rt !! a = Some (Capturing original tee buffer) ->
    exists tee' buffer',
      streams rt' !! a = Some (Capturing original tee' buffer').

(** ** Locations and tags *)

(** [get_external_calling_frame()]: [stack] is the stack from
    [inspect.currentframe()] outwards, each frame followed by its [f_back];
    [myname] is the [__name__] of the module.  After the outermost frame
    [cf] is [None], which has no [f_back]: the loop ends and [None] is
    returned. *)
Fixpoint get_external_calling_frame (myname : string) (stack : list frame)
    : option frame :=
  match stack with
  | [] => None
  | cf :: back =>
      if bool_decide (f_globals_name cf = Some myname)
      then get_external_calling_frame myname back
      else Some cf
  end.

(** [get_filename(stack_frame, speculate_filename)]. *)
Definition get_filename_with (stack_frame : frame)
    (speculate_filename : bool) : option string :=
  match f_globals_file stack_frame with
  | Some filename => Some filename
  | None =>
      if speculate_filename then Some (co_filename stack_frame) else None
  end.

(** The dictionary with the [file] and [line] keys. *)
Record location : Type := Location {
  location_file : option string;
  location_line : nat
}.

(** [get_my_location(speculate_filename)]: reading [f_globals] of [None]
    raises [AttributeError]. *)
Definition get_my_location (myname : string) (stack : list frame)
    (speculate_filename : bool) : outcome location :=
  match get_external_calling_frame myname stack with
  | Some fr =>
      Returns
        (Location (get_filename_with fr speculate_filename)
           (get_code_line fr))
  | None => Raises AttributeError
  end.

(** The digits of a number, as [str] writes an [int]. *)
Definition decimal (n : nat) : string :=
  NilZero.string_of_uint (Nat.to_uint n).

Local Open Scope string_scope.

(** [tag_for(located)], for a dictionary that has the [file] and [line]
    slots; [basename] is [os.path.basename], which refuses [None]. *)
Definition tag_for (detail_level : Z) (basename : string -> string)
    (located : location) : outcome string :=
  filename ←
    (if (detail_level <? 2)%Z then
       match location_file located with
       | Some filename => Returns (basename filename)
       | None => Raises TypeError
       end
     else Returns (default "None" (location_file located)));
  Returns (filename ++ ":" ++ decimal (location_line located)).

Local Close Scope string_scope.

(** ** Test suites, test cases and their managers *)

(** A dictionary with string keys, in insertion order. *)
Fixpoint dict_get {V : Type} (d : list (string * V)) (key : string)
    : option V :=
  match d with
  | [] => None
  | (k, v) :: d1 => if String.eqb k key then Some v else dict_get d1 key
  end.

Fixpoint dict_set {V : Type} (d : list (string * V)) (key : string) (v : V)
    : list (string * V) :=
  match d with
  | [] => [(key, v)]
  | (k, v0) :: d1 =>
      if String.eqb k key then (k, v) :: d1 else (k, v0) :: dict_set d1 key v
  end.

(** A test manager: its [target] (an object of the host) and its
    [any_failed] flag. *)
Record test_manager : Type := TestManager {
  manager_target : nat;
  manager_any_failed : bool
}.

(** A test case, with the attributes [TestCase.__init__] gives it.  An
    outcome is a triple of the status, the tag and the message of a
    check. *)
Record test_case : Type := TestCase {
  manager : nat;
  inputs : option (list (list ascii));
  case_echo : option bool;
  case_results : option results;
  case_location : location;
  tag : string;
  outcomes : list (bool * string * list ascii);
  any_failed : bool
}.

(** The globals [ALL_CASES], [_CURRENT_SUITE_NAME] and [SKIP_ON_FAILURE]
    (a string or [None]), and the test cases and managers that exist, each
    known by its address. *)
Record suites : Type := Suites {
  ALL_CASES : list (string * list nat);
  _CURRENT_SUITE_NAME : string;
  SKIP_ON_FAILURE : option string;
  cases : list test_case;
  managers : list test_manager
}.

(** An argument that should be a string. *)
Inductive argument : Type :=
| Str (s : string)
| NotStr (addr : nat).

Definition currentTestSuite (st : suites) : string := _CURRENT_SUITE_NAME st.

Definition startTestSuite (name : argument) (st : suites) : outcome suites :=
  match name with
  | Str name =>
      Returns
        (Suites (ALL_CASES st) name (SKIP_ON_FAILURE st) (cases st)
           (managers st))
  | NotStr _ => Raises TypeError
  end.

Definition resetTestSuite (suiteName : option string) (st : suites)
    : suites :=
  let suiteName := default (currentTestSuite st) suiteName in
  Suites (dict_set (ALL_CASES st) suiteName []) (_CURRENT_SUITE_NAME st)
    (SKIP_ON_FAILURE st) (cases st) (managers st).

Definition deleteAllTestSuites (st : suites) : suites :=
  Suites [] "default"%string (SKIP_ON_FAILURE st) (cases st) (managers st).

Definition listCasesInSuite (suiteName : option string) (st : suites)
    : outcome (list nat) :=
  let suiteName := default (currentTestSuite st) suiteName in
  match dict_get (ALL_CASES st) suiteName with
  | Some in_suite => Returns in_suite
  | None => Raises ValueError
  end.

Definition listAllCases (st : suites) : list nat :=
  flat_map snd (ALL_CASES st).

Definition skipChecksAfterFail (mode : option string) (st : suites)
    : suites :=
  Suites (ALL_CASES st) (_CURRENT_SUITE_NAME st) mode (cases st)
    (managers st).

(** [TestCase.__init__(self, manager)]: the address of the new test case
    and the state with the case registered in the current suite.  The
    caller is found on [stack]. *)
Definition TestCase__init__ (myname : string) (detail_level : Z)
    (basename : string -> string) (stack : list frame) (manager : nat)
    (st : suites) : outcome (nat * suites) :=
  location ← get_my_location myname stack true;
  tag ← tag_for detail_level basename location;
  let self := length (cases st) in
  let case := TestCase manager None None None location tag [] false in
  let in_suite :=
    default [] (dict_get (ALL_CASES st) (_CURRENT_SUITE_NAME st)) in
  Returns
    (self,
     Suites
       (dict_set (ALL_CASES st) (_CURRENT_SUITE_NAME st) (in_suite ++ [self]))
       (_CURRENT_SUITE_NAME st) (SKIP_ON_FAILURE st) (cases st ++ [case])
       (managers st)).

(** [self._should_skip()]. *)
Definition _should_skip (self : nat) (st : suites) : outcome bool :=
  match cases st !! self with
  | Some case =>
      if bool_decide (SKIP_ON_FAILURE st = Some "case"%string) && any_failed case
      then Returns true
      else if bool_decide (SKIP_ON_FAILURE st = Some "manager"%string) then
        match managers st !! manager case with
        | Some m => Returns (manager_any_failed m)
        | None => Raises AttributeError
        end
      else Returns false
  | None => Raises AttributeError
  end.

(** [self._register_outcome(passed, tag, message)]; the method has no
    [return] statement, so what it returns is [None]. *)
Definition _register_outcome (self : nat) (passed : bool) (tag_ : string)
    (message : list ascii) (st : suites) : outcome suites :=
  match cases st !! self with
  | Some case =>
      let case :=
        TestCase (manager case) (inputs case) (case_echo case)
          (case_results case) (case_location case) (tag case)
          (outcomes case ++ [(passed, tag_, message)]) (any_failed case) in
      let st :=
        Suites (ALL_CASES st) (_CURRENT_SUITE_NAME st) (SKIP_ON_FAILURE st)
          (<[self := case]> (cases st)) (managers st) in
      if passed then Returns st
      else
        let case :=
          TestCase (manager case) (inputs case) (case_echo case)
            (case_results case) (case_location case) (tag case)
            (outcomes case) true in
        match managers st !! manager case with
        | Some m =>
            Returns
              (Suites (ALL_CASES st) (_CURRENT_SUITE_NAME st)
                 (SKIP_ON_FAILURE st) (<[self := case]> (cases st))
                 (<[manager case := TestManager (manager_target m) true]>
                    (managers st)))
        | None => Raises AttributeError
        end
  | None => Raises AttributeError
  end.

(** A line that [showSummary] prints. *)
Inductive summary_line : Type :=
| Dashes
| No_expectations_were_established
| All_expectations_were_met (met : nat)
| None_of_the_expectations_were_met (unmet : nat)
| Expectations_were_NOT_met (unmet total : nat)
| Bright_red
| Unmet_tag (tag_ : string)
| Reset_color.

(** The [met] and [unmet] lists of [showSummary]. *)
Definition tags_with (status : bool) (st : suites) (in_suite : list nat)
    : list string :=
  flat_map
    (fun case_id =>
       match cases st !! case_id with
       | Some case =>
           omap (fun o : bool * string * list ascii =>
                   if Bool.eqb o.1.1 status then Some o.1.2 else None)
             (outcomes case)
       | None => []
       end)
    in_suite.

(** [showSummary(suiteName)]: the lines it prints. *)
Definition showSummary (colors : bool) (suiteName : option string)
    (st : suites) : outcome (list summary_line) :=
  let suiteName := default (currentTestSuite st) suiteName in
  match dict_get (ALL_CASES st) suiteName with
  | None => Raises ValueError
  | Some in_suite =>
      let met := tags_with true st in_suite in
      let unmet := tags_with false st in_suite in
      Returns
        ([Dashes]
         ++ (if (length unmet =? 0)%nat then
               if (length met =? 0)%nat
               then [No_expectations_were_established]
               else [All_expectations_were_met (length met)]
             else
               (if (length met =? 0)%nat
                then [None_of_the_expectations_were_met (length unmet)]
                else [Expectations_were_NOT_met (length unmet)
                        (length met + length unmet)])
               ++ (if colors then [Bright_red] else [])
               ++ map Unmet_tag unmet
               ++ (if colors then [Reset_color] else []))
         ++ [Dashes])
  end.

(** ** Tracing *)

(** The tag of a trace line: ["{line}"] or ["{file}:{line}"]. *)
Inductive trace_tag : Type :=
| Line_only (line : nat)
| File_and_line (file : string) (line : nat).

(** A line that [trace] prints to [sys.stderr]: the tag, the source of the
    expression and the abbreviated value; or the full value. *)
Inductive trace_line : Type :=
| Traced (tag : trace_tag) (expr_src : list ascii) (short : list ascii)
| Full_result_is (rep : list ascii).

(** [trace(expr)]: the value returned, with the lines printed after those
    of [get_my_context].  [trace_function] is the function object [trace],
    [caller] what [get_external_calling_frame()] returns, and [rep] what
    [repr(expr)] does. *)
Definition trace (h : host) (caller : option frame) (trace_function : nat)
    (expr : nat) (rep : outcome (list ascii)) : M (nat * list trace_line) :=
  ctx ← get_my_context h caller (ByFunction trace_function "trace");
  rep ← lift rep;
  let short := ellipsis rep 40 in
  match ctx with
  | LocationOnly _ _ =>
      (* ctx['expr_src'] *)
      lift (Raises (OtherException "KeyError"))
  | FullContext file line _ _ expr_src _ _ =>
      let tag :=
        if (DETAIL_LEVEL h >=? 1)%Z then File_and_line file line
        else Line_only line in
      mret
        (expr,
         Traced tag expr_src short
         :: if (DETAIL_LEVEL h >=? 1)%Z && negb (bool_decide (short = rep))
            then [Full_result_is rep]
            else [])
  end.

(** ** Fixtures of the test machinery *)

Local Open Scope string_scope.
Local Open Scope list_scope.

(** A frame of the module itself, and a session with one suite. *)
Definition frame_own : frame :=
  Frame (Some "optimism") (Some "optimism.py") "optimism.py" 295
    (fun _ _ => Raises (OtherException "NameError")).

Definition suites_one : suites :=
  Suites [("default", [0])] "default" (Some "case")
    [TestCase 0 None None None (Location (Some "m.py") 1) "m.py:1" [] false]
    [TestManager 0 false].

Local Close Scope string_scope.

Local Open Scope string_scope.
Local Open Scope list_scope.

(** The statement [with c:] followed, on line 2, by [expect(y, 1)]. *)
Definition with_statement : ast :=
  Node 51 ast_With (Some (Position 1 0 2 16))
    [("items",
      PyList
        [Node 52 ast_withitem None
           [("context_expr", mkName 53 (on_line 1 5 6) "c");
            ("optional_vars", PyNone)]]);
     ("body",
      PyList
        [mkExpr 54 (on_line 2 4 16)
           (mkCall 55 (on_line 2 4 16) (mkName 56 (on_line 2 4 10) "expect")
              [mkName 57 (on_line 2 11 12) "y";
               mkConstant 58 (on_line 2 14 15) "1"])]);
     ("type_comment", PyNone)].

Local Close Scope string_scope.

(* ===================================================================== *)
(** * Part II: properties                                                 *)
(* ===================================================================== *)

(** ** The tests of the module

    The assertions of the test functions of [optimism.py] for the scanner,
    evaluated on the embedding. *)

Local Open Scope string_scope.
Local Open Scope list_scope.

(** The assertions of [test_gsr]. *)
Example test_gsr :
  get_src_index (text_of "a" ++ [newline] ++ text_of "b" ++ [newline] ++ text_of "c") 1 0 = 0
  /\ get_src_index (text_of "a" ++ [newline] ++ text_of "b" ++ [newline] ++ text_of "c") 2 0 = 2
  /\ get_src_index (text_of "a" ++ [newline] ++ text_of "b" ++ [newline] ++ text_of "c") 3 0 = 4.
Proof. vm_compute. repeat split. Qed.

(** The assertions of [test_find_identifier_end]. *)
Example test_find_identifier_end :
  find_identifier_end (text_of "abc.xyz") 0 = 2
  /\ find_identifier_end (text_of "abc.xyz") 1 = 2
  /\ find_identifier_end (text_of "abc.xyz") 2 = 2
  /\ find_identifier_end (text_of "abc.xyz") 4 = 6
  /\ find_identifier_end (text_of "abc.xyz") 5 = 6
  /\ find_identifier_end (text_of "abc.xyz") 6 = 6
  /\ find_identifier_end (text_of "abc_xyz123") 0 = 9
  /\ find_identifier_end (text_of "abc xyz123") 0 = 2
  /\ find_identifier_end (text_of "abc xyz123") 4 = 9
  /\ find_identifier_end (text_of "x") 0 = 0
  /\ find_identifier_end (text_of "  x") 2 = 2
  /\ find_identifier_end (text_of "  xyz1") 2 = 5
  /\ find_identifier_end (text_of "def abc(def):" ++ [newline] ++ text_of "  print(xyz)" ++ [newline]) 0 = 2
  /\ find_identifier_end (text_of "def abc(def):" ++ [newline] ++ text_of "  print(xyz)" ++ [newline]) 4 = 6
  /\ find_identifier_end (text_of "def abc(def):" ++ [newline] ++ text_of "  print(xyz)" ++ [newline]) 8 = 10
  /\ find_identifier_end (text_of "def abc(def):" ++ [newline] ++ text_of "  print(xyz)" ++ [newline]) 16 = 20
  /\ find_identifier_end (text_of "def abc(def):" ++ [newline] ++ text_of "  print(xyz)" ++ [newline]) 22 = 24.
Proof. vm_compute. repeat split. Qed.

(** The assertions of [test_unquoted_enumerate]. *)
Example test_unquoted_enumerate :
  unquoted_enumerate (text_of "abc'123'") 0 = [(0, "a"%char); (1, "b"%char); (2, "c"%char)]
  /\ unquoted_enumerate (text_of "'abc'123") 0 = [(5, "1"%char); (6, "2"%char); (7, "3"%char)]
  /\ unquoted_enumerate (text_of "'abc'123''") 0 = [(5, "1"%char); (6, "2"%char); (7, "3"%char)]
  /\ unquoted_enumerate (text_of "'abc'123''") 1 = [(1, "a"%char); (2, "b"%char); (3, "c"%char)]
  /\ unquoted_enumerate (text_of "'''" ++ [newline] ++ text_of "a" ++ [newline] ++ text_of "b" ++ [newline] ++ text_of "c'''" ++ [newline] ++ text_of "def") 0 = [(12, newline); (13, "d"%char); (14, "e"%char); (15, "f"%char)]
  /\ unquoted_enumerate ([dquote; dquote; dquote] ++ text_of "'''ab''''" ++ [dquote; dquote; dquote] ++ text_of " cd") 0 = [(15, " "%char); (16, "c"%char); (17, "d"%char)]
  /\ unquoted_enumerate (text_of "a'b'''c" ++ [dquote; dquote; dquote] ++ text_of "'''" ++ [dquote] ++ text_of "d" ++ [dquote] ++ text_of "''''" ++ [dquote; dquote; dquote] ++ text_of "e'''" ++ [dquote; dquote; dquote] ++ text_of "f" ++ [dquote; dquote; dquote] ++ text_of "'''") 0 = [(0, "a"%char); (6, "c"%char); (23, "e"%char)]
  /\ unquoted_enumerate (text_of "a'b'''c" ++ [dquote; dquote; dquote] ++ text_of "'''" ++ [dquote] ++ text_of "d" ++ [dquote] ++ text_of "''''" ++ [dquote; dquote; dquote] ++ text_of "e'''" ++ [dquote; dquote; dquote] ++ text_of "f" ++ [dquote; dquote; dquote] ++ text_of "'''") 6 = [(6, "c"%char); (23, "e"%char)]
  /\ unquoted_enumerate (text_of "a'\'b\''c") 0 = [(0, "a"%char); (8, "c"%char)]
  /\ unquoted_enumerate (text_of "'" ++ [dquote] ++ text_of "a'b" ++ [dquote]) 0 = [(4, "b"%char)].
Proof. vm_compute. repeat split. Qed.

(** The assertions of [test_find_nth_attribute_period]. *)
Example test_find_nth_attribute_period :
  find_nth_attribute_period (text_of "a.b") 0 0 = Some 1
  /\ find_nth_attribute_period (text_of "a.b") 0 1 = None
  /\ find_nth_attribute_period (text_of "a.b") 0 100 = None
  /\ find_nth_attribute_period (text_of "a.b.c") 0 1 = Some 3
  /\ find_nth_attribute_period (text_of "a.b.cde.f") 0 1 = Some 3
  /\ find_nth_attribute_period (text_of "a.b.cde.f") 0 2 = Some 7
  /\ find_nth_attribute_period (text_of "a.b, c.d, 'e.f', g.h") 0 0 = Some 1
  /\ find_nth_attribute_period (text_of "a.b, c.d, 'e.f', g.h") 0 1 = Some 6
  /\ find_nth_attribute_period (text_of "a.b, c.d, 'e.f', g.h") 0 2 = Some 18
  /\ find_nth_attribute_period (text_of "a.b, c.d, 'e.f', g.h") 0 3 = None
  /\ find_nth_attribute_period (text_of "a.b, c.d, 'e.f', g.h") 0 3 = None
  /\ find_nth_attribute_period (text_of "a.b, c.d, 'e.f', g.h") 1 0 = Some 1
  /\ find_nth_attribute_period (text_of "a.b, c.d, 'e.f', g.h") 2 0 = Some 6
  /\ find_nth_attribute_period (text_of "a.b, c.d, 'e.f', g.h") 6 0 = Some 6
  /\ find_nth_attribute_period (text_of "a.b, c.d, 'e.f', g.h") 7 0 = Some 18
  /\ find_nth_attribute_period (text_of "a.b, c.d, 'e.f', g.h") 15 0 = Some 18.
Proof. vm_compute. repeat split. Qed.

(** The assertions of [test_find_closing_item]. *)
Example test_find_closing_item :
  find_closing_item (text_of "()") 0 ("("%char, ")"%char) = Some 1
  /\ find_closing_item (text_of "()") 0 ("("%char, ")"%char) = Some 1
  /\ find_closing_item (text_of "(())") 0 ("("%char, ")"%char) = Some 3
  /\ find_closing_item (text_of "(())") 1 ("("%char, ")"%char) = Some 2
  /\ find_closing_item (text_of "((word))") 0 ("("%char, ")"%char) = Some 7
  /\ find_closing_item (text_of "((word))") 1 ("("%char, ")"%char) = Some 6
  /\ find_closing_item (text_of "((" ++ [dquote] ++ text_of "((" ++ [dquote] ++ text_of "))") 0 ("("%char, ")"%char) = Some 7
  /\ find_closing_item (text_of "((" ++ [dquote] ++ text_of "((" ++ [dquote] ++ text_of "))") 1 ("("%char, ")"%char) = Some 6
  /\ find_closing_item (text_of "((" ++ [dquote] ++ text_of "))" ++ [dquote] ++ text_of "))") 0 ("("%char, ")"%char) = Some 7
  /\ find_closing_item (text_of "((" ++ [dquote] ++ text_of "))" ++ [dquote] ++ text_of "))") 1 ("("%char, ")"%char) = Some 6
  /\ find_closing_item (text_of "(()())") 0 ("("%char, ")"%char) = Some 5
  /\ find_closing_item (text_of "(()())") 1 ("("%char, ")"%char) = Some 2
  /\ find_closing_item (text_of "(()())") 3 ("("%char, ")"%char) = Some 4
  /\ find_closing_item (text_of "(" ++ [dquote; dquote; dquote] ++ text_of ")(" ++ [newline; dquote; dquote; dquote] ++ text_of ")") 0 ("("%char, ")"%char) = Some 10
  /\ find_closing_item ([dquote] ++ text_of "abc(" ++ [dquote] ++ text_of " + ('''def''')") 9 ("("%char, ")"%char) = Some 19
  /\ find_closing_item ([dquote] ++ text_of "abc(" ++ [dquote] ++ text_of " + ('''def''')") 0 ("("%char, ")"%char) = None
  /\ find_closing_item ([dquote] ++ text_of "abc(" ++ [dquote] ++ text_of " + ('''def''')") 4 ("("%char, ")"%char) = None
  /\ find_closing_item (text_of "(()") 0 ("("%char, ")"%char) = None
  /\ find_closing_item (text_of "(()") 1 ("("%char, ")"%char) = Some 2
  /\ find_closing_item (text_of "()(") 0 ("("%char, ")"%char) = Some 1
  /\ find_closing_item (text_of "()(") 2 ("("%char, ")"%char) = None
  /\ find_closing_item (text_of "[]") 0 ("["%char, "]"%char) = Some 1
  /\ find_closing_item (text_of "[]") 0 ("("%char, ")"%char) = None
  /\ find_closing_item (text_of "{}") 0 ("{"%char, "}"%char) = Some 1
  /\ find_closing_item (text_of "aabb") 0 ("a"%char, "b"%char) = Some 3.
Proof. vm_compute. repeat split. Qed.

(** The assertions of [test_find_unbracketed_comma]. *)
Example test_find_unbracketed_comma :
  find_unbracketed_comma (text_of "()") 0 = None
  /\ find_unbracketed_comma (text_of "(),") 0 = Some 2
  /\ find_unbracketed_comma (text_of "((,),)") 0 = None
  /\ find_unbracketed_comma (text_of "((,),),") 0 = Some 6
  /\ find_unbracketed_comma (text_of "((,),),") 1 = Some 4
  /\ find_unbracketed_comma (text_of ",,,") 1 = Some 1
  /\ find_unbracketed_comma ([dquote] ++ text_of ",," ++ [dquote] ++ text_of "," ++ [dquote] ++ text_of "," ++ [dquote]) 0 = Some 4
  /\ find_unbracketed_comma ([dquote; dquote; dquote; newline] ++ text_of ",," ++ [newline; dquote; dquote; dquote] ++ text_of "," ++ [dquote; dquote; dquote; newline] ++ text_of ",," ++ [newline; dquote; dquote; dquote]) 0 = Some 10
  /\ find_unbracketed_comma ([dquote; dquote; dquote; newline] ++ text_of ",," ++ [newline; dquote; dquote; dquote] ++ text_of "," ++ [dquote; dquote; dquote; newline] ++ text_of ",," ++ [newline; dquote; dquote; dquote]) 4 = Some 4
  /\ find_unbracketed_comma ([dquote; dquote; dquote; newline] ++ text_of ",," ++ [newline; dquote; dquote; dquote] ++ text_of "+" ++ [dquote; dquote; dquote; newline] ++ text_of ",," ++ [newline; dquote; dquote; dquote]) 0 = None
  /\ find_unbracketed_comma ([newline; newline] ++ text_of "," ++ [newline]) 0 = Some 2.
Proof. vm_compute. repeat split. Qed.

Local Close Scope string_scope.

(** ** The scanner *)

Lemma ascii_eqb_true (a b : ascii) : Ascii.eqb a b = true <-> a = b.
Proof. apply Ascii.eqb_eq. Qed.

Lemma ascii_eqb_false (a b : ascii) : Ascii.eqb a b = false <-> a <> b.
Proof. apply Ascii.eqb_neq. Qed.

Lemma quote_not_backslash (c : ascii) :
  is_quote_char c = true -> c <> backslash.
Proof. intros H ->. discriminate H. Qed.

Lemma quote_mark_eqb_true (a b : quote_mark) :
  quote_mark_eqb a b = true <-> a = b.
Proof.
  destruct a, b; simpl; rewrite ?ascii_eqb_true;
    split; (congruence || discriminate).
Qed.

Lemma triple_here_true (c : ascii) (l : list ascii) :
  triple_here c l = true <-> exists l', l = c :: c :: l'.
Proof.
  unfold triple_here. split.
  - destruct l as [|c1 [|c2 l']]; try discriminate.
    intros [->%ascii_eqb_true ->%ascii_eqb_true]%andb_true_iff. eauto.
  - intros [l' ->]. by rewrite Ascii.eqb_refl.
Qed.

(** Every iteration of the loop falls under one case of [loop_view]. *)
Lemma loop_viewP (quote : option quote_mark) (n : nat) (here : list ascii) :
  loop_view quote n here (unquoted_loop quote n here).
Proof.
  destruct here as [|char here1]; [constructor|].
  cbn [unquoted_loop].
  destruct (Ascii.eqb char backslash) eqn:Hbs.
  - apply ascii_eqb_true in Hbs as ->.
    destruct quote as [q|]; cbn.
    + destruct here1; constructor.
    + by constructor.
  - apply ascii_eqb_false in Hbs. rewrite andb_false_r.
    destruct (is_quote_char char) eqn:Hq.
    + destruct (quote_is quote (Single char)) eqn:Hs.
      { destruct quote as [q|]; [|discriminate].
        apply quote_mark_eqb_true in Hs as ->. by constructor. }
      destruct (triple_here char here1) eqn:Ht.
      * apply triple_here_true in Ht as [l' ->]. rewrite orb_false_r.
        destruct quote as [q|]; [|by constructor].
        destruct (quote_is (Some q) (Triple char)) eqn:Ht3.
        { apply quote_mark_eqb_true in Ht3 as ->. by constructor. }
        constructor; [done| |].
        -- intros ->. cbn in Hs. by rewrite Ascii.eqb_refl in Hs.
        -- intros ->. cbn in Ht3. by rewrite Ascii.eqb_refl in Ht3.
      * destruct quote as [q|]; [|by constructor].
        constructor; [done| |done].
        intros ->. cbn in Hs. by rewrite Ascii.eqb_refl in Hs.
    + destruct quote as [q|]; by constructor.
Qed.

Ltac loop_cases quote n l :=
  let V := fresh "V" in
  let ys := fresh "ys" in
  pose proof (loop_viewP quote n l) as V;
  set (ys := unquoted_loop quote n l) in *; clearbody ys;
  inversion V; subst; clear V.

Lemma quote_is_false (q : quote_mark) (m : quote_mark) :
  q <> m -> quote_is (Some q) m = false.
Proof.
  intros Hne. cbn. destruct (quote_mark_eqb q m) eqn:E; [|done].
  by apply quote_mark_eqb_true in E.
Qed.

Lemma triple_here_same (c : ascii) (l : list ascii) :
  triple_here c (c :: c :: l) = true.
Proof. cbn. by rewrite Ascii.eqb_refl. Qed.

(** One iteration of the loop, as equations. *)
Lemma unquoted_loop_escape q n c l :
  unquoted_loop (Some q) n (backslash :: c :: l)
  = unquoted_loop (Some q) (n + 2) l.
Proof. done. Qed.

Lemma unquoted_loop_close_single c n l :
  is_quote_char c = true ->
  unquoted_loop (Some (Single c)) n (c :: l) = unquoted_loop None (n + 1) l.
Proof.
  intros Hq. cbn [unquoted_loop].
  rewrite (proj2 (ascii_eqb_false _ _) (quote_not_backslash c Hq)).
  rewrite andb_false_r, Hq. cbn. by rewrite Ascii.eqb_refl.
Qed.

Lemma unquoted_loop_close_triple c n l :
  is_quote_char c = true ->
  unquoted_loop (Some (Triple c)) n (c :: c :: c :: l)
  = unquoted_loop None (n + 3) l.
Proof.
  intros Hq. cbn [unquoted_loop].
  rewrite (proj2 (ascii_eqb_false _ _) (quote_not_backslash c Hq)).
  rewrite andb_false_r, Hq, triple_here_same. cbn. by rewrite Ascii.eqb_refl.
Qed.

Lemma unquoted_loop_skip_triple q c n l :
  is_quote_char c = true -> q <> Single c -> q <> Triple c ->
  unquoted_loop (Some q) n (c :: c :: c :: l)
  = unquoted_loop (Some q) (n + 3) l.
Proof.
  intros Hq H1 H3. cbn [unquoted_loop].
  rewrite (proj2 (ascii_eqb_false _ _) (quote_not_backslash c Hq)).
  rewrite andb_false_r, Hq, triple_here_same.
  by rewrite !quote_is_false by done.
Qed.

Lemma unquoted_loop_open_triple c n l :
  is_quote_char c = true ->
  unquoted_loop None n (c :: c :: c :: l)
  = unquoted_loop (Some (Triple c)) (n + 3) l.
Proof. intros Hq. cbn [unquoted_loop]. by rewrite Hq, triple_here_same. Qed.

Lemma unquoted_loop_open_single c n l :
  is_quote_char c = true -> triple_here c l = false ->
  unquoted_loop None n (c :: l) = unquoted_loop (Some (Single c)) (n + 1) l.
Proof. intros Hq Ht. cbn [unquoted_loop]. by rewrite Hq, Ht. Qed.

Lemma unquoted_loop_skip_quote q c n l :
  is_quote_char c = true -> q <> Single c -> triple_here c l = false ->
  unquoted_loop (Some q) n (c :: l) = unquoted_loop (Some q) (n + 1) l.
Proof.
  intros Hq H1 Ht. cbn [unquoted_loop].
  rewrite (proj2 (ascii_eqb_false _ _) (quote_not_backslash c Hq)).
  rewrite andb_false_r, Hq, Ht. by rewrite quote_is_false by done.
Qed.

Lemma unquoted_loop_skip_char q c n l :
  is_quote_char c = false -> c <> backslash ->
  unquoted_loop (Some q) n (c :: l) = unquoted_loop (Some q) (n + 1) l.
Proof.
  intros Hq Hb. cbn [unquoted_loop].
  rewrite (proj2 (ascii_eqb_false _ _) Hb). by rewrite andb_false_r, Hq.
Qed.

Lemma unquoted_loop_yield c n l :
  is_quote_char c = false ->
  unquoted_loop None n (c :: l) = (n, c) :: unquoted_loop None (n + 1) l.
Proof. intros Hq. cbn [unquoted_loop]. by rewrite Hq. Qed.

(** The characters yielded do not depend on the index the loop starts
    from. *)
Lemma unquoted_loop_shift (l : list ascii) :
  forall quote n m,
    (unquoted_loop quote n l).*2 = (unquoted_loop quote m l).*2.
Proof.
  remember (length l) as len eqn:Hlen. revert l Hlen.
  induction len as [len IH] using lt_wf_ind. intros l Hlen quote n m.
  loop_cases quote n l.
  - done.
  - done.
  - rewrite unquoted_loop_escape. by eapply IH; [|done]; simpl; lia.
  - rewrite unquoted_loop_close_single by done. by eapply IH; [|done]; simpl; lia.
  - rewrite unquoted_loop_close_triple by done. by eapply IH; [|done]; simpl; lia.
  - rewrite unquoted_loop_skip_triple by done. by eapply IH; [|done]; simpl; lia.
  - rewrite unquoted_loop_open_triple by done. by eapply IH; [|done]; simpl; lia.
  - rewrite unquoted_loop_open_single by done. by eapply IH; [|done]; simpl; lia.
  - rewrite unquoted_loop_skip_quote by done. by eapply IH; [|done]; simpl; lia.
  - rewrite unquoted_loop_skip_char by done. by eapply IH; [|done]; simpl; lia.
  - rewrite unquoted_loop_yield by done. cbn. f_equal.
    by eapply IH; [|done]; simpl; lia.
Qed.

(** The pairs yielded have indices from the start index on, below the end
    of the text. *)
Lemma unquoted_loop_bounds (len : nat) :
  forall l quote n j c,
    length l <= len ->
    (j, c) ∈ unquoted_loop quote n l -> n <= j < n + length l.
Proof.
  induction len as [|len IH]; intros l quote n j c Hlen Hin.
  { destruct l; [|simpl in Hlen; lia]. by apply elem_of_nil in Hin. }
  loop_cases quote n l; try (by apply elem_of_nil in Hin);
    try (apply IH in Hin; simpl in *; lia).
  apply elem_of_cons in Hin as [[= -> ->]|Hin]; [simpl; lia|].
  apply IH in Hin; simpl in *; lia.
Qed.

Lemma triple_here_take (c : ascii) (l : list ascii) (m : nat) :
  triple_here c l = false -> triple_here c (take m l) = false.
Proof.
  destruct l as [|a [|b l]], m as [|[|m]]; cbn; try done.
  all: intros H; try done.
  all: by destruct (Ascii.eqb a c).
Qed.

(** Cutting the text after a yielded index cuts the scan after that pair:
    what the loop does up to an index depends on the text up to there
    only. *)
Lemma unquoted_loop_take (len : nat) :
  forall l quote n pre k c post,
    length l <= len ->
    unquoted_loop quote n l = pre ++ (k, c) :: post ->
    unquoted_loop quote n (take (k + 1 - n) l) = pre ++ [(k, c)].
Proof.
  induction len as [|len IH]; intros l quote n pre k c post Hlen E.
  { destruct l; [|simpl in Hlen; lia]. by destruct pre. }
  assert (Hk : forall q m l',
             unquoted_loop q m l' = pre ++ (k, c) :: post ->
             length l' <= len -> m <= k).
  { intros q m l' E' Hl'.
    assert ((k, c) ∈ unquoted_loop q m l') as Hin
      by (rewrite E'; apply elem_of_app; right; left).
    apply (unquoted_loop_bounds len) in Hin; [lia|done]. }
  loop_cases quote n l; try (by destruct pre);
    match goal with H : _ = pre ++ _ |- _ => rename H into E' end.
  - pose proof (Hk _ _ _ E') as Hm; simpl in Hlen, Hm.
    replace (k + 1 - n) with (S (S (k + 1 - (n + 2)))) by lia. cbn [take].
    rewrite unquoted_loop_escape. apply (IH _ _ _ _ _ _ post); [simpl in *; lia|done].
  - pose proof (Hk _ _ _ E') as Hm; simpl in Hlen, Hm.
    replace (k + 1 - n) with (S (k + 1 - (n + 1))) by lia. cbn [take].
    rewrite unquoted_loop_close_single by done.
    apply (IH _ _ _ _ _ _ post); [simpl in *; lia|done].
  - pose proof (Hk _ _ _ E') as Hm; simpl in Hlen, Hm.
    replace (k + 1 - n) with (S (S (S (k + 1 - (n + 3))))) by lia. cbn [take].
    rewrite unquoted_loop_close_triple by done.
    apply (IH _ _ _ _ _ _ post); [simpl in *; lia|done].
  - pose proof (Hk _ _ _ E') as Hm; simpl in Hlen, Hm.
    replace (k + 1 - n) with (S (S (S (k + 1 - (n + 3))))) by lia. cbn [take].
    rewrite unquoted_loop_skip_triple by done.
    apply (IH _ _ _ _ _ _ post); [simpl in *; lia|done].
  - pose proof (Hk _ _ _ E') as Hm; simpl in Hlen, Hm.
    replace (k + 1 - n) with (S (S (S (k + 1 - (n + 3))))) by lia. cbn [take].
    rewrite unquoted_loop_open_triple by done.
    apply (IH _ _ _ _ _ _ post); [simpl in *; lia|done].
  - pose proof (Hk _ _ _ E') as Hm; simpl in Hlen, Hm.
    replace (k + 1 - n) with (S (k + 1 - (n + 1))) by lia. cbn [take].
    rewrite unquoted_loop_open_single by (done || by apply triple_here_take).
    apply (IH _ _ _ _ _ _ post); [simpl in *; lia|done].
  - pose proof (Hk _ _ _ E') as Hm; simpl in Hlen, Hm.
    replace (k + 1 - n) with (S (k + 1 - (n + 1))) by lia. cbn [take].
    rewrite unquoted_loop_skip_quote by (done || by apply triple_here_take).
    apply (IH _ _ _ _ _ _ post); [simpl in *; lia|done].
  - pose proof (Hk _ _ _ E') as Hm; simpl in Hlen, Hm.
    replace (k + 1 - n) with (S (k + 1 - (n + 1))) by lia. cbn [take].
    rewrite unquoted_loop_skip_char by done.
    apply (IH _ _ _ _ _ _ post); [simpl in *; lia|done].
  - clear Hk. destruct pre as [|p pre]; cbn in E'.
    + injection E' as -> -> _.
      replace (k + 1 - k) with 1 by lia. cbn [take]. by rewrite unquoted_loop_yield.
    + injection E' as <- E'.
      assert (n + 1 <= k).
      { assert ((k, c) ∈ unquoted_loop None (n + 1) l0) as Hin
          by (rewrite E'; apply elem_of_app; right; left).
        apply (unquoted_loop_bounds len) in Hin; simpl in Hlen; lia. }
      replace (k + 1 - n) with (S (k + 1 - (n + 1))) by lia. cbn [take].
      rewrite unquoted_loop_yield by done. cbn. f_equal.
      apply (IH _ _ _ _ _ _ post); [simpl in Hlen; lia|done].
Qed.

Lemma closes1_le q l k : closes1 q l k -> 0 < k <= length l.
Proof. induction 1; simpl; lia. Qed.

Lemma closes3_le q l k : closes3 q l k -> 0 < k <= length l.
Proof. induction 1; simpl; lia. Qed.

Lemma single_state (q : ascii) (Hq : is_quote_char q = true) (l : list ascii) :
  forall n,
    (exists k, closes1 q l k
       /\ unquoted_loop (Some (Single q)) n l
          = unquoted_loop None (n + k) (drop k l))
    \/ ((forall k, ~ closes1 q l k)
        /\ unquoted_loop (Some (Single q)) n l = []).
Proof.
  remember (length l) as m eqn:Hm. revert l Hm.
  induction m as [m IH] using lt_wf_ind. intros l Hm n.
  loop_cases (Some (Single q)) n l.
  - right. split; [|done]. intros k Hk. inversion Hk.
  - right. split; [|done]. intros k Hk. inversion Hk; subst.
    + by apply quote_not_backslash in Hq.
    + done.
  - destruct (IH (length l0) ltac:(simpl; lia) l0 eq_refl (n + 2))
      as [(k & Hk & E)|[Hno E]].
    + left. exists (2 + k). split; [by constructor|].
      rewrite E. f_equal. lia.
    + right. split; [|done]. intros k Hk. inversion Hk; subst.
      * by apply quote_not_backslash in Hq.
      * by eapply Hno.
      * done.
  - left. exists 1. split; [constructor|done].
  - (* three other quotes *)
    assert (c <> q) by congruence.
    assert (c <> backslash) as Hcb by (by apply quote_not_backslash).
    destruct (IH (length l0) ltac:(simpl; lia) l0 eq_refl (n + 3))
      as [(k & Hk & E)|[Hno E]].
    + left. exists (1 + (1 + (1 + k))). split; [by repeat constructor|].
      rewrite E. f_equal. lia.
    + right. split; [|done]. intros k Hk.
      inversion Hk as [| |? ? ? ? ? Hk1]; subst; try done.
      inversion Hk1 as [| |? ? ? ? ? Hk2]; subst; try done.
      inversion Hk2 as [| |? ? ? ? ? Hk3]; subst; try done.
      by eapply Hno.
  - assert (c <> q) by congruence.
    assert (c <> backslash) as Hcb by (by apply quote_not_backslash).
    destruct (IH (length l0) ltac:(simpl; lia) l0 eq_refl (n + 1))
      as [(k & Hk & E)|[Hno E]].
    + left. exists (1 + k). split; [by constructor|].
      rewrite E. f_equal. lia.
    + right. split; [|done]. intros k Hk.
      inversion Hk; subst; try done. by eapply Hno.
  - assert (c <> q) by (intros ->; congruence).
    destruct (IH (length l0) ltac:(simpl; lia) l0 eq_refl (n + 1))
      as [(k & Hk & E)|[Hno E]].
    + left. exists (1 + k). split; [by constructor|].
      rewrite E. f_equal. lia.
    + right. split; [|done]. intros k Hk.
      inversion Hk; subst; try done. by eapply Hno.
Qed.

Lemma triple_state (q : ascii) (Hq : is_quote_char q = true) (l : list ascii) :
  forall n,
    (exists k, closes3 q l k
       /\ unquoted_loop (Some (Triple q)) n l
          = unquoted_loop None (n + k) (drop k l))
    \/ ((forall k, ~ closes3 q l k)
        /\ unquoted_loop (Some (Triple q)) n l = []).
Proof.
  remember (length l) as m eqn:Hm. revert l Hm.
  induction m as [m IH] using lt_wf_ind. intros l Hm n.
  assert (Hqb : q <> backslash) by (by apply quote_not_backslash).
  loop_cases (Some (Triple q)) n l.
  - right. split; [|done]. intros k Hk. inversion Hk.
  - right. split; [|done]. intros k Hk. inversion Hk; subst; done.
  - destruct (IH (length l0) ltac:(simpl; lia) l0 eq_refl (n + 2))
      as [(k & Hk & E)|[Hno E]].
    + left. exists (2 + k). split; [by constructor|].
      rewrite E. f_equal. lia.
    + right. split; [|done]. intros k Hk. inversion Hk; subst; try done.
      by eapply Hno.
  - left. exists 3. split; [constructor|done].
  - (* three quotes of the other kind *)
    assert (c <> q) by congruence.
    assert (c <> backslash) as Hcb by (by apply quote_not_backslash).
    destruct (IH (length l0) ltac:(simpl; lia) l0 eq_refl (n + 3))
      as [(k & Hk & E)|[Hno E]].
    + left. exists (1 + (1 + (1 + k))).
      split; [repeat (constructor; [done|congruence|]); done|].
      rewrite E. f_equal. lia.
    + right. split; [|done]. intros k Hk.
      inversion Hk as [| |? ? ? ? ? Hk1]; subst; try done.
      inversion Hk1 as [| |? ? ? ? ? Hk2]; subst; try done.
      inversion Hk2 as [| |? ? ? ? ? Hk3]; subst; try done.
      by eapply Hno.
  - assert (c <> backslash) as Hcb by (by apply quote_not_backslash).
    assert (forall l', c :: l0 <> q :: q :: q :: l') as Hnt.
    { intros l' [= -> ->].
      match goal with H : triple_here _ _ = false |- _ =>
        cbn in H; by rewrite Ascii.eqb_refl in H end. }
    destruct (IH (length l0) ltac:(simpl; lia) l0 eq_refl (n + 1))
      as [(k & Hk & E)|[Hno E]].
    + left. exists (1 + k). split; [by constructor|].
      rewrite E. f_equal. lia.
    + right. split; [|done]. intros k Hk.
      inversion Hk; subst; try done.
      * by eapply Hnt.
      * by eapply Hno.
  - assert (c <> q) by (intros ->; congruence).
    destruct (IH (length l0) ltac:(simpl; lia) l0 eq_refl (n + 1))
      as [(k & Hk & E)|[Hno E]].
    + left. exists (1 + k). split; [constructor; [done|congruence|done]|].
      rewrite E. f_equal. lia.
    + right. split; [|done]. intros k Hk.
      inversion Hk; subst; try done. by eapply Hno.
Qed.

(** The loop, entered outside any string, yields the characters outside the
    quoted strings of the text. *)
Lemma unquoted_loop_lexed (l : list ascii) :
  forall n, exists spans, lexed n l (unquoted_loop None n l) spans.
Proof.
  remember (length l) as m eqn:Hm. revert l Hm.
  induction m as [m IH] using lt_wf_ind. intros l Hm n.
  loop_cases (@None quote_mark) n l.
  - eexists. constructor.
  - (* opening triple quote *)
    destruct (triple_state c ltac:(done) l0 (n + 3))
      as [(k & Hk & E)|[Hno E]].
    + destruct (IH (length (drop k l0))
                  ltac:(rewrite length_drop; simpl; lia) _ eq_refl
                  (n + 3 + k)) as [spans Hs].
      eexists. rewrite E. by eapply lexed_triple.
    + eexists. rewrite E. by apply lexed_triple_open.
  - destruct (single_state c ltac:(done) l0 (n + 1))
      as [(k & Hk & E)|[Hno E]].
    + destruct (IH (length (drop k l0))
                  ltac:(rewrite length_drop; simpl; lia) _ eq_refl
                  (n + 1 + k)) as [spans Hs].
      eexists. rewrite E. by eapply lexed_single.
    + eexists. rewrite E. by apply lexed_single_open.
  - destruct (IH (length l0) ltac:(simpl; lia) l0 eq_refl (n + 1))
      as [spans Hs].
    eexists. by apply lexed_plain.
Qed.

(** What [lexed] says about indices: the pairs and the spans lie in the
    text, and an index of the text is in the pairs exactly when it is in no
    span. *)
Lemma lexed_bounds n l pairs spans :
  lexed n l pairs spans ->
  (forall j c, (j, c) ∈ pairs -> n <= j /\ l !! (j - n) = Some c)
  /\ (forall a b, (a, b) ∈ spans -> n <= a /\ a < b /\ b <= n + length l).
Proof.
  induction 1 as [n|n c l pairs spans Hc Hl [IH1 IH2]
                 |n q l k pairs spans Hq Hk Hl [IH1 IH2]|n q l Hq Hno
                 |n q l k pairs spans Hq Ht Hk Hl [IH1 IH2]|n q l Hq Ht Hno].
  - split; intros ? ? []%elem_of_nil.
  - split.
    + intros j c' [[= -> ->]|Hin]%elem_of_cons.
      * split; [lia|]. by rewrite Nat.sub_diag.
      * destruct (IH1 _ _ Hin) as [Hle Hlk]. split; [lia|].
        replace (j - n) with (S (j - (n + 1))) by lia. done.
    + intros a b Hin. destruct (IH2 _ _ Hin). simpl. lia.
  - pose proof (closes3_le _ _ _ Hk). rewrite length_drop in IH2. split.
    + intros j c Hin. destruct (IH1 _ _ Hin) as [Hle Hlk]. split; [lia|].
      rewrite lookup_drop in Hlk.
      replace (j - n) with (S (S (S (k + (j - (n + 3 + k)))))) by lia. done.
    + intros a b [[= -> ->]|Hin]%elem_of_cons; simpl; [lia|].
      destruct (IH2 _ _ Hin). lia.
  - split; [intros ? ? []%elem_of_nil|].
    intros a b [= -> ->]%list_elem_of_singleton. simpl. lia.
  - pose proof (closes1_le _ _ _ Hk). rewrite length_drop in IH2. split.
    + intros j c Hin. destruct (IH1 _ _ Hin) as [Hle Hlk]. split; [lia|].
      rewrite lookup_drop in Hlk.
      replace (j - n) with (S (k + (j - (n + 1 + k)))) by lia. done.
    + intros a b [[= -> ->]|Hin]%elem_of_cons; simpl; [lia|].
      destruct (IH2 _ _ Hin). lia.
  - split; [intros ? ? []%elem_of_nil|].
    intros a b [= -> ->]%list_elem_of_singleton. simpl. lia.
Qed.

Lemma lexed_partition n l pairs spans :
  lexed n l pairs spans ->
  forall j, n <= j < n + length l ->
    ((exists c, (j, c) ∈ pairs) <-> ~ in_spans spans j).
Proof.
  unfold in_spans.
  induction 1 as [n|n c l pairs spans Hc Hl IH
                 |n q l k pairs spans Hq Hk Hl IH|n q l Hq Hno
                 |n q l k pairs spans Hq Ht Hk Hl IH|n q l Hq Ht Hno];
    intros j Hj.
  - simpl in Hj. lia.
  - destruct (lexed_bounds _ _ _ _ Hl) as [B1 B2].
    destruct (decide (j = n)) as [->|Hne].
    + split; [|intros _; exists c; apply elem_of_cons; by left].
      intros _ (a & b & Hin & Hab). destruct (B2 _ _ Hin). lia.
    + simpl in Hj. rewrite <- IH by lia. split.
      * intros [c' [[= ? ?]|Hin]%elem_of_cons]; [lia|eauto].
      * intros [c' Hin]. exists c'. apply elem_of_cons. by right.
  - destruct (lexed_bounds _ _ _ _ Hl) as [B1 B2].
    pose proof (closes3_le _ _ _ Hk). simpl in Hj.
    destruct (decide (j < n + 3 + k)) as [Hlt|Hge].
    + split.
      * intros [c Hin]. destruct (B1 _ _ Hin). lia.
      * intros Hn. exfalso. apply Hn. exists n, (n + 3 + k).
        split; [apply elem_of_cons; by left|lia].
    + rewrite IH by (rewrite length_drop; lia). split.
      * intros Hn (a & b & [[= -> ->]|Hin]%elem_of_cons & Hab); [lia|].
        apply Hn; eauto.
      * intros Hn (a & b & Hin & Hab). apply Hn. exists a, b.
        split; [apply elem_of_cons; by right|done].
  - simpl in Hj. split; [intros [c []%elem_of_nil]|].
    intros Hn. exfalso. apply Hn. eexists _, _.
    split; [by apply list_elem_of_singleton|simpl; lia].
  - destruct (lexed_bounds _ _ _ _ Hl) as [B1 B2].
    pose proof (closes1_le _ _ _ Hk). simpl in Hj.
    destruct (decide (j < n + 1 + k)) as [Hlt|Hge].
    + split.
      * intros [c Hin]. destruct (B1 _ _ Hin). lia.
      * intros Hn. exfalso. apply Hn. exists n, (n + 1 + k).
        split; [apply elem_of_cons; by left|lia].
    + rewrite IH by (rewrite length_drop; lia). split.
      * intros Hn (a & b & [[= -> ->]|Hin]%elem_of_cons & Hab); [lia|].
        apply Hn; eauto.
      * intros Hn (a & b & Hin & Hab). apply Hn. exists a, b.
        split; [apply elem_of_cons; by right|done].
  - simpl in Hj. split; [intros [c []%elem_of_nil]|].
    intros Hn. exfalso. apply Hn. eexists _, _.
    split; [by apply list_elem_of_singleton|simpl; lia].
Qed.

Lemma unquoted_enumerate_sound (s : list ascii) (i j : nat) (c : ascii) :
  (j, c) ∈ unquoted_enumerate s i -> i <= j /\ s !! j = Some c.
Proof.
  unfold unquoted_enumerate. intros Hin.
  destruct (unquoted_loop_lexed (drop i s) i) as [spans Hs].
  destruct (lexed_bounds _ _ _ _ Hs) as [B _].
  destruct (B _ _ Hin) as [Hle Hlk]. split; [done|].
  rewrite lookup_drop in Hlk. by replace (i + (j - i)) with j in Hlk by lia.
Qed.

(** Claim C5.  For every text [s] and index [i], every pair
    [unquoted_enumerate s i] yields is [(j, s[j])] for an index [j >= i]; the
    text from index [i] on divides into characters that are not quotes and
    quoted strings (opened by one quote or by three, closed by the same,
    a backslash taking the next character with it, an unclosed string
    running to the end), and an index from [i] on is yielded exactly when it
    lies in none of these quoted spans; and the text of the quoting scenario
    yields exactly the pairs (0, a), (6, c) and (23, e). *)
Theorem unquoted_enumerate_spec (s : list ascii) (i : nat) :
  (forall j c, (j, c) ∈ unquoted_enumerate s i -> i <= j /\ s !! j = Some c)
  /\ (exists spans,
        lexed i (drop i s) (unquoted_enumerate s i) spans
        /\ forall j, i <= j < length s ->
             ((exists c, (j, c) ∈ unquoted_enumerate s i)
              <-> ~ in_spans spans j))
  /\ unquoted_enumerate rqs 0 = [(0, "a"); (6, "c"); (23, "e")]%char.
Proof.
  unfold unquoted_enumerate.
  destruct (unquoted_loop_lexed (drop i s) i) as [spans Hs].
  split; [|split; [exists spans; split; [done|]|by vm_compute]].
  - intros j c Hin.
    destruct (lexed_bounds _ _ _ _ Hs) as [B _].
    destruct (B _ _ Hin) as [Hle Hlk]. split; [done|].
    rewrite lookup_drop in Hlk. by replace (i + (j - i)) with j in Hlk by lia.
  - intros j Hj. apply (lexed_partition _ _ _ _ Hs).
    rewrite length_drop. lia.
Qed.

(** ** Matching delimiters *)

Lemma prefix_cons_cases {A : Type} (p : list A) (x : A) (l : list A) :
  p `prefix_of` x :: l ->
  p = [] \/ exists p', p = x :: p' /\ p' `prefix_of` l.
Proof.
  destruct p as [|y p']; [by left|]. intros H. right.
  pose proof (prefix_cons_inv_1 _ _ _ _ H) as ->.
  exists p'. split; [done|]. by eapply prefix_cons_inv_2.
Qed.

Section closing.
Variables open_delim close_delim : ascii.
Hypothesis distinct : open_delim <> close_delim.

Local Abbreviation depth := (depth_change open_delim close_delim).
Local Abbreviation loop := (closing_loop open_delim close_delim).

Lemma depth_change_app (a b : list ascii) :
  depth (a ++ b) = (depth a + depth b)%Z.
Proof. induction a as [|c a IH]; simpl; [done|]. rewrite IH. lia. Qed.

(** The loop stops at a closing delimiter that brings the level to 0. *)
Lemma closing_loop_complete (pre : list (nat * ascii)) :
  forall (level : Z) (last : option nat) (k : nat) post,
    (1 <= level)%Z ->
    (level + depth pre.*2 = 1)%Z ->
    (forall p, p `prefix_of` pre.*2 -> (1 <= level + depth p)%Z) ->
    loop level last (pre ++ (k, close_delim) :: post) = (0%Z, Some k).
Proof.
  induction pre as [|[i c] pre IH]; intros level last k post Hl Hd Hp.
  - simpl in *. assert (level = 1%Z) as -> by lia.
    destruct (Ascii.eqb_spec close_delim open_delim) as [E|_]; [by subst|].
    by rewrite Ascii.eqb_refl.
  - cbn [closing_loop app]. cbn in Hd.
    destruct (Ascii.eqb_spec c open_delim) as [->|Hno].
    + apply IH; [lia|lia|]. intros p Hpre.
      specialize (Hp (open_delim :: p)). cbn in Hp.
      rewrite Ascii.eqb_refl in Hp.
      specialize (Hp ltac:(by apply prefix_cons)). lia.
    + destruct (Ascii.eqb_spec c close_delim) as [->|Hnc].
      * pose proof (Hp [close_delim]) as H1. cbn in H1.
        destruct (Ascii.eqb_spec close_delim open_delim); [by subst|].
        rewrite Ascii.eqb_refl in H1.
        specialize (H1 ltac:(apply prefix_cons, prefix_nil)).
        destruct (Z.ltb_spec (level - 1) 1); [lia|].
        apply IH; [lia|lia|]. intros p Hpre.
        specialize (Hp (close_delim :: p)). cbn in Hp.
        destruct (Ascii.eqb_spec close_delim open_delim); [by subst|].
        rewrite Ascii.eqb_refl in Hp.
        specialize (Hp ltac:(by apply prefix_cons)). lia.
      * apply IH; [lia|lia|]. intros p Hpre.
        specialize (Hp (c :: p)). cbn in Hp.
        destruct (Ascii.eqb_spec c open_delim); [done|].
        destruct (Ascii.eqb_spec c close_delim); [done|].
        specialize (Hp ltac:(by apply prefix_cons)). lia.
Qed.

(** The level the loop ends with is never below 0, and when it is 0 the
    loop stopped at a matching closing delimiter. *)
Lemma closing_loop_sound (pairs : list (nat * ascii)) :
  forall (level : Z) (last : option nat) lv at_,
    (1 <= level)%Z ->
    loop level last pairs = (lv, at_) ->
    (1 <= lv)%Z
    \/ (lv = 0%Z
        /\ exists k pre post,
             at_ = Some k
             /\ pairs = pre ++ (k, close_delim) :: post
             /\ (level + depth pre.*2 = 1)%Z
             /\ forall p, p `prefix_of` pre.*2 ->
                  (1 <= level + depth p)%Z).
Proof.
  induction pairs as [|[i c] pairs IH]; intros level last lv at_ Hl E.
  - cbn in E. injection E as <- <-. by left.
  - cbn [closing_loop] in E.
    destruct (Ascii.eqb_spec c open_delim) as [->|Hno].
    + destruct (IH (level + 1)%Z (Some i) lv at_ ltac:(lia) E)
        as [?|(-> & k & pre & post & -> & -> & Hd & Hp)]; [by left|].
      right. split; [done|]. exists k, ((i, open_delim) :: pre), post.
      cbn. rewrite Ascii.eqb_refl.
      split; [done|split; [done|split; [lia|]]].
      intros p [->|(p' & -> & Hp')]%prefix_cons_cases.
      * cbn. lia.
      * cbn. rewrite Ascii.eqb_refl. specialize (Hp _ Hp'). lia.
    + destruct (Ascii.eqb_spec c close_delim) as [->|Hnc].
      * destruct (Z.ltb_spec (level - 1) 1).
        -- injection E as <- <-. right. split; [lia|].
           exists i, [], pairs. cbn.
           split; [done|split; [done|split; [lia|]]].
           intros p ->%prefix_nil_inv. cbn. lia.
        -- destruct (IH (level - 1)%Z (Some i) lv at_ ltac:(lia) E)
             as [?|(-> & k & pre & post & -> & -> & Hd & Hp)]; [by left|].
           right. split; [done|].
           exists k, ((i, close_delim) :: pre), post. cbn.
           destruct (Ascii.eqb_spec close_delim open_delim); [by subst|].
           rewrite Ascii.eqb_refl.
           split; [done|split; [done|split; [lia|]]].
           intros p [->|(p' & -> & Hp')]%prefix_cons_cases.
           ++ cbn. lia.
           ++ cbn. destruct (Ascii.eqb_spec close_delim open_delim);
                [by subst|].
              rewrite Ascii.eqb_refl. specialize (Hp _ Hp'). lia.
      * destruct (IH level (Some i) lv at_ ltac:(lia) E)
          as [?|(-> & k & pre & post & -> & -> & Hd & Hp)]; [by left|].
        right. split; [done|]. exists k, ((i, c) :: pre), post. cbn.
        destruct (Ascii.eqb_spec c open_delim); [done|].
        destruct (Ascii.eqb_spec c close_delim); [done|].
        split; [done|split; [done|split; [lia|]]].
        intros p [->|(p' & -> & Hp')]%prefix_cons_cases.
        -- cbn. lia.
        -- cbn. destruct (Ascii.eqb_spec c open_delim); [done|].
           destruct (Ascii.eqb_spec c close_delim); [done|].
           specialize (Hp _ Hp'). lia.
Qed.
End closing.

Lemma find_closing_item_complete code start open_delim close_delim k :
  open_delim <> close_delim ->
  closes_at code start open_delim close_delim k ->
  find_closing_item code start (open_delim, close_delim) = Some k.
Proof.
  intros Hne (pre & post & E & Hd & Hp). unfold find_closing_item. cbn.
  rewrite E.
  rewrite (closing_loop_complete _ _ Hne pre 1%Z None k post); [done|lia|lia|].
  intros p Hpre. specialize (Hp p Hpre). lia.
Qed.

Lemma find_closing_item_sound code start open_delim close_delim k :
  open_delim <> close_delim ->
  find_closing_item code start (open_delim, close_delim) = Some k ->
  closes_at code start open_delim close_delim k.
Proof.
  intros Hne. unfold find_closing_item. cbn.
  destruct (closing_loop _ _ _ _ _) as [lv at_] eqn:E.
  destruct (closing_loop_sound _ _ Hne _ _ _ _ _ ltac:(done) E)
    as [Hlv|(-> & k' & pre & post & -> & Epairs & Hd & Hp)].
  - destruct (Z.eqb_spec lv 0); [lia|done].
  - cbn. intros [= ->]. exists pre, post.
    split; [done|split; [lia|]]. intros p Hpre. specialize (Hp p Hpre). lia.
Qed.

Lemma prefix_snoc_proper {A : Type} (p l : list A) (x : A) :
  p `prefix_of` l ++ [x] -> p <> l ++ [x] -> p `prefix_of` l.
Proof.
  intros [r E] Hne. destruct r as [|y r _] using rev_ind.
  - rewrite app_nil_r in E. by subst.
  - rewrite app_assoc in E. apply app_inj_tail in E as [-> _].
    by exists r.
Qed.

Lemma find_closing_item_snippet code start open_delim close_delim k :
  open_delim <> close_delim ->
  code !! start = Some open_delim ->
  is_quote_char open_delim = false ->
  find_closing_item code start (open_delim, close_delim) = Some k ->
  balanced_snippet open_delim close_delim
    (take (k + 1 - start) (drop start code)).
Proof.
  intros Hne Hat Hq Hk.
  apply find_closing_item_sound in Hk as (pre & post & E & Hd & Hp); [|done].
  assert (start + 1 <= k) as Hlt.
  { destruct (unquoted_enumerate_sound code (start + 1) k close_delim);
      [|done].
    rewrite E. apply elem_of_app. right. by left. }
  unfold unquoted_enumerate in E.
  assert (outside_quotes (take (k + 1 - start) (drop start code))
          = open_delim :: pre.*2 ++ [close_delim]) as Hout.
  { rewrite (drop_S _ open_delim start) by done.
    replace (k + 1 - start) with (S (k + 1 - (start + 1))) by lia.
    replace (S start) with (start + 1) by lia.
    unfold outside_quotes, unquoted_enumerate. cbn [take drop].
    rewrite unquoted_loop_yield by done. cbn. f_equal.
    rewrite (unquoted_loop_shift _ None 1 (start + 1)).
    rewrite (unquoted_loop_take _ _ _ _ pre k close_delim post (le_n _) E).
    by rewrite fmap_app. }
  split.
  - rewrite Hout. cbn [depth_change].
    rewrite Ascii.eqb_refl, depth_change_app, Hd. cbn [depth_change].
    rewrite (proj2 (ascii_eqb_false close_delim open_delim)) by done.
    rewrite Ascii.eqb_refl. lia.
  - rewrite Hout. intros p Hpre Hnil Hwhole.
    apply prefix_cons_cases in Hpre as [->|(p' & -> & Hpre)]; [done|].
    apply prefix_snoc_proper in Hpre; [|congruence].
    cbn [depth_change]. rewrite Ascii.eqb_refl.
    specialize (Hp p' Hpre). lia.
Qed.



(** ** The execution-order walker *)

Local Open Scope string_scope.
Local Open Scope list_scope.

(** [yield from walk_ast_in_order(node.name)]: the local function [w] of
    the definition walks the value of the field. *)
Lemma walk_field (name : string) (fields : list (string * ast)) :
  (fix pick (fs : list (string * ast)) : list ast :=
     match fs with
     | [] => []
     | (f, v) :: fs1 =>
         if String.eqb f name then walk_ast_in_order v else pick fs1
     end) fields
  = walk_ast_in_order (getattr fields name).
Proof.
  induction fields as [|[f v] fields IH]; [done|].
  cbn [getattr]. by destruct (String.eqb f name).
Qed.

(** The node itself is yielded last. *)
Lemma walk_node_last uid k pos fields :
  exists before,
    walk_ast_in_order (Node uid k pos fields)
    = before ++ [Node uid k pos fields].
Proof. cbn [walk_ast_in_order]. eauto. Qed.

(** For an assignment: the value, then the targets, then the node. *)
Lemma walk_Assign uid pos fields :
  walk_ast_in_order (Node uid ast_Assign pos fields)
  = walk_ast_in_order (getattr fields "value")
    ++ walk_ast_in_order (getattr fields "targets")
    ++ [Node uid ast_Assign pos fields].
Proof.
  cbn [walk_ast_in_order]. rewrite !walk_field. by rewrite <- app_assoc.
Qed.

(** For a call: the callee, the positional arguments, the keyword
    arguments, then the node. *)
Lemma walk_Call uid pos fields :
  walk_ast_in_order (Node uid ast_Call pos fields)
  = walk_ast_in_order (getattr fields "func")
    ++ walk_ast_in_order (getattr fields "args")
    ++ walk_ast_in_order (getattr fields "keywords")
    ++ [Node uid ast_Call pos fields].
Proof.
  cbn [walk_ast_in_order]. rewrite !walk_field. by rewrite <- !app_assoc.
Qed.

(** For a [comprehension]: the iterable, then the conditions, then the loop
    variable. *)
Lemma walk_comprehension uid pos fields :
  walk_ast_in_order (Node uid ast_comprehension pos fields)
  = walk_ast_in_order (getattr fields "iter")
    ++ walk_ast_in_order (getattr fields "ifs")
    ++ walk_ast_in_order (getattr fields "target")
    ++ [Node uid ast_comprehension pos fields].
Proof.
  cbn [walk_ast_in_order]. rewrite !walk_field. by rewrite <- !app_assoc.
Qed.

(** Claim C4, at the statement [x = [A for y in C if D]] of the docstring:
    the walk yields the iterable [C], then the condition [D], then the loop
    variable [y], then the element [A]: the condition comes before the loop
    variable, where the claim (and the docstring) put the loop variable
    before the condition. *)
Theorem walk_comprehension_order :
  walk_ast_in_order assign_x
  = [iter_C; cond_D; loop_var_y; comprehension_y_C_D; elt_A; listcomp_A;
     target_x; assign_x].
Proof. reflexivity. Qed.

Local Close Scope string_scope.

(** ** The call-site resolver *)

Local Open Scope string_scope.
Local Open Scope list_scope.

(** Claim C3, at two calls stopped on their second line.  For the call over
    three lines the primary search finds no call and the fallback search
    returns the enclosing call three times, once for each of the three
    nodes of line 2, where the claim has it once.  For the call of [expect]
    on a call of [expect] the fallback search returns the inner call twice
    and then the outer call three times; the first context build for the
    line, made when the inner call runs, selects the inner call, and so does
    the second, made when the outer call runs: both describe the argument
    [u] of the inner call. *)
Theorem find_call_nodes_duplicates :
  let tgt := ByFunction 0 "expect" in
  let h := host_of src_nested tree_nested in
  let first := get_my_context h (Some frame_nested) tgt (empty_world heap_C) in
  let second := get_my_context h (Some frame_nested) tgt first.2 in
  (exists result,
     (find_call_nodes_on_line (host_of src_multiline tree_multiline)
        (assign_parents tree_multiline ∅) tree_multiline frame_multiline
        tgt 2 (empty_world heap_C)).1
     = Returns result
     /\ result = [call_multiline; call_multiline; call_multiline]
     /\ ~ NoDup result)
  /\ (find_call_nodes_on_line h (assign_parents tree_nested ∅) tree_nested
        frame_nested tgt 2 (empty_world heap_C)).1
     = Returns [call_inner; call_inner; call_outer; call_outer; call_outer]
  /\ (exists values relevant,
        first.1
        = Returns
            (FullContext "m.py" 2 src_nested name_u (text_of "u") values
               relevant))
  /\ (exists values relevant,
        second.1
        = Returns
            (FullContext "m.py" 2 src_nested name_u (text_of "u") values
               relevant)).
Proof.
  cbn zeta. split; [|split; [by vm_compute|split]].
  - eexists. split; [by vm_compute|]. split; [done|].
    intros Hnd. apply NoDup_cons in Hnd as [Hnin _]. apply Hnin.
    apply elem_of_cons. by left.
  - eexists _, _. vm_compute. reflexivity.
  - eexists _, _. vm_compute. reflexivity.
Qed.

Section resolver.
Variables (h : host) (fr : frame) (function : target) (line : nat).
Variable table : gmap nat (list ast).
Variable matching : ast -> bool.
Hypothesis call_matches_pure :
  forall call w, call_matches h fr function call w = (Returns (matching call), w).

Local Abbreviation on_the_line := (on_the_line line).
Local Abbreviation matching_call := (matching_call matching).

Lemma primary_search_filter (children result all_on_line : list ast) w :
  primary_search h fr function line children result all_on_line w
  = (Returns (result ++ filter matching_call (filter on_the_line children),
              all_on_line ++ filter on_the_line children), w).
Proof.
  revert result all_on_line.
  induction children as [|child children IH]; intros result all_on_line.
  - cbn. by rewrite !app_nil_r.
  - cbn [primary_search].
    destruct (decide (node_lineno child = Some line)) as [E|E].
    + rewrite bool_decide_eq_true_2 by done.
      rewrite (filter_cons_True on_the_line) by done.
      destruct (isinstance_Call child) eqn:Ec.
      * unfold mbind, M_bind. rewrite call_matches_pure. rewrite IH.
        destruct (matching child) eqn:Em.
        -- rewrite (filter_cons_True matching_call)
             by (unfold matching_call; by rewrite Ec, Em).
           by rewrite <- !app_assoc.
        -- rewrite (filter_cons_False matching_call)
             by (unfold matching_call; by rewrite Ec, Em).
           by rewrite <- !app_assoc.
      * rewrite IH.
        rewrite (filter_cons_False matching_call)
          by (unfold matching_call; by rewrite Ec).
        by rewrite <- !app_assoc.
    + rewrite bool_decide_eq_false_2 by done.
      by rewrite (filter_cons_False on_the_line) by done.
Qed.

Lemma fallback_search_filter (all_on_line result : list ast) w :
  fallback_search h fr function table all_on_line result w
  = (Returns
       (result
        ++ filter matching_call
             (map (fun n => climb (ancestors_of table n)) all_on_line)), w).
Proof.
  revert result.
  induction all_on_line as [|n all_on_line IH]; intros result.
  - cbn. by rewrite app_nil_r.
  - cbn [fallback_search map].
    destruct (isinstance_Call (climb (ancestors_of table n))) eqn:Ec.
    + unfold mbind, M_bind. rewrite call_matches_pure. rewrite IH.
      destruct (matching (climb (ancestors_of table n))) eqn:Em.
      * rewrite (filter_cons_True matching_call)
          by (unfold matching_call; by rewrite Ec, Em).
        by rewrite <- !app_assoc.
      * by rewrite (filter_cons_False matching_call)
          by (unfold matching_call; by rewrite Ec, Em).
    + rewrite IH.
      by rewrite (filter_cons_False matching_call)
        by (unfold matching_call; by rewrite Ec).
Qed.

Lemma climb_stops (chain : list ast) :
  (climb chain = PyNone
   /\ forall x, x ∈ chain -> isinstance x stops_climb = false)
  \/ (exists above below,
        chain = above ++ climb chain :: below
        /\ isinstance (climb chain) stops_climb = true
        /\ forall x, x ∈ above -> isinstance x stops_climb = false).
Proof.
  induction chain as [|here chain IH]; cbn.
  - left. split; [done|]. by intros x ?%elem_of_nil.
  - destruct (isinstance here stops_climb) eqn:E.
    + right. exists [], chain. split; [done|]. split; [done|].
      by intros x ?%elem_of_nil.
    + destruct IH as [[E0 Hall]|(above & below & Ech & Hs & Habove)].
      * left. split; [done|].
        intros x [->|Hin]%elem_of_cons; [done|by apply Hall].
      * right. exists (here :: above), below. split; [cbn; by f_equal|].
        split; [done|].
        intros x [->|Hin]%elem_of_cons; [done|by apply Habove].
Qed.

(** What the resolver returns.  When deciding whether a call matches neither
    raises nor changes the state, [find_call_nodes_on_line] returns the
    matching calls among the nodes of the target line, in execution order,
    if there are any, and uses the fallback search only if there are none; the
    fallback search goes up the parent links from every node of the target
    line to the first ancestor that is a call or a statement boundary, and
    appends that ancestor when it is a matching call, once for each node of
    the line that leads to it (so that a call may occur several times in
    the result). *)
Theorem find_call_nodes_on_line_spec (node : ast) (w : world) :
  let all_on_line := filter on_the_line (walk_ast_in_order node) in
  let primary := filter matching_call all_on_line in
  let enclosing := map (fun n => climb (ancestors_of table n)) all_on_line in
  find_call_nodes_on_line h table node fr function line w
  = (Returns (match primary with
              | [] => filter matching_call enclosing
              | _ => primary
              end), w)
  /\ forall n, n ∈ all_on_line ->
       let chain := ancestors_of table n in
       (climb chain = PyNone
        /\ forall x, x ∈ chain -> isinstance x stops_climb = false)
       \/ (exists above below,
             chain = above ++ climb chain :: below
             /\ isinstance (climb chain) stops_climb = true
             /\ forall x, x ∈ above -> isinstance x stops_climb = false).
Proof.
  cbn zeta. split; [|intros n _; apply climb_stops].
  unfold find_call_nodes_on_line, mbind, M_bind.
  rewrite primary_search_filter. cbn [app].
  destruct (filter matching_call (filter on_the_line (walk_ast_in_order node)))
    as [|c cs] eqn:E.
  - cbn. by rewrite fallback_search_filter.
  - done.
Qed.
End resolver.

Lemma find_call_nodes_on_line_spec_witness :
  let h := host_of src_multiline tree_multiline in
  let table := assign_parents tree_multiline ∅ in
  (forall call w,
     call_matches h frame_multiline (ByName "expect") call w
     = (Returns (name_matches h "expect" (field call "func")), w))
  /\ find_call_nodes_on_line h table tree_multiline frame_multiline
       (ByName "expect") 2 (empty_world heap_C)
     = (Returns [call_multiline; call_multiline; call_multiline],
        empty_world heap_C).
Proof.
  intros h table. split; [done|].
  by rewrite (proj1 (find_call_nodes_on_line_spec h frame_multiline
                       (ByName "expect") 2 table
                       (fun call => name_matches h "expect" (field call "func"))
                       (fun call w => eq_refl) tree_multiline
                       (empty_world heap_C))).
Defined.

Local Close Scope string_scope.

(** ** The context builder *)

Local Open Scope string_scope.
Local Open Scope list_scope.

Lemma quiet_ret {A : Type} (a : A) : quiet (mret a).
Proof. intros w o w' [= <- <-]. done. Qed.

Lemma quiet_lift {A : Type} (o : outcome A) : quiet (lift o).
Proof. intros w o' w' [= <- <-]. done. Qed.

Lemma quiet_bind {A B : Type} (m : M A) (f : A -> M B) :
  quiet m -> (forall a, quiet (f a)) -> quiet (m ≫= f).
Proof.
  intros Hm Hf w o w'. unfold mbind, M_bind.
  destruct (m w) as [[a|e|] w1] eqn:E; destruct (Hm _ _ _ E) as [E1 E2].
  - intros Ef. destruct (Hf _ _ _ _ Ef) as [F1 F2]. split; congruence.
  - intros [= <- <-]. done.
  - intros [= <- <-]. done.
Qed.

Lemma quiet_evaluate (node : ast) (fr : frame) :
  quiet (evaluate_in_context node fr).
Proof.
  intros w o w'. unfold evaluate_in_context.
  destruct (f_eval fr node (objects w)) as [[v heap1]|e|];
    intros [= <- <-]; done.
Qed.

Lemma quiet_deepish_copy_fresh (lib : copy_module) (obj : nat) :
  quiet (deepish_copy_fresh lib obj).
Proof.
  intros w o w'. unfold deepish_copy_fresh.
  destruct (deepish_copy _ _ _ _) as [[v st]|e|]; intros [= <- <-]; done.
Qed.

Lemma quiet_call_matches h fr function call :
  quiet (call_matches h fr function call).
Proof.
  destruct function; cbn; [apply quiet_ret|].
  apply quiet_bind; [apply quiet_evaluate|]. intros v. apply quiet_ret.
Qed.

Lemma quiet_primary_search h fr function line children :
  forall result all_on_line,
    quiet (primary_search h fr function line children result all_on_line).
Proof.
  induction children as [|child children IH]; intros result all_on_line;
    cbn [primary_search]; [apply quiet_ret|].
  destruct (bool_decide _); [|apply IH].
  destruct (isinstance_Call child); [|apply IH].
  apply quiet_bind; [apply quiet_call_matches|]. intros m. apply IH.
Qed.

Lemma quiet_fallback_search h fr function table all_on_line :
  forall result,
    quiet (fallback_search h fr function table all_on_line result).
Proof.
  induction all_on_line as [|n all_on_line IH]; intros result;
    cbn [fallback_search]; [apply quiet_ret|].
  destruct (isinstance_Call _); [|apply IH].
  apply quiet_bind; [apply quiet_call_matches|]. intros m. apply IH.
Qed.

Lemma quiet_find_call_nodes_on_line h table node fr function line :
  quiet (find_call_nodes_on_line h table node fr function line).
Proof.
  unfold find_call_nodes_on_line.
  apply quiet_bind; [apply quiet_primary_search|]. intros [result all_on_line].
  destruct (length result =? 0)%nat;
    [apply quiet_fallback_search|apply quiet_ret].
Qed.

Lemma quiet_collect_values h fr src table nodes :
  forall values relevant,
    quiet (collect_values h fr src table nodes values relevant).
Proof.
  induction nodes as [|node nodes IH]; intros values relevant;
    cbn [collect_values]; [apply quiet_ret|].
  destruct (isinstance node is_reference); [|apply IH].
  apply quiet_bind; [apply quiet_lift|]. intros key.
  destruct (values !! key); [apply IH|].
  apply quiet_bind; [apply quiet_evaluate|]. intros v.
  apply quiet_bind; [apply quiet_deepish_copy_fresh|]. intros val. apply IH.
Qed.

Lemma quiet_describe_call h fr filename line src table match_ :
  quiet (describe_call h fr filename line src table match_).
Proof.
  unfold describe_call.
  apply quiet_bind; [apply quiet_lift|]. intros arg_expr.
  apply quiet_bind; [apply quiet_lift|]. intros expr_src.
  apply quiet_bind; [apply quiet_collect_values|]. intros [values relevant].
  apply quiet_ret.
Qed.

Lemma get_filename_frame_file fr : get_filename fr = Some (frame_file fr).
Proof. unfold get_filename, frame_file. by destruct (f_globals_file fr). Qed.

(** Reading the counter and recording the call: the count read is the count
    held, the count held afterwards is one more, and no other count
    changes. *)
Lemma read_then_bump (function_name filename : string) (line : nat)
    (w : world) :
  let n := counter_of (COMPLETED_PER_LINE w) function_name filename line in
  exists w1 completed,
    read_counter function_name filename line w = (Returns n, w1)
    /\ bump_counter function_name filename line w1
       = (Returns tt, World completed (stderr w) (objects w))
    /\ counter_of completed function_name filename line = n + 1
    /\ forall function_name' filename' line',
         (function_name', filename', line') <> (function_name, filename, line)
         -> counter_of completed function_name' filename' line'
            = counter_of (COMPLETED_PER_LINE w) function_name' filename' line'.
Proof.
  intros n. subst n. unfold read_counter, bump_counter, counter_of, setdefault.
  destruct w as [C err heap]. cbn.
  assert (forall (inner1 : gmap (string * nat) nat) fn' f' l',
            (fn', f', l') <> (function_name, filename, line) ->
            (forall k, k <> (filename, line) ->
               inner1 !! k = default ∅ (C !! function_name) !! k) ->
            default 0 (<[function_name := inner1]> C !! fn'
                       ≫= (.!! (f', l')))
            = default 0 (C !! fn' ≫= (.!! (f', l')))) as Hothers.
  { intros inner1 fn' f' l' Hne Hin.
    destruct (decide (fn' = function_name)) as [->|Hfn].
    - rewrite lookup_insert_eq. cbn. rewrite Hin by congruence.
      by destruct (C !! function_name).
    - by rewrite !lookup_insert_ne by done. }
  destruct (C !! function_name) as [inner|] eqn:EC; cbn.
  - destruct (inner !! (filename, line)) as [n|] eqn:Ei; cbn.
    + eexists _, _. split; [done|]. cbn. rewrite lookup_insert_eq, Ei.
      split; [done|]. cbn. rewrite lookup_insert_eq. cbn.
      rewrite lookup_insert_eq. split; [done|].
      intros fn' f' l' Hne. rewrite !insert_insert_eq.
      apply Hothers; [done|]. intros k Hk. by rewrite lookup_insert_ne.
    + eexists _, _. split; [done|]. cbn. rewrite !lookup_insert_eq.
      split; [done|]. cbn. rewrite ?lookup_insert_eq. cbn.
      rewrite ?lookup_insert_eq. split; [done|].
      intros fn' f' l' Hne. rewrite !insert_insert_eq.
      apply Hothers; [done|]. intros k Hk. by rewrite !lookup_insert_ne.
  - eexists _, _. split; [done|]. cbn. rewrite !lookup_insert_eq.
    split; [done|]. cbn. rewrite ?lookup_insert_eq. cbn.
    rewrite ?lookup_insert_eq. split; [done|].
    intros fn' f' l' Hne. rewrite !insert_insert_eq.
    apply Hothers; [done|]. intros k Hk. by rewrite !lookup_insert_ne.
Qed.

(** One call of [get_my_context] that finds candidates: it selects the
    candidate the count designates, records the call, and goes on to
    describe the selected call. *)
Lemma get_my_context_selects (h : host) (fr : frame) (tgt : target)
    (src : list ascii) (tree : ast) (candidates : list ast) (w w1 : world) :
  let file := frame_file fr in
  let line := f_lineno fr in
  let table := assign_parents tree ∅ in
  let n := counter_of (COMPLETED_PER_LINE w) (name_of tgt) file line in
  read_file h file = Some src ->
  ast_parse h src file = Returns tree ->
  find_call_nodes_on_line h table tree fr tgt line w
  = (Returns candidates, w1) ->
  candidates <> [] ->
  exists c completed,
    candidates !! (n `mod` length candidates) = Some c
    /\ get_my_context h (Some fr) tgt w
       = describe_call h fr file line src table c
           (World completed (stderr w) (objects w1))
    /\ counter_of completed (name_of tgt) file line = n + 1
    /\ forall function_name' filename' line',
         (function_name', filename', line') <> (name_of tgt, file, line)
         -> counter_of completed function_name' filename' line'
            = counter_of (COMPLETED_PER_LINE w) function_name' filename' line'.
Proof.
  intros file line table n Hread Hparse Hfind Hne.
  destruct (quiet_find_call_nodes_on_line _ _ _ _ _ _ _ _ _ Hfind)
    as [EC Eerr].
  assert (0 < length candidates) as Hlen by (destruct candidates; simpl; [done|lia]).
  destruct (lookup_lt_is_Some_2 candidates (n `mod` length candidates))
    as [c Hc]; [apply Nat.mod_upper_bound; lia|].
  destruct (read_then_bump (name_of tgt) file line w1)
    as (w2 & completed & Er & Eb & Hn & Hothers).
  rewrite EC in Er, Hn, Hothers. rewrite Eerr in Eb. fold n in Er, Hn.
  exists c, completed. split; [done|]. split; [|done].
  unfold get_my_context. rewrite get_filename_frame_file. fold file.
  rewrite Hread. unfold build_context. unfold get_code_line. fold line.
  unfold mbind at 1. unfold M_bind at 1. unfold lift at 1. rewrite Hparse.
  fold table.
  unfold mbind at 1. unfold M_bind at 1. rewrite Hfind.
  destruct (Nat.eqb_spec (length candidates) 0) as [E0|_]; [lia|].
  unfold mbind at 1. unfold M_bind at 1. rewrite Er.
  unfold mbind at 1. unfold M_bind at 1. unfold lift at 1.
  unfold item_at. rewrite Hc.
  unfold mbind at 1. unfold M_bind at 1. rewrite Eb. done.
Qed.

(** The disambiguation scenario: on [expect(a,1) and expect(b,2)] the first
    call describes the call over [a], the second the call over [b]. *)
Example scenario_D :
  let h := host_of src_D tree_D in
  let '(first, w1) :=
    get_my_context h (Some frame_D) (ByFunction 0 "expect") (empty_world heap_C) in
  let '(second, w2) :=
    get_my_context h (Some frame_D) (ByFunction 0 "expect") w1 in
  first = Returns (FullContext "m.py" 1 src_D (mkName 33 (on_line 1 7 8) "a")
                     (text_of "a") {[ Some (text_of "a") := 2 ]}
                     {[ Some (text_of "a") ]})
  /\ second = Returns (FullContext "m.py" 1 src_D (mkName 37 (on_line 1 23 24) "b")
                     (text_of "b") {[ Some (text_of "b") := 3 ]}
                     {[ Some (text_of "b") ]})
  /\ counter_of (COMPLETED_PER_LINE w2) "expect" "m.py" 1 = 2.
Proof. vm_compute. done. Qed.

(** Counterexample to claim C1: for [expect([v for v in y], z)] the call
    selects the candidate, records it, and then raises [NameError] when it
    evaluates [v]; the call has built no context, and the counter has gone
    from 0 to 1. *)
Lemma counter_changed_by_failed_build :
  let h := host_of src_comp tree_comp in
  let w := empty_world heap_C in
  let '(o, w') :=
    get_my_context h (Some frame_C) (ByFunction 0 "expect") w in
  o = Raises (OtherException "NameError")
  /\ counter_of (COMPLETED_PER_LINE w) "expect" "m.py" 1 = 0
  /\ counter_of (COMPLETED_PER_LINE w') "expect" "m.py" 1 = 1.
Proof. vm_compute. done. Qed.

(** What a call of [get_my_context] that returns from [describe_call] has
    returned. *)
Lemma describe_call_returns h fr file line src table c w ctx w' :
  describe_call h fr file line src table c w = (Returns ctx, w') ->
  exists expr expr_src values relevant,
    ctx = FullContext file line src expr expr_src values relevant
    /\ first_item (field c "args") = Returns expr
    /\ collect_values h fr src (assign_parents expr table) (ast_walk expr)
         ∅ ∅ w
       = (Returns (values, relevant), w').
Proof.
  unfold describe_call, mbind, M_bind, lift.
  destruct (first_item (field c "args")) as [expr|e|]; [|done|done].
  destruct (get_expr_src _ _ _) as [expr_src|e|]; [|done|done].
  destruct (collect_values _ _ _ _ _ _ _ w) as [[[values relevant]|e|] w1]
    eqn:E; [|done|done].
  intros [= <- <-]. by eexists _, _, _, _.
Qed.

(** Claim C8.  When the source of the caller cannot be read,
    [get_my_context] returns the dictionary with the [file] and [line] keys
    only, printing its two-line warning when [DETAIL_LEVEL] is at least 2
    and nothing otherwise; when the source is read and parsed and both
    search passes find no call node, it prints one warning and returns the
    same location-only dictionary; in neither case does it raise or change a
    counter. *)
Theorem get_my_context_degrades (h : host) (fr : frame) (tgt : target)
    (w : world) :
  let file := frame_file fr in
  let line := f_lineno fr in
  (read_file h file = None ->
   get_my_context h (Some fr) tgt w
   = (Returns (LocationOnly (Some file) line),
      World (COMPLETED_PER_LINE w)
        (stderr w
         ++ if (DETAIL_LEVEL h >=? 2)%Z
            then [Warning_unable_to_get_source;
                  Call_is_on_line line (f_globals_name fr) file]
            else [])
        (objects w)))
  /\ (forall src tree w1,
        read_file h file = Some src ->
        ast_parse h src file = Returns tree ->
        find_call_nodes_on_line h (assign_parents tree ∅) tree fr tgt line w
        = (Returns [], w1) ->
        get_my_context h (Some fr) tgt w
        = (Returns (LocationOnly (Some file) line),
           World (COMPLETED_PER_LINE w)
             (stderr w
              ++ [Warning_unable_to_find_call_node (name_of tgt) line file])
             (objects w1)))
  /\ context_keys (LocationOnly (Some file) line) = ["file"; "line"].
Proof.
  intros file line. split; [|split; [|done]].
  - intros Hread. unfold get_my_context.
    rewrite get_filename_frame_file. fold file. rewrite Hread.
    unfold get_code_line. fold line. destruct w as [C err heap].
    destruct (DETAIL_LEVEL h >=? 2)%Z;
      unfold mbind, M_bind, print, mret, M_ret; cbn.
    + by rewrite <- app_assoc.
    + by rewrite app_nil_r.
  - intros src tree w1 Hread Hparse Hfind.
    destruct (quiet_find_call_nodes_on_line _ _ _ _ _ _ _ _ _ Hfind)
      as [EC Eerr].
    unfold get_my_context. rewrite get_filename_frame_file. fold file.
    rewrite Hread. unfold build_context, get_code_line. fold line.
    unfold mbind at 1. unfold M_bind at 1. unfold lift at 1. rewrite Hparse.
    unfold mbind at 1. unfold M_bind at 1. rewrite Hfind.
    unfold mbind, M_bind, print, mret, M_ret; cbn.
    by rewrite EC, Eerr.
Qed.

Lemma get_my_context_degrades_witness :
  get_my_context (host_unreadable 2) (Some frame_C) (ByFunction 0 "expect")
    (empty_world heap_C)
  = (Returns (LocationOnly (Some "m.py") 1),
     World ∅ [Warning_unable_to_get_source;
              Call_is_on_line 1 (Some "__main__") "m.py"] heap_C)
  /\ get_my_context (host_of src_C tree_C) (Some frame_multiline)
       (ByFunction 0 "expect") (empty_world heap_C)
     = (Returns (LocationOnly (Some "m.py") 2),
        World ∅ [Warning_unable_to_find_call_node "expect" 2 "m.py"] heap_C).
Proof.
  split.
  - exact (proj1 (get_my_context_degrades (host_unreadable 2) frame_C
                    (ByFunction 0 "expect") (empty_world heap_C)) eq_refl).
  - exact (proj1 (proj2 (get_my_context_degrades (host_of src_C tree_C)
                           frame_multiline (ByFunction 0 "expect")
                           (empty_world heap_C)))
             src_C tree_C (empty_world heap_C) eq_refl eq_refl eq_refl).
Defined.

(** The state after [S m] calls is the state after [m] calls and one
    more. *)
Lemma after_builds_S h fr tgt m w :
  after_builds h fr tgt (S m) w
  = (get_my_context h (Some fr) tgt (after_builds h fr tgt m w)).2.
Proof.
  revert w. induction m as [|m IH]; intros w; [done|].
  change (after_builds h fr tgt (S (S m)) w)
    with (after_builds h fr tgt (S m) (get_my_context h (Some fr) tgt w).2).
  by rewrite IH.
Qed.

Section round_robin.
Variables (h : host) (fr : frame) (tgt : target).
Variables (src : list ascii) (tree : ast) (candidates : list ast).
Local Abbreviation file := (frame_file fr).
Local Abbreviation line := (f_lineno fr).
Local Abbreviation table := (assign_parents tree ∅).
Hypothesis readable : read_file h file = Some src.
Hypothesis parsed : ast_parse h src file = Returns tree.
Hypothesis some_candidates : candidates <> [].
Hypothesis found :
  forall w, exists w1,
    find_call_nodes_on_line h table tree fr tgt line w
    = (Returns candidates, w1).

Lemma one_build (w : world) :
  let n := counter_of (COMPLETED_PER_LINE w) (name_of tgt) file line in
  exists c w2,
    candidates !! (n `mod` length candidates) = Some c
    /\ get_my_context h (Some fr) tgt w
       = describe_call h fr file line src table c w2
    /\ forall o w',
         get_my_context h (Some fr) tgt w = (o, w') ->
         counter_of (COMPLETED_PER_LINE w') (name_of tgt) file line = n + 1
         /\ forall function_name' filename' line',
              (function_name', filename', line') <> (name_of tgt, file, line)
              -> counter_of (COMPLETED_PER_LINE w') function_name' filename'
                   line'
                 = counter_of (COMPLETED_PER_LINE w) function_name' filename'
                     line'.
Proof.
  intros n. destruct (found w) as [w1 Hfind].
  destruct (get_my_context_selects h fr tgt src tree candidates w w1
              readable parsed Hfind some_candidates)
    as (c & completed & Hc & Eq & Hn & Hothers).
  exists c, (World completed (stderr w) (objects w1)).
  split; [done|]. split; [done|].
  intros o w' E. rewrite Eq in E.
  destruct (quiet_describe_call _ _ _ _ _ _ _ _ _ _ E) as [EC _].
  cbn in EC. rewrite EC. done.
Qed.

Lemma counter_after_builds (m : nat) (w : world) :
  counter_of (COMPLETED_PER_LINE (after_builds h fr tgt m w)) (name_of tgt)
    file line
  = counter_of (COMPLETED_PER_LINE w) (name_of tgt) file line + m.
Proof.
  induction m as [|m IH]; [cbn; lia|].
  rewrite after_builds_S.
  destruct (one_build (after_builds h fr tgt m w)) as (c & w2 & _ & _ & H).
  destruct (get_my_context h (Some fr) tgt (after_builds h fr tgt m w))
    as [o w'] eqn:E.
  destruct (H o w' eq_refl) as [Hc _]. cbn. rewrite Hc, IH. lia.
Qed.
End round_robin.

(** A call that returns the location-only dictionary leaves every count as
    it was. *)
Lemma location_only_keeps_counters h fr tgt w f l w' :
  get_my_context h (Some fr) tgt w = (Returns (LocationOnly f l), w') ->
  COMPLETED_PER_LINE w' = COMPLETED_PER_LINE w.
Proof.
  unfold get_my_context. rewrite get_filename_frame_file.
  destruct (read_file h (frame_file fr)) as [src|].
  - unfold build_context.
    unfold mbind at 1. unfold M_bind at 1. unfold lift at 1.
    destruct (ast_parse h src (frame_file fr)) as [tree|e|]; [|done|done].
    unfold mbind at 1. unfold M_bind at 1.
    destruct (find_call_nodes_on_line _ _ _ _ _ _ w)
      as [[candidates|e|] w1] eqn:Hfind; [|done|done].
    destruct (quiet_find_call_nodes_on_line _ _ _ _ _ _ _ _ _ Hfind)
      as [EC Eerr].
    destruct (length candidates =? 0)%nat.
    + unfold mbind, M_bind, print, mret, M_ret. intros [= _ _ <-]. done.
    + unfold mbind at 1. unfold M_bind at 1.
      destruct (read_counter _ _ _ w1) as [[n|e|] w2]; [|done|done].
      unfold mbind at 1. unfold M_bind at 1. unfold lift at 1.
      destruct (item_at _ _) as [c|e|]; [|done|done].
      unfold mbind at 1. unfold M_bind at 1.
      destruct (bump_counter _ _ _ w2) as [[[]|e|] w3]; [|done|done].
      intros E. by destruct (describe_call_returns _ _ _ _ _ _ _ _ _ _ E)
        as (? & ? & ? & ? & ? & _).
  - destruct (DETAIL_LEVEL h >=? 2)%Z;
      unfold mbind, M_bind, print, mret, M_ret; by intros [= _ _ <-].
Qed.

(** Claim C1, amended.  For a call site at which
    [find_call_nodes_on_line] finds the candidates [c0, ..., c(k-1)],
    [k >= 1]: a call of [get_my_context] made when the counter of the key
    (function name, file, line) holds [n] selects [c(n mod k)] (it goes on
    to describe that call, and the [expr] of the context it returns is the
    first argument of that call); whatever the call then returns or raises,
    it leaves the counter of the key at [n + 1] and the counters of the
    other keys as they were, so that after [m] calls the counter holds
    [n + m]; with [k = 1] every call selects the same call node; and a call
    that returns the location-only dictionary changes no counter. *)
Theorem round_robin (h : host) (fr : frame) (tgt : target)
    (src : list ascii) (tree : ast) (candidates : list ast) :
  let file := frame_file fr in
  let line := f_lineno fr in
  let table := assign_parents tree ∅ in
  read_file h file = Some src ->
  ast_parse h src file = Returns tree ->
  candidates <> [] ->
  (forall w, exists w1,
     find_call_nodes_on_line h table tree fr tgt line w
     = (Returns candidates, w1)) ->
  forall w,
    let n := counter_of (COMPLETED_PER_LINE w) (name_of tgt) file line in
    exists c,
      candidates !! (n `mod` length candidates) = Some c
      /\ (exists w2,
            get_my_context h (Some fr) tgt w
            = describe_call h fr file line src table c w2)
      /\ (forall ctx w',
            get_my_context h (Some fr) tgt w = (Returns ctx, w') ->
            exists expr expr_src values relevant,
              ctx = FullContext file line src expr expr_src values relevant
              /\ first_item (field c "args") = Returns expr)
      /\ (forall o w',
            get_my_context h (Some fr) tgt w = (o, w') ->
            counter_of (COMPLETED_PER_LINE w') (name_of tgt) file line = n + 1
            /\ forall function_name' filename' line',
                 (function_name', filename', line')
                 <> (name_of tgt, file, line) ->
                 counter_of (COMPLETED_PER_LINE w') function_name' filename'
                   line'
                 = counter_of (COMPLETED_PER_LINE w) function_name' filename'
                     line')
      /\ (forall m,
            counter_of (COMPLETED_PER_LINE (after_builds h fr tgt m w))
              (name_of tgt) file line
            = n + m)
      /\ (length candidates = 1 ->
          forall w', exists w2,
            get_my_context h (Some fr) tgt w'
            = describe_call h fr file line src table c w2)
      /\ (forall h' fr' tgt' w0 f l w',
            get_my_context h' (Some fr') tgt' w0
            = (Returns (LocationOnly f l), w') ->
            COMPLETED_PER_LINE w' = COMPLETED_PER_LINE w0).
Proof.
  intros file line table readable parsed some found w n.
  destruct (one_build h fr tgt src tree candidates readable parsed some found w)
    as (c & w2 & Hc & Eq & Hcount).
  exists c. split; [done|]. split; [by exists w2|].
  split; [|split; [done|split; [|split]]].
  - intros ctx w' E. rewrite Eq in E.
    destruct (describe_call_returns _ _ _ _ _ _ _ _ _ _ E)
      as (expr & expr_src & values & relevant & -> & Hexpr & _).
    by eexists _, _, _, _.
  - intros m.
    by apply (counter_after_builds h fr tgt src tree candidates readable
                parsed some found).
  - intros Hone w'.
    destruct (one_build h fr tgt src tree candidates readable parsed some
                found w') as (c' & w2' & Hc' & Eq' & _).
    exists w2'. rewrite Eq'. f_equal.
    rewrite Hone, Nat.mod_1_r in Hc, Hc'. congruence.
  - intros h' fr' tgt' w0 f l w'. apply location_only_keeps_counters.
Qed.

Lemma round_robin_witness :
  let h := host_of src_D tree_D in
  let tgt := ByFunction 0 "expect" in
  let w := after_builds h frame_D tgt 3 (empty_world heap_C) in
  counter_of (COMPLETED_PER_LINE w) "expect" "m.py" 1 = 3
  /\ exists c,
       [call_over_a; call_over_b] !! (3 `mod` 2) = Some c
       /\ exists w2,
            get_my_context h (Some frame_D) tgt w
            = describe_call h frame_D "m.py" 1 src_D
                (assign_parents tree_D ∅) c w2.
Proof.
  intros h tgt w. split; [by vm_compute|].
  destruct (round_robin h frame_D tgt src_D tree_D [call_over_a; call_over_b]
              eq_refl eq_refl ltac:(discriminate)
              ltac:(intros [C e hp]; by eexists) w)
    as (c & Hc & Hsel & _).
  exists c. split; [exact Hc|exact Hsel].
Defined.

(** Claim C9.  For two distinct function objects [f1] and [f2] with the
    same [__name__], called on the same line of the same file: a call of
    [get_my_context] for [f1] advances the counter that the next call for
    [f2] reads, so that the call for [f2] selects its candidate at the
    advanced count and leaves the one counter two above where it was. *)
Theorem counter_shared_by_name (h : host) (fr : frame)
    (src : list ascii) (tree : ast) (f1 f2 : nat) (dunder_name : string)
    (candidates1 candidates2 : list ast) :
  let file := frame_file fr in
  let line := f_lineno fr in
  let table := assign_parents tree ∅ in
  f1 <> f2 ->
  read_file h file = Some src ->
  ast_parse h src file = Returns tree ->
  candidates1 <> [] ->
  candidates2 <> [] ->
  (forall w, exists w1,
     find_call_nodes_on_line h table tree fr (ByFunction f1 dunder_name)
       line w
     = (Returns candidates1, w1)) ->
  (forall w, exists w1,
     find_call_nodes_on_line h table tree fr (ByFunction f2 dunder_name)
       line w
     = (Returns candidates2, w1)) ->
  forall w o w',
    get_my_context h (Some fr) (ByFunction f1 dunder_name) w = (o, w') ->
    let n := counter_of (COMPLETED_PER_LINE w) dunder_name file line in
    counter_of (COMPLETED_PER_LINE w') dunder_name file line = n + 1
    /\ exists c,
         candidates2 !! ((n + 1) `mod` length candidates2) = Some c
         /\ (exists w2,
               get_my_context h (Some fr) (ByFunction f2 dunder_name) w'
               = describe_call h fr file line src table c w2)
         /\ forall o' w'',
              get_my_context h (Some fr) (ByFunction f2 dunder_name) w'
              = (o', w'') ->
              counter_of (COMPLETED_PER_LINE w'') dunder_name file line
              = n + 2.
Proof.
  intros file line table Hdistinct readable parsed some1 some2 found1 found2
    w o w' E n. subst file line table n.
  destruct (one_build h fr (ByFunction f1 dunder_name) src tree candidates1
              readable parsed some1 found1 w) as (c1 & w2 & _ & _ & H1).
  destruct (H1 o w' E) as [Hn _]. cbn [name_of] in Hn.
  split; [done|].
  destruct (one_build h fr (ByFunction f2 dunder_name) src tree candidates2
              readable parsed some2 found2 w') as (c & w3 & Hc & Eq & H2).
  cbn [name_of] in Hc, H2. rewrite Hn in Hc, H2.
  exists c. split; [done|]. split; [by exists w3|].
  intros o' w'' E'. destruct (H2 o' w'' E') as [-> _]. lia.
Qed.

Lemma counter_shared_by_name_witness :
  let h := host_of src_two tree_two in
  let w := empty_world heap_two in
  let w' := (get_my_context h (Some frame_two) (ByFunction 0 "expect") w).2 in
  0 <> 4
  /\ counter_of (COMPLETED_PER_LINE w') "expect" "m.py" 1 = 1
  /\ exists c,
       [call_m_expect] !! (1 `mod` 1) = Some c
       /\ exists w2,
            get_my_context h (Some frame_two) (ByFunction 4 "expect") w'
            = describe_call h frame_two "m.py" 1 src_two
                (assign_parents tree_two ∅) c w2.
Proof.
  intros h w w'. split; [lia|].
  destruct (counter_shared_by_name h frame_two src_two tree_two 0 4 "expect"
              [call_over_a] [call_m_expect] ltac:(lia) eq_refl eq_refl
              ltac:(discriminate) ltac:(discriminate)
              ltac:(intros [C e hp]; by eexists)
              ltac:(intros [C e hp]; by eexists)
              w (get_my_context h (Some frame_two) (ByFunction 0 "expect") w).1
              w' ltac:(by destruct (get_my_context _ _ _ _)))
    as (Hn & c & Hc & Hsel & _).
  split; [exact Hn|]. exists c. split; [exact Hc|exact Hsel].
Defined.

Lemma first_reference_nil h src key node :
  ~ first_reference h src [] key node.
Proof. intros (before & after & E & _). by destruct before. Qed.

(** A node that is not a reference with text [key] can be skipped. *)
Lemma first_reference_skip h src x nodes key node :
  (isinstance x is_reference = true ->
   get_ref_src (has_get_source_segment h) src x <> Returns key) ->
  first_reference h src (x :: nodes) key node
  <-> first_reference h src nodes key node.
Proof.
  intros Hx. split.
  - intros (before & after & E & Hr & Hk & Hb).
    destruct before as [|y before]; cbn in E; injection E as -> ->.
    + by destruct (Hx Hr).
    + exists before, after. split; [done|]. split; [done|]. split; [done|].
      intros z Hz. apply Hb. apply elem_of_cons. by right.
  - intros (before & after & -> & Hr & Hk & Hb).
    exists (x :: before), after. split; [done|]. split; [done|].
    split; [done|]. intros z [->|Hz]%elem_of_cons; [done|by apply Hb].
Qed.

(** A reference with text [key] at the head is the first one. *)
Lemma first_reference_head h src x nodes key node :
  isinstance x is_reference = true ->
  get_ref_src (has_get_source_segment h) src x = Returns key ->
  first_reference h src (x :: nodes) key node <-> node = x.
Proof.
  intros Hr Hk. split.
  - intros (before & after & E & _ & _ & Hb).
    destruct before as [|y before]; cbn in E; injection E as -> ->; [done|].
    destruct (Hb y); [apply elem_of_cons; by left|done|done].
  - intros ->. exists [], nodes. split; [done|]. split; [done|].
    split; [done|]. by intros z ?%elem_of_nil.
Qed.

Lemma collect_values_relevant h fr src table nodes :
  forall values relevant w values' relevant' w',
    collect_values h fr src table nodes values relevant w
    = (Returns (values', relevant'), w') ->
    forall key,
      key ∈ relevant'
      <-> key ∈ relevant
          \/ (values !! key = None
              /\ exists node,
                   first_reference h src nodes key node
                   /\ is_inside_call_func table node = false).
Proof.
  induction nodes as [|x nodes IH];
    intros values relevant w values' relevant' w' E key.
  - cbn in E. injection E as <- <- <-. split; [by left|].
    intros [?|(_ & node & []%first_reference_nil & _)]; done.
  - cbn [collect_values] in E.
    destruct (isinstance x is_reference) eqn:Hr.
    + unfold mbind at 1 in E. unfold M_bind at 1 in E. unfold lift at 1 in E.
      destruct (get_ref_src (has_get_source_segment h) src x)
        as [k0|e|] eqn:Hk; [|done|done].
      destruct (values !! k0) as [v0|] eqn:Hv.
      * rewrite (IH _ _ _ _ _ _ E key).
        destruct (decide (key = k0)) as [->|Hne].
        -- rewrite Hv. split; (intros [?|[? _]]; [by left|done]).
        -- by setoid_rewrite (first_reference_skip h src x nodes key);
             [|intros _; congruence].
      * unfold mbind at 1 in E. unfold M_bind at 1 in E.
        destruct (evaluate_in_context x fr w) as [[v|e|] w1]; [|done|done].
        unfold mbind at 1 in E. unfold M_bind at 1 in E.
        destruct (deepish_copy_fresh (copy_lib h) v w1) as [[val|e|] w2];
          [|done|done].
        rewrite (IH _ _ _ _ _ _ E key).
        destruct (decide (key = k0)) as [->|Hne].
        -- rewrite lookup_insert_eq, Hv.
           setoid_rewrite (first_reference_head h src x nodes k0); [|done..].
           destruct (is_inside_call_func table x) eqn:Hin.
           ++ split; [intros [?|[? _]]; [by left|done]|].
              intros [?|(_ & node & -> & ?)]; [by left|congruence].
           ++ split; [intros _; right; eauto|].
              intros _. left. apply elem_of_union. left.
              by apply elem_of_singleton.
        -- rewrite lookup_insert_ne by done.
           setoid_rewrite (first_reference_skip h src x nodes key);
             [|intros _; congruence].
           destruct (is_inside_call_func table x); [done|].
           rewrite elem_of_union, elem_of_singleton.
           split; [intros [[?|?]|?]|intros [?|?]]; auto; done.
    + rewrite (IH _ _ _ _ _ _ E key).
      by setoid_rewrite (first_reference_skip h src x nodes key);
        [|intros; congruence].
Qed.

(** A call of [get_my_context] that returns the full dictionary has parsed
    the source and run the loop over [ast.walk(arg_expr)] from empty
    [values] and [relevant]. *)
Lemma full_context_built h fr tgt w file line src expr expr_src values
    relevant w' :
  get_my_context h (Some fr) tgt w
  = (Returns (FullContext file line src expr expr_src values relevant), w') ->
  exists tree w1,
    ast_parse h src file = Returns tree
    /\ collect_values h fr src (assign_parents expr (assign_parents tree ∅))
         (ast_walk expr) ∅ ∅ w1
       = (Returns (values, relevant), w').
Proof.
  unfold get_my_context.
  destruct (get_filename fr) as [file0|]; [|by intros [= ]].
  destruct (read_file h file0) as [src0|].
  - unfold build_context.
    unfold mbind at 1. unfold M_bind at 1. unfold lift at 1.
    destruct (ast_parse h src0 file0) as [tree|e|] eqn:Hparse; [|done|done].
    unfold mbind at 1. unfold M_bind at 1.
    destruct (find_call_nodes_on_line _ _ _ _ _ _ w)
      as [[candidates|e|] w1]; [|done|done].
    destruct (length candidates =? 0)%nat.
    + unfold mbind, M_bind, print, mret, M_ret. by intros [= ].
    + unfold mbind at 1. unfold M_bind at 1.
      destruct (read_counter _ _ _ w1) as [[n|e|] w2]; [|done|done].
      unfold mbind at 1. unfold M_bind at 1. unfold lift at 1.
      destruct (item_at _ _) as [c|e|]; [|done|done].
      unfold mbind at 1. unfold M_bind at 1.
      destruct (bump_counter _ _ _ w2) as [[[]|e|] w3]; [|done|done].
      intros E.
      destruct (describe_call_returns _ _ _ _ _ _ _ _ _ _ E)
        as (expr' & expr_src' & values' & relevant' & [= -> -> -> -> -> -> ->]
            & _ & Hcollect).
      by exists tree, w3.
  - destruct (DETAIL_LEVEL h >=? 2)%Z;
      unfold mbind, M_bind, print, mret, M_ret; by intros [= ].
Qed.

(** Claim C2, amended.  In a context built by [get_my_context], the source
    text of a name, attribute or subscript of the first-argument expression
    is in the relevant set if and only if the first node with that source
    text, in the order of [ast.walk], is not inside the callee of a call of
    that expression (later occurrences of the same text are not looked at);
    and for [expect(f(y), z)] the values hold [f] bound to the function
    object and [y] bound to its value, [f] is not relevant and [y] is. *)
Theorem relevant_first_occurrence h fr tgt w file line src expr expr_src
    values relevant w' :
  get_my_context h (Some fr) tgt w
  = (Returns (FullContext file line src expr expr_src values relevant), w') ->
  (exists tree,
     ast_parse h src file = Returns tree
     /\ forall key,
          key ∈ relevant
          <-> exists node,
                first_reference h src (ast_walk expr) key node
                /\ is_inside_call_func
                     (assign_parents expr (assign_parents tree ∅)) node
                   = false)
  /\ (get_my_context (host_of src_C tree_C) (Some frame_C)
        (ByFunction 0 "expect") (empty_world heap_C)).1
     = Returns (FullContext "m.py" 1 src_C call_f_y (text_of "f(y)")
                  {[ Some (text_of "f") := 1; Some (text_of "y") := 2 ]}
                  {[ Some (text_of "y") ]}).
Proof.
  intros E. split; [|by vm_compute].
  destruct (full_context_built _ _ _ _ _ _ _ _ _ _ _ _ E)
    as (tree & w1 & Hparse & Hcollect).
  exists tree. split; [done|]. intros key.
  rewrite (collect_values_relevant _ _ _ _ _ _ _ _ _ _ _ Hcollect key).
  rewrite lookup_empty. split.
  - intros [[]%elem_of_empty|[_ H]]; done.
  - intros H. by right.
Qed.

Lemma relevant_first_occurrence_witness :
  (get_my_context (host_of src_C tree_C) (Some frame_C)
     (ByFunction 0 "expect") (empty_world heap_C)).1
  = Returns (FullContext "m.py" 1 src_C call_f_y (text_of "f(y)")
               {[ Some (text_of "f") := 1; Some (text_of "y") := 2 ]}
               {[ Some (text_of "y") ]})
  /\ exists tree,
       ast_parse (host_of src_C tree_C) src_C "m.py" = Returns tree
       /\ forall key,
            key ∈ ({[ Some (text_of "y") ]} : gset (option (list ascii)))
            <-> exists node,
                  first_reference (host_of src_C tree_C) src_C
                    (ast_walk call_f_y) key node
                  /\ is_inside_call_func
                       (assign_parents call_f_y (assign_parents tree ∅)) node
                     = false.
Proof.
  split; [by vm_compute|].
  exact (proj1 (relevant_first_occurrence (host_of src_C tree_C) frame_C
                  (ByFunction 0 "expect") (empty_world heap_C) "m.py" 1 src_C
                  call_f_y (text_of "f(y)")
                  {[ Some (text_of "f") := 1; Some (text_of "y") := 2 ]}
                  {[ Some (text_of "y") ]}
                  (World {[ "expect" := {[ ("m.py", 1) := 1 ]} ]} [] heap_C)
                  ltac:(by vm_compute))).
Defined.

(** Counterexample to claim C2: in [expect(f(f), z)] the reference [f]
    occurs as the argument of the inner call, outside any callee position,
    and yet its source text is not in the relevant set: its first
    occurrence, the callee, decided. *)
Lemma relevant_misses_argument :
  (get_my_context (host_of src_ff tree_ff) (Some frame_C)
     (ByFunction 0 "expect") (empty_world heap_C)).1
  = Returns (FullContext "m.py" 1 src_ff call_f_f (text_of "f(f)")
               {[ Some (text_of "f") := 1 ]} ∅)
  /\ argument_f ∈ ast_walk call_f_f
  /\ isinstance argument_f is_reference = true
  /\ get_ref_src true src_ff argument_f = Returns (Some (text_of "f"))
  /\ is_inside_call_func (assign_parents call_f_f (assign_parents tree_ff ∅))
       argument_f
     = false.
Proof.
  split; [by vm_compute|]. split; [|by vm_compute].
  apply list_elem_of_In. vm_compute. repeat ((left; reflexivity) || right).
Qed.

Local Close Scope string_scope.

(** ** [deepish_copy] *)

Local Open Scope string_scope.
Local Open Scope list_scope.

(** [deepish_copy] never raises: it returns or runs out of fuel. *)
Lemma copy_all_no_raise rec items :
  (forall item st e, rec item st <> Raises e) ->
  forall st e, copy_all rec items st <> Raises e.
Proof.
  intros Hrec. induction items as [|item items IH]; intros st e; [done|].
  cbn [copy_all]. unfold mbind, outcome_bind.
  destruct (rec item st) as [[c st1]|e1|] eqn:E1; [|by destruct (Hrec item st e1)|done].
  destruct (copy_all rec items st1) as [[cs st2]|e2|] eqn:E2;
    [done|by destruct (IH st1 e2)|done].
Qed.

Lemma extend_with_copies_no_raise rec result items :
  (forall item st e, rec item st <> Raises e) ->
  forall st e, extend_with_copies rec result items st <> Raises e.
Proof.
  intros Hrec. induction items as [|item items IH]; intros st e; [done|].
  cbn [extend_with_copies]. unfold mbind, outcome_bind.
  destruct (rec item st) as [[c st1]|e1|] eqn:E1;
    [apply IH|by destruct (Hrec item st e1)|done].
Qed.

Lemma deepish_copy_no_raise lib fuel :
  forall obj st e, deepish_copy fuel lib obj st <> Raises e.
Proof.
  induction fuel as [|fuel IH]; intros obj st e; cbn [deepish_copy];
    destruct (memo st !! obj); try done;
    destruct (copy_deepcopy lib (heap st) obj) as [[heap1 result]|]; try done.
  destruct (heap st !! obj) as [[items|items|items|items|items|d]|];
    cbn [alloc]; try done.
  - by apply extend_with_copies_no_raise.
  - unfold mbind, outcome_bind.
    destruct (copy_all _ _ _) as [[cs st2]|e2|] eqn:E2; [done| |done].
    by destruct (copy_all_no_raise _ _ IH _ _ E2).
  - unfold mbind, outcome_bind.
    destruct (copy_all _ _ _) as [[cs st2]|e2|] eqn:E2; [done| |done].
    by destruct (copy_all_no_raise _ _ IH _ _ E2).
  - by destruct (copy_copy lib (heap st) obj) as [[heap1 result]|].
  - by destruct (copy_copy lib (heap st) obj) as [[heap1 result]|].
  - by destruct (copy_copy lib (heap st) obj) as [[heap1 result]|].
Qed.

(** Counting the objects [memo] does not know. *)
Lemma unknown_mono size (m1 m2 : gmap nat nat) :
  m1 ⊆ m2 -> length (unknown size m2) <= length (unknown size m1).
Proof.
  intros Hsub. unfold unknown. induction (seq 0 size) as [|a l IH]; [done|].
  rewrite !filter_cons.
  destruct (decide (m2 !! a = None)) as [E2|E2].
  - rewrite decide_True; [simpl; lia|].
    destruct (m1 !! a) as [x|] eqn:E1; [|done].
    by rewrite (lookup_weaken _ _ _ _ E1 Hsub) in E2.
  - destruct (decide (m1 !! a = None)); simpl; lia.
Qed.

Lemma unknown_insert size (m : gmap nat nat) (a r : nat) :
  a < size -> m !! a = None ->
  length (unknown size (<[a := r]> m)) < length (unknown size m).
Proof.
  intros Ha Hm. unfold unknown.
  rewrite (list_filter_iff _ (fun x => x <> a /\ m !! x = None)).
  - rewrite <- list_filter_filter.
    apply (length_filter_lt _ _ a); [|by intros []].
    apply list_elem_of_filter. split; [done|]. apply elem_of_seq. lia.
  - intros x. destruct (decide (x = a)) as [->|Hne].
    + rewrite lookup_insert_eq. split; [done|by intros []].
    + rewrite lookup_insert_ne by done. split; [done|by intros []].
Qed.


Lemma unchanged_below_refl n h : unchanged_below n h h.
Proof. by split. Qed.

Lemma unchanged_below_trans n n' h h' h'' :
  n <= n' -> unchanged_below n h h' -> unchanged_below n' h' h'' ->
  unchanged_below n h h''.
Proof.
  intros Hn [L1 H1] [L2 H2]. split; [lia|].
  intros a Ha. rewrite H2 by lia. by apply H1.
Qed.

Lemma unchanged_below_prefix h h' :
  h `prefix_of` h' -> unchanged_below (length h) h h'.
Proof.
  intros [k ->]. split; [rewrite length_app; lia|].
  intros a Ha. by rewrite lookup_app_l.
Qed.

Lemma unchanged_below_insert n h i o :
  n <= i -> unchanged_below n h (<[i := o]> h).
Proof.
  intros Hi. split; [by rewrite length_insert|].
  intros a Ha. rewrite list_lookup_insert_ne by lia. done.
Qed.

Lemma unchanged_below_weaken n n' h h' :
  n <= n' -> unchanged_below n' h h' -> unchanged_below n h h'.
Proof. intros Hn [L H]. split; [done|]. intros a Ha. apply H. lia. Qed.

Lemma pair_up_copies (P : nat -> nat -> Prop) (items : list (nat * nat))
    (cs : list nat) :
  Forall2 P (keys_and_values items) cs ->
  Forall2 (fun kv kc : nat * nat => P kv.1 kc.1 /\ P kv.2 kc.2) items
    (pair_up cs).
Proof.
  revert cs. induction items as [|[k v] items IH]; intros cs H.
  - cbn in H. apply Forall2_nil_inv_l in H as ->. constructor.
  - cbn in H.
    apply Forall2_cons_inv_l in H as (ck & cs1 & Hk & H & ->).
    apply Forall2_cons_inv_l in H as (cv & cs2 & Hv & H & ->).
    cbn. constructor; [done|]. by apply IH.
Qed.

Section totality.
Variables (lib : copy_module) (original : list pyobj).
Hypothesis closed : heap_closed original.
Hypothesis deepcopy_extends : extends_heap (copy_deepcopy lib).
Hypothesis copy_extends : extends_heap (copy_copy lib).

Local Abbreviation size := (length original).
Local Abbreviation keeps st := (unchanged_below size original (heap st)).

Lemma extend_with_copies_total fuel rec result items :
  total_on lib original fuel rec ->
  Forall (fun x => x < size) items -> size <= result ->
  forall st done,
    keeps st -> length (unknown size (memo st)) < fuel ->
    heap st !! result = Some (ObjList done) ->
    exists cs st',
      extend_with_copies rec result items st = Returns (result, st')
      /\ unchanged_below result (heap st) (heap st')
      /\ memo st ⊆ memo st'
      /\ heap st' !! result = Some (ObjList (done ++ cs))
      /\ Forall2 (fun item c => memo st' !! item = Some c) items cs.
Proof.
  intros Hrec Hitems Hres.
  induction Hitems as [|item items Hitem _ IH]; intros st done Hk Hfuel Hat.
  - exists [], st. rewrite app_nil_r.
    split; [done|]. split; [apply unchanged_below_refl|]. by repeat split.
  - cbn [extend_with_copies]. unfold mbind, outcome_bind.
    destruct (Hrec item st Hitem Hk Hfuel)
      as (c & st1 & -> & Hu1 & Hm1 & Hc & _).
    pose proof (lookup_lt_Some _ _ _ Hat) as Hlt.
    assert (heap st1 !! result = Some (ObjList done)) as Hat1.
    { destruct Hu1 as [_ Hu1]. by rewrite Hu1. }
    assert (heap (list_append result c st1)
            = <[result := ObjList (done ++ [c])]> (heap st1)
            /\ memo (list_append result c st1) = memo st1) as [Eh Em].
    { unfold list_append. by rewrite Hat1. }
    destruct (IH (list_append result c st1) (done ++ [c]))
      as (cs & st' & -> & Hu' & Hm' & Hat' & Hcs).
    { rewrite Eh. eapply unchanged_below_trans; [| |by apply unchanged_below_insert].
      - done.
      - eapply unchanged_below_trans; [|exact Hk|];
          [apply Nat.le_refl|].
        eapply unchanged_below_weaken; [|exact Hu1]. destruct Hk. lia. }
    { rewrite Em. pose proof (unknown_mono size _ _ Hm1). lia. }
    { rewrite Eh. apply list_lookup_insert_eq. destruct Hu1. lia. }
    exists (c :: cs), st'. split; [done|]. split.
    { eapply unchanged_below_trans; [apply Nat.le_refl| |exact Hu'].
      rewrite Eh.
      eapply unchanged_below_trans;
        [apply Nat.le_refl| |by apply unchanged_below_insert].
      eapply unchanged_below_weaken; [|exact Hu1]. lia. }
    rewrite Em in Hm'. split; [by etrans|].
    split; [by rewrite <- app_assoc in Hat'|].
    constructor; [|done]. by eapply lookup_weaken.
Qed.

Lemma copy_all_total fuel rec items :
  total_on lib original fuel rec ->
  Forall (fun x => x < size) items ->
  forall st,
    keeps st -> length (unknown size (memo st)) < fuel ->
    exists cs st',
      copy_all rec items st = Returns (cs, st')
      /\ unchanged_below (length (heap st)) (heap st) (heap st')
      /\ memo st ⊆ memo st'
      /\ Forall2 (fun item c => memo st' !! item = Some c) items cs.
Proof.
  intros Hrec Hitems.
  induction Hitems as [|item items Hitem _ IH]; intros st Hk Hfuel.
  - exists [], st. split; [done|]. split; [apply unchanged_below_refl|].
    by repeat split.
  - cbn [copy_all]. unfold mbind, outcome_bind.
    destruct (Hrec item st Hitem Hk Hfuel)
      as (c & st1 & -> & Hu1 & Hm1 & Hc & _).
    destruct (IH st1) as (cs & st' & -> & Hu' & Hm' & Hcs).
    { eapply unchanged_below_trans; [|exact Hk|];
        [apply Nat.le_refl|].
      eapply unchanged_below_weaken; [|exact Hu1]. destruct Hk. lia. }
    { pose proof (unknown_mono size _ _ Hm1). lia. }
    exists (c :: cs), st'. split; [done|]. split.
    { eapply unchanged_below_trans; [|exact Hu1|exact Hu'].
      by destruct Hu1. }
    split; [by etrans|]. constructor; [|done]. by eapply lookup_weaken.
Qed.

Lemma held_in_original (obj : nat) (o : pyobj) st :
  keeps st -> obj < size -> heap st !! obj = Some o ->
  Forall (fun x => x < size) (held_by o).
Proof.
  intros [_ Hk] Hobj Ho. apply Forall_forall. intros x Hx.
  rewrite Hk in Ho by done. by eapply closed.
Qed.

Lemma deepish_copy_total (fuel : nat) :
  total_on lib original fuel (deepish_copy fuel lib).
Proof.
  induction fuel as [|fuel IH]; intros obj st Hobj Hk Hfuel; [lia|].
  cbn [deepish_copy].
  destruct (memo st !! obj) as [known|] eqn:Hmemo.
  { exists known, st. split; [done|]. split; [apply unchanged_below_refl|].
    by repeat split. }
  destruct (copy_deepcopy lib (heap st) obj) as [[heap1 result]|] eqn:Hdeep.
  { eexists _, _. split; [done|]. cbn.
    split; [apply unchanged_below_prefix; by eapply deepcopy_extends|].
    split; [by apply insert_subseteq|].
    split; [by rewrite lookup_insert_eq|done]. }
  set (result := length (heap st)).
  assert (forall o,
            let st1 := memoize obj result (CopyState (heap st ++ [o]) (memo st))
            in keeps st1
               /\ length (unknown size (memo st1)) < fuel
               /\ heap st1 !! result = Some o
               /\ unchanged_below result (heap st) (heap st1)
               /\ memo st ⊆ memo st1
               /\ memo st1 !! obj = Some result) as Hstart.
  { intros o st1. subst st1. cbn.
    assert (unchanged_below result (heap st) (heap st ++ [o])) as Hu
      by (apply unchanged_below_prefix; by apply prefix_app_r).
    split.
    { eapply unchanged_below_trans; [|exact Hk|exact Hu]. by destruct Hk. }
    split.
    { pose proof (unknown_insert size (memo st) obj result Hobj Hmemo). lia. }
    split; [by rewrite lookup_app_r, Nat.sub_diag|].
    split; [done|]. split; [by apply insert_subseteq|].
    by rewrite lookup_insert_eq. }
  assert (size <= result) as Hres by (by destruct Hk).
  destruct (heap st !! obj) as [o|] eqn:Ho.
  2:{ destruct Hk as [_ Hk]. rewrite Hk in Ho by done.
      by destruct (lookup_lt_is_Some_2 original obj Hobj) as [o' Ho'];
        rewrite Ho' in Ho. }
  pose proof (held_in_original obj o st Hk Hobj Ho) as Hheld.
  destruct o as [items|items|items|items|items|d]; cbn [alloc held_by] in *;
    fold result.
  - (* list *)
    destruct (Hstart (ObjList [])) as (Hk1 & Hf1 & Hat1 & Hu1 & Hm1 & Hobj1).
    destruct (extend_with_copies_total fuel (deepish_copy fuel lib) result
                items IH Hheld Hres _ [] Hk1 Hf1 Hat1)
      as (cs & st' & -> & Hu' & Hm' & Hat' & Hcs).
    exists result, st'. split; [done|].
    split; [by eapply unchanged_below_trans; [|exact Hu1|exact Hu']|].
    split; [by etrans|]. split; [by eapply lookup_weaken|].
    intros _ _ o [= <-]. by exists cs.
  - (* tuple *)
    destruct (Hstart (ObjGenerator items))
      as (Hk1 & Hf1 & Hat1 & Hu1 & Hm1 & Hobj1).
    eexists _, _. split; [done|]. split; [done|]. split; [done|].
    split; [done|]. by intros _ _ o [= <-].
  - (* dict *)
    destruct (Hstart (ObjDict [])) as (Hk1 & Hf1 & Hat1 & Hu1 & Hm1 & Hobj1).
    unfold mbind, outcome_bind.
    destruct (copy_all_total fuel (deepish_copy fuel lib)
                (keys_and_values items) IH Hheld _ Hk1 Hf1)
      as (cs & st' & -> & Hu' & Hm' & Hcs).
    eexists _, _. split; [done|]. cbn [heap memo fill].
    pose proof (lookup_lt_Some _ _ _ Hat1) as Hlt.
    split.
    { eapply unchanged_below_trans; [apply Nat.le_refl|exact Hu1|].
      eapply unchanged_below_trans;
        [apply Nat.le_refl| |by apply unchanged_below_insert].
      eapply unchanged_below_weaken; [|exact Hu']. lia. }
    split; [by etrans|]. split; [by eapply lookup_weaken|].
    intros _ _ o [= <-]. exists (pair_up cs).
    split; [apply list_lookup_insert_eq; destruct Hu'; lia|].
    by apply (pair_up_copies (fun item c => memo st' !! item = Some c)).
  - (* set *)
    destruct (Hstart (ObjSet [])) as (Hk1 & Hf1 & Hat1 & Hu1 & Hm1 & Hobj1).
    unfold mbind, outcome_bind.
    destruct (copy_all_total fuel (deepish_copy fuel lib) items IH Hheld _
                Hk1 Hf1)
      as (cs & st' & -> & Hu' & Hm' & Hcs).
    eexists _, _. split; [done|]. cbn [heap memo fill].
    pose proof (lookup_lt_Some _ _ _ Hat1) as Hlt.
    split.
    { eapply unchanged_below_trans; [apply Nat.le_refl|exact Hu1|].
      eapply unchanged_below_trans;
        [apply Nat.le_refl| |by apply unchanged_below_insert].
      eapply unchanged_below_weaken; [|exact Hu']. lia. }
    split; [by etrans|]. split; [by eapply lookup_weaken|].
    intros _ _ o [= <-]. exists cs.
    split; [apply list_lookup_insert_eq; destruct Hu'; lia|done].
  - (* a generator object *)
    destruct (copy_copy lib (heap st) obj) as [[heap1 r]|] eqn:Hcopy.
    + eexists _, _. split; [done|]. cbn.
      split; [apply unchanged_below_prefix; by eapply copy_extends|].
      split; [by apply insert_subseteq|].
      split; [by rewrite lookup_insert_eq|by intros _ _ o [= <-]].
    + eexists _, _. split; [done|]. cbn.
      split; [apply unchanged_below_refl|].
      split; [by apply insert_subseteq|].
      split; [by rewrite lookup_insert_eq|by intros _ _ o [= <-]].
  - (* anything else *)
    destruct (copy_copy lib (heap st) obj) as [[heap1 r]|] eqn:Hcopy.
    + eexists _, _. split; [done|]. cbn.
      split; [apply unchanged_below_prefix; by eapply copy_extends|].
      split; [by apply insert_subseteq|].
      split; [by rewrite lookup_insert_eq|by intros _ _ o [= <-]].
    + eexists _, _. split; [done|]. cbn.
      split; [apply unchanged_below_refl|].
      split; [by apply insert_subseteq|].
      split; [by rewrite lookup_insert_eq|by intros _ _ o [= <-]].
Qed.
End totality.

Lemma unknown_empty size : length (unknown size ∅) = size.
Proof.
  unfold unknown. rewrite <- (length_seq size 0) at 2.
  induction (seq 0 size) as [|a l IH]; [done|].
  rewrite filter_cons_True by apply lookup_empty. cbn. by rewrite IH.
Qed.




Local Close Scope string_scope.

(** ** Source text of an expression *)

Local Open Scope string_scope.
Local Open Scope list_scope.

(** Decoding the bytes of a character gives the character back. *)
Lemma decode_encode_char (c : ascii) (bs : list Byte.byte) :
  decode (encode_char c ++ bs)
  = rest ← decode bs; Returns (c :: rest).
Proof.
  destruct c as [[] [] [] [] [] [] [] []]; reflexivity.
Qed.

(** [text.encode().decode()] is [text]. *)
Lemma decode_encode (text : list ascii) : decode (encode text) = Returns text.
Proof.
  induction text as [|c text IH]; [done|].
  unfold encode in *. cbn [flat_map]. rewrite decode_encode_char.
  by rewrite IH.
Qed.

(** In a line of characters below 128 a byte is a character, and a slice of
    the bytes decodes to the same slice of the line. *)
Lemma encode_below_128 (line : list ascii) :
  Forall (fun c => nat_of_ascii c < 128) line ->
  encode line = map byte_of_ascii line.
Proof.
  induction 1 as [|c line Hc _ IH]; [done|].
  unfold encode in *. cbn [flat_map map]. rewrite IH.
  unfold encode_char. destruct (Nat.ltb_spec (nat_of_ascii c) 128); [|lia].
  unfold byte_of_nat. by rewrite ascii_nat_embedding.
Qed.

Lemma decode_slice_below_128 (line : list ascii) (from len : nat) :
  Forall (fun c => nat_of_ascii c < 128) line ->
  decode (take len (drop from (encode line)))
  = Returns (take len (drop from line)).
Proof.
  intros Hline. rewrite encode_below_128 by done.
  rewrite <- fmap_drop, <- fmap_take.
  rewrite <- encode_below_128; [apply decode_encode|].
  by apply Forall_take, Forall_drop.
Qed.

(** Claim C6, at the inputs where the scanner path departs from the
    exact-span path.  On the call [f( a + b )] the two paths of
    [get_expr_src] return the same text, [a + b].  For the attribute
    [f(1.5).z] the scanner path of [get_ref_src] stops at the period of the
    number and returns [f(1.5]; for the subscript [x[1:2]] it raises, the
    slice node having no position.  After a string with two accented
    letters the scanner path reads the byte offsets of the parser as
    character offsets: [get_expr_src] raises [ValueError], finding no
    parenthesis, and [get_ref_src] returns the empty text for the name [x].
    For the call whose single argument [a + b] spans two lines the
    exact-span path keeps the indentation of the second line and the
    scanner path removes it. *)
Theorem source_paths_differ :
  (get_expr_src true src_padded call_padded = Returns (text_of "a + b")
   /\ get_expr_src false src_padded call_padded = Returns (text_of "a + b"))
  /\ (get_ref_src true src_attr attr_node = Returns (Some (text_of "f(1.5).z"))
      /\ get_ref_src false src_attr attr_node
         = Returns (Some (text_of "f(1.5")))
  /\ (get_ref_src true src_slice slice_node
      = Returns (Some (text_of "x[1:2]"))
      /\ get_ref_src false src_slice slice_node = Raises AttributeError)
  /\ (get_expr_src true src_accent call_accent = Returns (text_of "x")
      /\ get_expr_src false src_accent call_accent = Raises ValueError
      /\ get_ref_src true src_accent name_x_accent
         = Returns (Some (text_of "x"))
      /\ get_ref_src false src_accent name_x_accent = Returns (Some []))
  /\ (get_expr_src true src_lines call_lines
      = Returns (text_of "a +" ++ [newline] ++ text_of "    b")
      /\ get_expr_src false src_lines call_lines
         = Returns (text_of "a +" ++ [newline] ++ text_of "b")).
Proof. vm_compute. repeat split. Qed.

Local Close Scope string_scope.

(** ** The scanner helpers and the message functions *)

Lemma identifier_loop_spec (here : list ascii) :
  forall n,
    n <= identifier_loop n here <= n + length here
    /\ (forall j, j < identifier_loop n here - n ->
          exists ch, here !! j = Some ch /\ is_identifier_char ch = true)
    /\ (forall ch, here !! (identifier_loop n here - n) = Some ch ->
          is_identifier_char ch = false).
Proof.
  induction here as [|c here IH]; intros n; cbn [identifier_loop].
  - cbn. split; [lia|]. split; [intros j Hj; lia|]. intros ch.
    by rewrite lookup_nil.
  - assert (negb (isalpha c) && negb (isdigit c) && negb (Ascii.eqb c "_")
            = negb (is_identifier_char c)) as ->.
    { unfold is_identifier_char.
      by destruct (isalpha c), (isdigit c), (Ascii.eqb c "_"). }
    destruct (is_identifier_char c) eqn:Hc; cbn [negb].
    + destruct (IH (n + 1)) as (Hb & Hall & Hnext). cbn [length].
      split; [lia|]. split.
      * intros [|j] Hj; [by exists c|]. cbn. apply Hall. lia.
      * intros ch.
        replace (identifier_loop (n + 1) here - n)
          with (S (identifier_loop (n + 1) here - (n + 1))) by lia.
        cbn. apply Hnext.
    + rewrite Nat.sub_diag. cbn [length]. split; [lia|]. split.
      * intros j Hj. lia.
      * cbn. by intros ch [= <-].
Qed.

(** Extra X1.  [find_identifier_end code start] returns an index [e] at or
    after [start]: every index after [start] up to [e] holds a letter, a
    digit or an underscore, the character after [e], if there is one, is
    none of these, and [e] is [start] when the text ends at [start] or
    before.  The character at [start] itself is never looked at. *)
Theorem find_identifier_end_spec (code : list ascii) (start : nat) :
  start <= find_identifier_end code start
  /\ (forall i, start < i <= find_identifier_end code start ->
        exists ch, code !! i = Some ch /\ is_identifier_char ch = true)
  /\ (forall ch, code !! (find_identifier_end code start + 1) = Some ch ->
        is_identifier_char ch = false)
  /\ (length code <= start + 1 -> find_identifier_end code start = start).
Proof.
  unfold find_identifier_end.
  destruct (identifier_loop_spec (drop (start + 1) code) (start + 1))
    as (Hb & Hall & Hnext).
  set (r := identifier_loop (start + 1) (drop (start + 1) code)) in *.
  split; [lia|]. split; [|split].
  - intros i Hi. destruct (Hall (i - (start + 1)) ltac:(lia)) as (ch & Hch & Hid).
    exists ch. split; [|done]. rewrite lookup_drop in Hch.
    by replace (start + 1 + (i - (start + 1))) with i in Hch by lia.
  - intros ch Hch. apply Hnext. rewrite lookup_drop.
    by replace (start + 1 + (r - (start + 1))) with (r - 1 + 1) by lia.
  - intros Hlen. rewrite length_drop in Hb. lia.
Qed.

Lemma attribute_period_loop_nth (code : list ascii)
    (pairs : list (nat * ascii)) :
  forall (n : Z) (at_ : option nat),
    (0 <= n)%Z ->
    (let '(n', at') := attribute_period_loop code n at_ pairs in
     if (n' <? 0)%Z then at' else None)
    = fst <$> (filter (fun p => is_attribute_period code p = true) pairs
                 !! Z.to_nat n).
Proof.
  induction pairs as [|[i char] pairs IH]; intros n at_ Hn;
    cbn [attribute_period_loop].
  - destruct (Z.ltb_spec n 0); [lia|done].
  - unfold is_attribute_period at 1. cbn [fst snd].
    destruct (Ascii.eqb char ".") eqn:Hdot; cbn [andb].
    + destruct (_ || _) eqn:Hell; cbn [negb].
      * rewrite filter_cons_False; [by apply IH|].
        unfold is_attribute_period. cbn [fst snd]. rewrite Hdot, Hell. done.
      * rewrite filter_cons_True.
        2:{ unfold is_attribute_period. cbn [fst snd]. by rewrite Hdot, Hell. }
        destruct (Z.ltb_spec (n - 1) 0) as [Hlt|Hge].
        -- replace n with 0%Z by lia. cbn.
           destruct (Z.ltb_spec (0 - 1) 0); [done|lia].
        -- rewrite IH by lia.
           replace (Z.to_nat n) with (S (Z.to_nat (n - 1))) by lia. done.
    + rewrite filter_cons_False; [by apply IH|].
      unfold is_attribute_period. cbn [fst snd]. by rewrite Hdot.
Qed.

(** Extra X2.  For [n >= 0], [find_nth_attribute_period code start n] is
    the index of the period number [n] (from zero) among the periods that
    [unquoted_enumerate code start] yields and that have no period next to
    them, and [None] when there are not that many. *)
Theorem find_nth_attribute_period_spec (code : list ascii) (start : nat)
    (n : Z) :
  (0 <= n)%Z ->
  find_nth_attribute_period code start n
  = fst <$> (attribute_periods code start !! Z.to_nat n).
Proof.
  intros Hn. unfold find_nth_attribute_period, attribute_periods.
  apply (attribute_period_loop_nth code _ n None Hn).
Qed.

Lemma find_nth_attribute_period_spec_witness :
  (0 <= 1)%Z
  /\ find_nth_attribute_period (text_of "a.b...c.d") 0 1 = Some 7.
Proof.
  split; [lia|].
  rewrite (find_nth_attribute_period_spec (text_of "a.b...c.d") 0 1 ltac:(lia)).
  reflexivity.
Defined.

Lemma unquoted_loop_restart (len : nat) :
  forall l quote n pre k c post,
    length l <= len ->
    unquoted_loop quote n l = pre ++ (k, c) :: post ->
    unquoted_loop None k (drop (k - n) l) = (k, c) :: post.
Proof.
  induction len as [|len IH]; intros l quote n pre k c post Hlen E.
  { destruct l; [|simpl in Hlen; lia]. by destruct pre. }
  assert (Hk : forall q m l',
             unquoted_loop q m l' = pre ++ (k, c) :: post ->
             length l' <= len -> m <= k).
  { intros q m l' E' Hl'.
    assert ((k, c) ∈ unquoted_loop q m l') as Hin
      by (rewrite E'; apply elem_of_app; right; left).
    apply (unquoted_loop_bounds len) in Hin; [lia|done]. }
  loop_cases quote n l; try (by destruct pre);
    match goal with H : _ = pre ++ _ |- _ => rename H into E' end.
  - pose proof (Hk _ _ _ E') as Hm; simpl in Hlen, Hm.
    replace (k - n) with (S (S (k - (n + 2)))) by lia. cbn [drop].
    eapply IH; cycle 1; [exact E'|lia].
  - pose proof (Hk _ _ _ E') as Hm; simpl in Hlen, Hm.
    replace (k - n) with (S (k - (n + 1))) by lia. cbn [drop].
    eapply IH; cycle 1; [exact E'|lia].
  - pose proof (Hk _ _ _ E') as Hm; simpl in Hlen, Hm.
    replace (k - n) with (S (S (S (k - (n + 3))))) by lia. cbn [drop].
    eapply IH; cycle 1; [exact E'|lia].
  - pose proof (Hk _ _ _ E') as Hm; simpl in Hlen, Hm.
    replace (k - n) with (S (S (S (k - (n + 3))))) by lia. cbn [drop].
    eapply IH; cycle 1; [exact E'|lia].
  - pose proof (Hk _ _ _ E') as Hm; simpl in Hlen, Hm.
    replace (k - n) with (S (S (S (k - (n + 3))))) by lia. cbn [drop].
    eapply IH; cycle 1; [exact E'|lia].
  - pose proof (Hk _ _ _ E') as Hm; simpl in Hlen, Hm.
    replace (k - n) with (S (k - (n + 1))) by lia. cbn [drop].
    eapply IH; cycle 1; [exact E'|lia].
  - pose proof (Hk _ _ _ E') as Hm; simpl in Hlen, Hm.
    replace (k - n) with (S (k - (n + 1))) by lia. cbn [drop].
    eapply IH; cycle 1; [exact E'|lia].
  - pose proof (Hk _ _ _ E') as Hm; simpl in Hlen, Hm.
    replace (k - n) with (S (k - (n + 1))) by lia. cbn [drop].
    eapply IH; cycle 1; [exact E'|lia].
  - clear Hk. destruct pre as [|p pre]; cbn in E'.
    + injection E' as -> -> <-. rewrite Nat.sub_diag. cbn [drop].
      by rewrite unquoted_loop_yield.
    + injection E' as <- E'.
      assert (n + 1 <= k).
      { assert ((k, c) ∈ unquoted_loop None (n + 1) l0) as Hin
          by (rewrite E'; apply elem_of_app; right; left).
        apply (unquoted_loop_bounds len) in Hin; simpl in Hlen; lia. }
      replace (k - n) with (S (k - (n + 1))) by lia. cbn [drop].
      eapply IH; cycle 1; [exact E'|simpl in Hlen; lia].
Qed.

Lemma unquoted_loop_increasing (len : nat) :
  forall l quote n,
    length l <= len ->
    StronglySorted (fun a b : nat * ascii => a.1 < b.1)
      (unquoted_loop quote n l).
Proof.
  induction len as [|len IH]; intros l quote n Hlen.
  { destruct l; [|simpl in Hlen; lia]. constructor. }
  loop_cases quote n l; try constructor;
    try (apply IH; simpl in Hlen; lia).
  apply Forall_forall. intros [j c'] Hin.
  apply (unquoted_loop_bounds len) in Hin; simpl in *; lia.
Qed.

(** Extra X5.  Restarting [unquoted_enumerate] at an index it yielded
    continues the scan: the pairs from that index on are the same. *)
Theorem unquoted_enumerate_restart (src : list ascii) (start k : nat)
    (c : ascii) (pre post : list (nat * ascii)) :
  unquoted_enumerate src start = pre ++ (k, c) :: post ->
  unquoted_enumerate src k = (k, c) :: post.
Proof.
  unfold unquoted_enumerate. intros E.
  assert (start <= k) as Hle.
  { assert ((k, c) ∈ unquoted_loop None start (drop start src)) as Hin
      by (rewrite E; apply elem_of_app; right; left).
    apply (unquoted_loop_bounds _ _ _ _ _ _ (le_n _)) in Hin. lia. }
  apply (unquoted_loop_restart _ _ _ _ _ _ _ _ (le_n _)) in E.
  rewrite drop_drop in E. by replace (start + (k - start)) with k in E by lia.
Qed.

Lemma unquoted_enumerate_restart_witness :
  unquoted_enumerate rqs 6 = [(6, "c"); (23, "e")].
Proof.
  apply (unquoted_enumerate_restart rqs 0 6 "c" [(0, "a")] [(23, "e")]).
  reflexivity.
Defined.

(** Extra X6.  What [unquoted_enumerate] yields up to an index [k] it
    yields depends on the text up to [k] only: on the text cut after [k] the
    scan is the same up to [k] and ends there.  The indices come in
    increasing order: the pairs before are below [k], the pairs after
    above. *)
Theorem unquoted_enumerate_prefix (src : list ascii) (start k : nat)
    (c : ascii) (pre post : list (nat * ascii)) :
  unquoted_enumerate src start = pre ++ (k, c) :: post ->
  unquoted_enumerate (take (k + 1) src) start = pre ++ [(k, c)]
  /\ Forall (fun p => p.1 < k) pre
  /\ Forall (fun p => k < p.1) post.
Proof.
  unfold unquoted_enumerate. intros E.
  assert (start <= k) as Hle.
  { assert ((k, c) ∈ unquoted_loop None start (drop start src)) as Hin
      by (rewrite E; apply elem_of_app; right; left).
    apply (unquoted_loop_bounds _ _ _ _ _ _ (le_n _)) in Hin. lia. }
  split.
  - rewrite <- (unquoted_loop_take _ _ _ _ _ _ _ _ (le_n _) E).
    f_equal. rewrite take_drop_commute. f_equal. f_equal. lia.
  - pose proof (unquoted_loop_increasing _ (drop start src) None start
                  (le_n _)) as Hs.
    rewrite E in Hs. clear E. induction pre as [|p pre IH]; cbn in Hs.
    + apply StronglySorted_inv in Hs as [_ Hpost]. by split.
    + apply StronglySorted_inv in Hs as [Hs Hp].
      destruct (IH Hs) as [Hpre Hpost]. split; [|done].
      constructor; [|done].
      rewrite Forall_app in Hp. destruct Hp as [_ Hp].
      by apply Forall_cons in Hp as [Hp _].
Qed.

Lemma unquoted_enumerate_prefix_witness :
  unquoted_enumerate (take 7 rqs) 0 = [(0, "a")] ++ [(6, "c")]
  /\ Forall (fun p : nat * ascii => p.1 < 6) [(0, "a")]
  /\ Forall (fun p : nat * ascii => 6 < p.1) [(23, "e")].
Proof.
  apply (unquoted_enumerate_prefix rqs 0 6 "c" [(0, "a")] [(23, "e")]).
  reflexivity.
Defined.

Lemma delims_closing (o c : ascii) :
  delims o = Some c -> closing c = true /\ delims c = None.
Proof.
  unfold delims.
  destruct (Ascii.eqb o "(") ; [by intros [= <-]|].
  destruct (Ascii.eqb o "[") ; [by intros [= <-]|].
  destruct (Ascii.eqb o "{") ; [by intros [= <-]|done].
Qed.

Lemma nested_skip (w : list ascii) :
  nested w ->
  forall ps top seeking rest,
    ps.*2 = w -> closing top = true ->
    comma_loop (top :: seeking) (ps ++ rest)
    = comma_loop (top :: seeking) rest.
Proof.
  induction 1 as [|c w Hd Hc _ IH|o c w1 w2 Hd _ IH1 _ IH2];
    intros ps top seeking rest Hps Htop.
  - by apply fmap_nil_inv in Hps as ->.
  - apply fmap_cons_inv in Hps as ([i c'] & ps' & Hc' & Hw & ->);
      cbn in Hc'; subst.
    cbn [app comma_loop]. rewrite Hd.
    destruct (Ascii.eqb c' top) eqn:E.
    { apply ascii_eqb_true in E as ->. congruence. }
    rewrite Hc. by apply IH.
  - apply fmap_cons_inv in Hps as ([i o'] & ps' & Ho' & Hps & ->).
    symmetry in Hps.
    apply fmap_app_inv in Hps as (ps1 & ps2' & Hw1 & Hps & ->).
    symmetry in Hps.
    apply fmap_cons_inv in Hps as ([j c'] & ps2 & Hc' & Hw2 & ->).
    cbn in Ho', Hc'; subst.
    destruct (delims_closing _ _ Hd) as [Hcl Hdc].
    cbn [app comma_loop]. rewrite Hd. rewrite <- app_assoc.
    rewrite (IH1 ps1 c' (top :: seeking) _ eq_refl Hcl).
    cbn [app comma_loop]. rewrite Hdc, Ascii.eqb_refl.
    by apply IH2.
Qed.

Lemma comma_free_skip (w : list ascii) :
  comma_free w ->
  forall ps rest,
    ps.*2 = w -> comma_loop [] (ps ++ rest) = comma_loop [] rest.
Proof.
  induction 1 as [|c w Hd Hc Hcomma _ IH|o c w1 w2 Hd Hn _ IH2];
    intros ps rest Hps.
  - by apply fmap_nil_inv in Hps as ->.
  - apply fmap_cons_inv in Hps as ([i c'] & ps' & Hc' & Hw & ->);
      cbn in Hc'; subst.
    cbn [app comma_loop]. rewrite Hd, Hc.
    rewrite (proj2 (ascii_eqb_false _ _) Hcomma). by apply IH.
  - apply fmap_cons_inv in Hps as ([i o'] & ps' & Ho' & Hps & ->).
    symmetry in Hps.
    apply fmap_app_inv in Hps as (ps1 & ps2' & Hw1 & Hps & ->).
    symmetry in Hps.
    apply fmap_cons_inv in Hps as ([j c'] & ps2 & Hc' & Hw2 & ->).
    cbn in Ho', Hc'; subst.
    destruct (delims_closing _ _ Hd) as [Hcl Hdc].
    cbn [app comma_loop]. rewrite Hd. rewrite <- app_assoc.
    rewrite (nested_skip _ Hn ps1 c' [] _ eq_refl Hcl).
    cbn [app comma_loop]. rewrite Hdc, Ascii.eqb_refl.
    by apply IH2.
Qed.

Lemma closes_stack_group seeking o c w1 w2 :
  delims o = Some c -> nested w1 -> closes_stack seeking w2 ->
  closes_stack seeking (o :: w1 ++ c :: w2).
Proof.
  intros Hd Hn. destruct seeking as [|top seeking]; cbn.
  - by constructor.
  - intros (u1 & u2 & -> & Hu1 & Hu2).
    exists (o :: w1 ++ c :: u1), u2. split; [|split; [|done]].
    + cbn. by rewrite <- app_assoc.
    + by constructor.
Qed.

Lemma comma_loop_sound (pairs : list (nat * ascii)) :
  forall seeking k,
    comma_loop seeking pairs = Some k ->
    exists pre post,
      pairs = pre ++ (k, ",") :: post /\ closes_stack seeking pre.*2.
Proof.
  induction pairs as [|[i ch] pairs IH]; intros seeking k; [done|].
  cbn [comma_loop]. destruct (delims ch) as [cl|] eqn:Hd.
  - intros (pre & post & -> & w1 & w2 & Hw & Hn & Hs)%IH.
    exists ((i, ch) :: pre), post. split; [done|].
    cbn [fmap list_fmap snd]. change (list_fmap _ _ snd pre) with (pre.*2).
    rewrite Hw. by apply closes_stack_group.
  - destruct seeking as [|top seeking].
    + destruct (closing ch) eqn:Hc; [done|].
      destruct (Ascii.eqb ch ",") eqn:Hcomma.
      * apply ascii_eqb_true in Hcomma as ->. intros [= ->].
        exists [], pairs. split; [done|]. constructor.
      * apply ascii_eqb_false in Hcomma.
        intros (pre & post & -> & Hs)%IH.
        exists ((i, ch) :: pre), post. split; [done|]. cbn in *.
        by constructor.
    + destruct (Ascii.eqb ch top) eqn:Htop.
      * apply ascii_eqb_true in Htop as ->.
        intros (pre & post & -> & Hs)%IH.
        exists ((i, top) :: pre), post. split; [done|].
        exists [], (pre.*2). split; [done|]. split; [constructor|done].
      * destruct (closing ch) eqn:Hc; [done|].
        intros (pre & post & -> & w1 & w2 & Hw & Hn & Hs)%IH.
        exists ((i, ch) :: pre), post. split; [done|].
        exists (ch :: w1), w2. split; [|split; [|done]].
        -- cbn [fmap list_fmap snd].
           change (list_fmap _ _ snd pre) with (pre.*2). by rewrite Hw.
        -- by constructor.
Qed.


Lemma single_breaks_tail (c : ascii) (src : list ascii) :
  single_breaks (c :: src) -> single_breaks src.
Proof. intros H a b ->. by apply (H (c :: a) b). Qed.

Lemma single_breaks_app (a b : list ascii) :
  single_breaks (a ++ b) -> single_breaks b.
Proof.
  induction a as [|c a IH]; [done|]. intros H. apply IH.
  by eapply single_breaks_tail.
Qed.

(** The first line that [splitlines] finds, and where the next one
    starts. *)
Lemma splitlines_from_first (here : list ascii) :
  forall line,
    single_breaks here ->
    (here = [] /\ splitlines_from line here
                  = match line with [] => [] | _ => [rev line] end)
    \/ exists body,
         Forall (fun c => is_line_break c = false) body
         /\ ((here = body /\ body <> []
              /\ splitlines_from line here = [rev line ++ body])
             \/ exists b tail,
                  is_line_break b = true
                  /\ here = body ++ b :: tail
                  /\ splitlines_from line here
                     = (rev line ++ body) :: splitlines_from [] tail).
Proof.
  induction here as [|c here IH]; intros line Hs; [by left|]. right.
  cbn [splitlines_from]. destruct (is_line_break c) eqn:Hc.
  - exists []. split; [constructor|]. right. exists c, here.
    split; [done|]. split; [done|]. rewrite app_nil_r.
    destruct here as [|c1 here2]; [done|].
    destruct (Ascii.eqb c carriage_return && Ascii.eqb c1 newline) eqn:E;
      [|done].
    apply andb_true_iff in E as [->%ascii_eqb_true ->%ascii_eqb_true].
    by destruct (Hs [] here2).
  - destruct (IH (c :: line) (single_breaks_tail _ _ Hs))
      as [[-> E]|(body & Hbody & [(-> & Hne & E)|(b & tail & Hb & -> & E)])].
    + exists [c]. split; [by repeat constructor|]. left.
      split; [done|]. split; [done|]. by rewrite E.
    + exists (c :: body). split; [by constructor|]. left.
      split; [done|]. split; [done|]. rewrite E. cbn [rev].
      by rewrite <- app_assoc.
    + exists (c :: body). split; [by constructor|]. right.
      exists b, tail. split; [done|]. split; [done|]. rewrite E. cbn [rev].
      by rewrite <- app_assoc.
Qed.

Lemma get_src_index_line (i : nat) :
  forall src line col,
    single_breaks src ->
    splitlines src !! i = Some line ->
    col <= length line ->
    take (length line - col) (drop (get_src_index src (S i) col) src)
    = drop col line.
Proof.
  unfold get_src_index, splitlines.
  induction i as [|i IH]; intros src line col Hs Hline Hcol.
  - rewrite !take_0. change (list_sum (map length []) + length (@nil (list ascii)) + col) with col.
    destruct (splitlines_from_first src [] Hs)
      as [[-> E]|(body & Hbody & [(-> & Hne & E)|(b & tail & Hb & -> & E)])];
      rewrite E in Hline; try done; cbn in Hline; injection Hline as <-.
    + rewrite take_drop_commute. by rewrite take_ge by lia.
    + rewrite take_drop_commute.
      replace (col + (length body - col)) with (length body) by lia.
      by rewrite take_app_length.
  - destruct (splitlines_from_first src [] Hs)
      as [[-> E]|(body & Hbody & [(-> & Hne & E)|(b & tail & Hb & -> & E)])];
      rewrite E in Hline |- *; try done.
    cbn [rev app] in Hline |- *. cbn in Hline.
    rewrite firstn_cons. cbn [map list_sum length].
    specialize (IH tail line col
                  (single_breaks_tail b tail
                     (single_breaks_app body (b :: tail) Hs))
                  Hline Hcol).
    rewrite <- IH. f_equal.
    set (L := take i (splitlines_from [] tail)).
    match goal with
    | |- drop ?n _ = _ =>
        replace n
          with (length (body ++ [b])
                + (list_sum (map length L) + length L + col))
          by (rewrite length_app; simpl; lia)
    end.
    rewrite <- drop_drop.
    replace (body ++ b :: tail) with ((body ++ [b]) ++ tail)
      by (by rewrite <- app_assoc).
    by rewrite drop_app_length.
Qed.

Lemma single_breaks_no_cr (src : list ascii) :
  carriage_return ∉ src -> single_breaks src.
Proof.
  intros Hcr a b ->. apply Hcr. apply elem_of_app. right. left.
Qed.

(** Extra X4.  In a text whose line breaks are one character long (no
    carriage return followed by a line feed), [get_src_index] maps line
    number [i + 1] and a column [col] within that line to the index at which
    the rest of the line, from that column on, stands in the text; the
    character there is the character at [col] of the line. *)
Theorem get_src_index_spec (src : list ascii) (i col : nat)
    (line : list ascii) :
  single_breaks src ->
  splitlines src !! i = Some line ->
  col <= length line ->
  take (length line - col) (drop (get_src_index src (S i) col) src)
  = drop col line
  /\ (forall c, line !! col = Some c ->
        src !! get_src_index src (S i) col = Some c).
Proof.
  intros Hs Hline Hcol.
  pose proof (get_src_index_line i src line col Hs Hline Hcol) as E.
  split; [done|]. intros c Hc.
  assert (drop col line !! 0 = Some c) as H0.
  { rewrite lookup_drop. by rewrite Nat.add_0_r. }
  rewrite <- E in H0. apply lookup_take_Some in H0 as [H0 _].
  rewrite lookup_drop in H0. by rewrite Nat.add_0_r in H0.
Qed.

Lemma get_src_index_spec_witness :
  single_breaks (text_of "a" ++ [newline] ++ text_of "bc")
  /\ splitlines (text_of "a" ++ [newline] ++ text_of "bc") !! 1
     = Some (text_of "bc")
  /\ 1 <= length (text_of "bc")
  /\ (text_of "a" ++ [newline] ++ text_of "bc")
       !! get_src_index (text_of "a" ++ [newline] ++ text_of "bc") 2 1
     = Some "c".
Proof.
  assert (single_breaks (text_of "a" ++ [newline] ++ text_of "bc")) as Hs.
  { apply single_breaks_no_cr. intros H.
    repeat (apply elem_of_cons in H as [H|H]; [discriminate|]).
    by apply elem_of_nil in H. }
  split; [done|]. split; [reflexivity|]. split; [simpl; lia|].
  apply (get_src_index_spec _ 1 1 (text_of "bc") Hs eq_refl); [simpl; lia|].
  reflexivity.
Defined.

(** Extra X7.  For [maxlen >= 3], [ellipsis string maxlen] is never longer
    than [maxlen]: a string of at most [maxlen] characters is returned as it
    is, and a longer one is cut to its first [maxlen - 3] characters
    followed by three periods, [maxlen] characters in all. *)
Theorem ellipsis_fits (string : list ascii) (maxlen : Z) :
  (3 <= maxlen)%Z ->
  (Z.of_nat (length (ellipsis string maxlen)) <= maxlen)%Z
  /\ ((Z.of_nat (length string) <= maxlen)%Z -> ellipsis string maxlen = string)
  /\ ((maxlen < Z.of_nat (length string))%Z ->
      ellipsis string maxlen
      = take (Z.to_nat (maxlen - 3)) string ++ text_of "..."
      /\ Z.of_nat (length (ellipsis string maxlen)) = maxlen).
Proof.
  intros Hmax. unfold ellipsis, slice_to.
  destruct (Z.gtb_spec (Z.of_nat (length string)) maxlen) as [Hlong|Hshort].
  - destruct (Z.ltb_spec (maxlen - 3) 0); [lia|].
    assert (Z.of_nat (length (take (Z.to_nat (maxlen - 3)) string
                               ++ text_of "...")) = maxlen) as Hlen.
    { rewrite length_app, length_take. cbn [text_of list_ascii_of_string length].
      lia. }
    split; [lia|]. split; [lia|done].
  - split; [lia|]. split; [done|lia].
Qed.

Lemma ellipsis_fits_witness :
  (3 <= 5)%Z
  /\ ellipsis (text_of "abcdefgh") 5 = text_of "ab...".
Proof.
  split; [lia|].
  destruct (ellipsis_fits (text_of "abcdefgh") 5 ltac:(lia)) as (_ & _ & H).
  assert (5 < Z.of_nat (length (text_of "abcdefgh")))%Z as Hlong
    by (vm_compute; reflexivity).
  destruct (H Hlong) as [-> _]. reflexivity.
Defined.

(** Extra X8.  For [maxlen < 3] the bound fails: a string longer than
    [maxlen] comes back longer than [maxlen], as the string without its last
    [3 - maxlen] characters followed by three periods ([maxlen - 3] is a
    negative slice bound, counted from the end). *)
Theorem ellipsis_overlong (string : list ascii) (maxlen : Z) :
  (maxlen < 3)%Z ->
  (maxlen < Z.of_nat (length string))%Z ->
  (maxlen < Z.of_nat (length (ellipsis string maxlen)))%Z
  /\ length (ellipsis string maxlen)
     = length string - Z.to_nat (3 - maxlen) + 3.
Proof.
  intros Hmax Hlong. unfold ellipsis, slice_to.
  destruct (Z.gtb_spec (Z.of_nat (length string)) maxlen); [|lia].
  destruct (Z.ltb_spec (maxlen - 3) 0); [|lia].
  rewrite length_app, length_take.
  cbn [text_of list_ascii_of_string length].
  replace (- (maxlen - 3))%Z with (3 - maxlen)%Z by lia. lia.
Qed.

Lemma ellipsis_overlong_witness :
  (2 < 3)%Z /\ (2 < Z.of_nat (length (text_of "abcd")))%Z
  /\ (2 < Z.of_nat (length (ellipsis (text_of "abcd") 2)))%Z
  /\ length (ellipsis (text_of "abcd") 2) = 6.
Proof.
  split; [lia|]. split; [vm_compute; reflexivity|].
  apply (ellipsis_overlong (text_of "abcd") 2); [lia|vm_compute; reflexivity].
Defined.

Lemma limited_repr_loop_short lines n head :
  limited_repr_loop lines n = Some head -> length head < 240.
Proof.
  induction n as [|n IH]; [done|]. cbn [limited_repr_loop].
  destruct (_ <? 240)%nat eqn:E; [|done].
  intros [= <-]. by apply Nat.ltb_lt in E.
Qed.

(** Extra X13.  [limited_repr string] is at most 243 characters long: it
    is shorter than 240 characters, or it is the first 240 characters of the
    string followed by three periods. *)
Theorem limited_repr_bound (string : list ascii) :
  length (limited_repr string) <= 243
  /\ (length (limited_repr string) < 240
      \/ limited_repr string = take 240 string ++ text_of "...").
Proof.
  assert (length (take 240 string ++ text_of "...") <= 243) as Hcut.
  { rewrite length_app, length_take.
    cbn [text_of list_ascii_of_string length]. lia. }
  unfold limited_repr.
  destruct (_ && _) eqn:Hshort.
  { apply andb_true_iff in Hshort as [H%Nat.ltb_lt _]. lia. }
  destruct (limited_repr_loop _ _) as [head|] eqn:Hloop.
  - apply limited_repr_loop_short in Hloop.
    destruct (_ <? 12)%nat; [split; [done|by right]|].
    split; [lia|left; lia].
  - destruct (_ <? 12)%nat; (split; [done|by right]).
Qed.

Lemma splitlines_from_body (body : list ascii) :
  forall line rest,
    break_free body ->
    splitlines_from line (body ++ rest)
    = splitlines_from (rev body ++ line) rest.
Proof.
  induction body as [|c body IH]; intros line rest Hb; [done|].
  apply Forall_cons in Hb as [Hc Hb]. cbn [app splitlines_from].
  rewrite Hc, IH by done. cbn [rev]. by rewrite <- app_assoc.
Qed.

Lemma splitlines_from_newline (line rest : list ascii) :
  splitlines_from line (newline :: rest)
  = rev line :: splitlines_from [] rest.
Proof. by destruct rest. Qed.

Lemma splitlines_join (lines : list (list ascii)) :
  Forall break_free lines ->
  splitlines (str_join [newline] lines) = without_last_empty lines.
Proof.
  unfold splitlines.
  induction lines as [|l lines IH]; intros Hb; [done|].
  apply Forall_cons in Hb as [Hl Hb]. cbn [str_join].
  rewrite splitlines_from_body by done. rewrite app_nil_r.
  destruct lines as [|q lines].
  - cbn. destruct l as [|c l]; [done|].
    destruct (rev (c :: l)) as [|x r] eqn:E.
    { apply (f_equal length) in E. rewrite length_rev in E. done. }
    by rewrite <- E, rev_involutive.
  - cbn [flat_map app]. rewrite splitlines_from_newline, rev_involutive.
    cbn [without_last_empty]. f_equal. by apply IH.
Qed.

Lemma without_last_empty_nonempty (lines : list (list ascii)) :
  Forall (fun l => l <> []) lines -> without_last_empty lines = lines.
Proof.
  induction 1 as [|l lines Hl _ IH]; [done|].
  cbn [without_last_empty]. destruct lines as [|q lines].
  - by destruct l.
  - by rewrite IH.
Qed.

Lemma splitlines_from_nil (here : list ascii) :
  forall line, splitlines_from line here = [] -> line = [] /\ here = [].
Proof.
  induction here as [|c here IH]; intros line; cbn [splitlines_from].
  - by destruct line.
  - destruct (is_line_break c).
    + destruct here as [|c1 here2]; [done|]. by destruct (_ && _).
    + by intros [? ?]%IH.
Qed.

Lemma splitlines_from_break_free (here : list ascii) :
  forall line,
    break_free line -> Forall break_free (splitlines_from line here).
Proof.
  remember (length here) as len eqn:Hlen. revert here Hlen.
  induction len as [len IH] using lt_wf_ind. intros here Hlen line Hline.
  assert (break_free (rev line)) as Hrev.
  { by apply Forall_rev. }
  destruct here as [|c here]; cbn [splitlines_from].
  - destruct line; [constructor|]. by repeat constructor.
  - destruct (is_line_break c) eqn:Hc.
    + destruct here as [|c1 here2]; [by repeat constructor|].
      destruct (_ && _); (constructor; [done|]).
      * eapply (IH (length here2)); [simpl in Hlen; lia|done|constructor].
      * eapply (IH (length (c1 :: here2))); [simpl in *; lia|done|constructor].
    + eapply (IH (length here)); [simpl in Hlen; lia|done|by constructor].
Qed.

Lemma splitlines_break_free (text : list ascii) :
  Forall break_free (splitlines text).
Proof. apply splitlines_from_break_free. constructor. Qed.

Lemma indent_join (ind : list ascii) (lines : list (list ascii)) :
  lines <> [] ->
  ind ++ str_join (newline :: ind) lines
  = str_join [newline] (map (app ind) lines).
Proof.
  destruct lines as [|l lines]; [done|]. intros _. cbn [str_join map].
  rewrite <- app_assoc. do 2 f_equal.
  induction lines as [|q lines IH]; [done|]. cbn [flat_map map].
  rewrite IH. cbn [app]. by rewrite <- !app_assoc.
Qed.

Lemma spaces_break_free (n : nat) : break_free (repeat " " n).
Proof. induction n; by constructor. Qed.

Lemma indented_lines (ind : list ascii) (lines : list (list ascii)) :
  break_free ind -> ind <> [] -> Forall break_free lines ->
  splitlines (str_join [newline] (map (app ind) lines))
  = map (app ind) lines.
Proof.
  intros Hind Hne Hlines. rewrite splitlines_join.
  - apply without_last_empty_nonempty. apply Forall_fmap, Forall_forall.
    intros l _. cbn. by destruct ind.
  - apply Forall_fmap. eapply Forall_impl; [exact Hlines|].
    intros l Hl. cbn. by apply Forall_app.
Qed.

(** Extra X9.  For a positive [level] and a message that is not empty,
    the lines of [indent msg level] are the lines of [msg], each after
    [level] blanks. *)
Theorem indent_lines (msg : list ascii) (level : Z) :
  (0 < level)%Z -> msg <> [] ->
  splitlines (indent msg level)
  = map (app (repeat " " (Z.to_nat level))) (splitlines msg).
Proof.
  intros Hlevel Hmsg. unfold indent.
  assert (splitlines msg <> []) as Hlines.
  { intros E. by apply splitlines_from_nil in E as [_ ?]. }
  rewrite indent_join by done.
  apply indented_lines.
  - apply spaces_break_free.
  - destruct (Z.to_nat level) eqn:E; [lia|done].
  - apply splitlines_break_free.
Qed.

(** Extra X10.  Indenting by [a > 0] and then by [b >= 0] is indenting by
    [a + b]. *)
Theorem indent_indent (msg : list ascii) (a b : Z) :
  (0 < a)%Z -> (0 <= b)%Z ->
  indent (indent msg a) b = indent msg (a + b).
Proof.
  intros Ha Hb.
  assert (repeat " " (Z.to_nat (a + b))
          = repeat " " (Z.to_nat b) ++ repeat " " (Z.to_nat a)) as Hrep.
  { rewrite <- repeat_app. f_equal. lia. }
  assert (repeat " " (Z.to_nat a) <> []) as Hne.
  { destruct (Z.to_nat a) eqn:E; [lia|done]. }
  unfold indent at 1 3. rewrite Hrep.
  destruct (splitlines msg) as [|l lines] eqn:Hlines.
  - unfold indent. rewrite Hlines. cbn [str_join]. rewrite app_nil_r.
    replace (repeat " " (Z.to_nat a))
      with (str_join [newline] (map (app (repeat " " (Z.to_nat a))) [[]]))
      at 1 by (cbn; by rewrite !app_nil_r).
    rewrite indented_lines; [|apply spaces_break_free|done|by repeat constructor].
    cbn. by rewrite !app_nil_r.
  - unfold indent. rewrite Hlines.
    rewrite (indent_join (repeat " " (Z.to_nat a))) by done.
    rewrite indented_lines; [|apply spaces_break_free|done|].
    2:{ rewrite <- Hlines. apply splitlines_break_free. }
    rewrite !indent_join by done. f_equal.
    rewrite <- list_fmap_compose. apply list_fmap_ext.
    intros i x _. cbn. by rewrite <- app_assoc.
Qed.

Lemma lstrip_suffix (s : list ascii) : lstrip s `suffix_of` s.
Proof.
  induction s as [|c s IH]; [done|]. cbn [lstrip].
  destruct (isspace c); [|done]. by apply suffix_cons_r.
Qed.

Lemma lstrip_starts (s : list ascii) (c : ascii) (t : list ascii) :
  lstrip s = c :: t -> isspace c = false.
Proof.
  induction s as [|x s IH]; [done|]. cbn [lstrip].
  destruct (isspace x) eqn:E; [done|]. by intros [= <- _].
Qed.

Lemma lstrip_idem (s : list ascii) : lstrip (lstrip s) = lstrip s.
Proof.
  destruct (lstrip s) as [|c t] eqn:E; [done|].
  apply lstrip_starts in E. cbn [lstrip]. by rewrite E.
Qed.

Lemma rstrip_idem (l : list ascii) : no_trailing_space (rstrip l).
Proof.
  unfold no_trailing_space, rstrip. by rewrite rev_involutive, lstrip_idem.
Qed.

Lemma rstrip_break_free (l : list ascii) :
  break_free l -> break_free (rstrip l).
Proof.
  intros Hl. unfold rstrip. apply Forall_rev.
  destruct (lstrip_suffix (rev l)) as [k E].
  apply Forall_rev in Hl. rewrite E in Hl.
  by apply Forall_app in Hl as [_ ?].
Qed.

Lemma no_trailing_space_last (l : list ascii) (c : ascii) :
  no_trailing_space l -> last l = Some c -> isspace c = false.
Proof.
  unfold no_trailing_space, rstrip. intros Hl Hc.
  destruct l as [|x l _] using rev_ind; [done|].
  rewrite last_snoc in Hc. injection Hc as ->.
  rewrite rev_unit in Hl. apply (f_equal (@rev ascii)) in Hl.
  rewrite rev_involutive, rev_unit in Hl. by apply lstrip_starts in Hl.
Qed.

Lemma str_join_snoc (sep : list ascii) (lines : list (list ascii))
    (q : list ascii) :
  lines <> [] ->
  str_join sep (lines ++ [q]) = str_join sep lines ++ sep ++ q.
Proof.
  destruct lines as [|l lines]; [done|]. intros _. cbn [app str_join].
  rewrite flat_map_app. cbn. by rewrite app_nil_r, <- app_assoc.
Qed.

Lemma without_last_empty_snoc_empty (lines : list (list ascii)) :
  without_last_empty (lines ++ [[]]) = lines.
Proof.
  induction lines as [|l lines IH]; [done|]. cbn [app without_last_empty].
  destruct lines as [|q lines]; [done|]. cbn [app] in IH |- *.
  by rewrite IH.
Qed.

Lemma without_last_empty_snoc (lines : list (list ascii)) (x : list ascii) :
  x <> [] -> without_last_empty (lines ++ [x]) = lines ++ [x].
Proof.
  intros Hx. induction lines as [|l lines IH]; [by destruct x|].
  cbn [app without_last_empty]. rewrite IH.
  by destruct lines.
Qed.

(** What [splitlines] makes of the lines that [trimWhitespace] has joined
    again. *)
Lemma trimmed_lines (lines : list (list ascii)) (final : bool) :
  Forall break_free lines ->
  Forall no_trailing_space lines ->
  (final = true -> lines <> []) ->
  let r := str_join [newline] lines ++ (if final then [newline] else []) in
  exists lines',
    splitlines r = lines'
    /\ Forall no_trailing_space lines'
    /\ r = str_join [newline] lines'
           ++ (if endswith_newline r then [newline] else []).
Proof.
  intros Hb Hfixed Hfinal r. subst r. destruct final.
  - assert (str_join [newline] lines ++ [newline]
            = str_join [newline] (lines ++ [[]])) as Hr.
    { rewrite str_join_snoc by auto. by rewrite app_nil_r. }
    exists lines. split; [|split; [done|]].
    + rewrite Hr, splitlines_join.
      * apply without_last_empty_snoc_empty.
      * apply Forall_app. split; [done|]. by repeat constructor.
    + unfold endswith_newline. by rewrite last_snoc.
  - rewrite app_nil_r. rewrite splitlines_join by done.
    destruct lines as [|x init _] using rev_ind.
    { by exists []. }
    apply Forall_app in Hfixed as [Hinit Hx].
    apply Forall_cons in Hx as [Hx _].
    destruct x as [|c x].
    + exists init. rewrite without_last_empty_snoc_empty.
      split; [done|]. split; [done|].
      destruct init as [|l init]; [done|].
      rewrite str_join_snoc by done. rewrite app_nil_r.
      unfold endswith_newline. by rewrite last_snoc.
    + exists (init ++ [c :: x]).
      rewrite without_last_empty_snoc by done. split; [done|].
      split; [apply Forall_app; split; [done|by repeat constructor]|].
      assert (last (str_join [newline] (init ++ [c :: x]))
              = last (c :: x)) as Hlast.
      { destruct init as [|l init].
        - cbn. by rewrite app_nil_r.
        - rewrite str_join_snoc by done.
          rewrite !last_app. destruct (last (c :: x)) eqn:E; [done|].
          by apply last_None in E. }
      unfold endswith_newline. rewrite Hlast.
      destruct (last (c :: x)) as [z|] eqn:Hz; [|by rewrite app_nil_r].
      pose proof (no_trailing_space_last _ _ Hx Hz) as Hspace.
      destruct (Ascii.eqb z newline) eqn:E; [|by rewrite app_nil_r].
      apply ascii_eqb_true in E as ->. done.
Qed.

Lemma trimWhitespace_shape (st : list ascii) :
  exists lines',
    splitlines (trimWhitespace st false) = lines'
    /\ Forall no_trailing_space lines'
    /\ trimWhitespace st false
       = str_join [newline] lines'
         ++ (if endswith_newline (trimWhitespace st false) then [newline]
             else []).
Proof.
  unfold trimWhitespace at 1 2 3. cbv zeta.
  assert (forall t : list ascii,
            (if endswith_newline st then t ++ [newline] else t)
            = t ++ (if endswith_newline st then [newline] else [])) as Hif.
  { intros t. destruct (endswith_newline st); [done|by rewrite app_nil_r]. }
  rewrite Hif. apply trimmed_lines.
  - apply Forall_fmap. eapply Forall_impl; [apply splitlines_break_free|].
    intros l Hl. by apply rstrip_break_free.
  - apply Forall_fmap, Forall_forall. intros l _. apply rstrip_idem.
  - intros Hend E. apply fmap_nil_inv in E.
    apply splitlines_from_nil in E as [_ ->]. done.
Qed.

(** Extra X11.  [trimWhitespace] (with [requireNewline] false) is
    idempotent, and no line of its result ends with whitespace. *)
Theorem trimWhitespace_idempotent (st : list ascii) :
  trimWhitespace (trimWhitespace st false) false = trimWhitespace st false
  /\ Forall no_trailing_space (splitlines (trimWhitespace st false)).
Proof.
  destruct (trimWhitespace_shape st) as (lines' & Hsplit & Hfixed & Hr).
  split; [|by rewrite Hsplit].
  set (r := trimWhitespace st false) in *.
  unfold trimWhitespace at 1. cbv zeta. rewrite Hsplit.
  replace (map rstrip lines') with lines'.
  - transitivity (str_join [newline] lines'
                  ++ (if endswith_newline r then [newline] else []));
      [|by symmetry].
    destruct (endswith_newline r); [done|by rewrite app_nil_r].
  - clear Hr Hsplit. induction Hfixed as [|l lines' Hl _ IH]; [done|].
    cbn. by rewrite Hl, <- IH.
Qed.

Lemma indent_lines_witness :
  (0 < 2)%Z /\ text_of "a" ++ [newline] ++ text_of "b" <> []
  /\ splitlines (indent (text_of "a" ++ [newline] ++ text_of "b") 2)
     = [text_of "  a"; text_of "  b"].
Proof.
  split; [lia|]. split; [done|].
  by rewrite (indent_lines (text_of "a" ++ [newline] ++ text_of "b") 2
                ltac:(lia) ltac:(done)).
Defined.

Lemma indent_indent_witness :
  (0 < 2)%Z /\ (0 <= 4)%Z
  /\ indent (indent (text_of "a" ++ [newline] ++ text_of "b") 2) 4
     = text_of "      a" ++ [newline] ++ text_of "      b".
Proof.
  split; [lia|]. split; [lia|].
  by rewrite (indent_indent (text_of "a" ++ [newline] ++ text_of "b") 2 4
                ltac:(lia) ltac:(lia)).
Defined.

Lemma blank_not_break (c : ascii) :
  is_blank c = true ->
  Ascii.eqb c carriage_return || Ascii.eqb c newline = false.
Proof.
  unfold is_blank. intros [E|E]%orb_true_iff;
    apply ascii_eqb_true in E; by subst.
Qed.

Lemma blank_before_break_cons (b c : ascii) (t : list ascii) :
  blank_before_break (b :: c :: t)
  = (is_blank b && (Ascii.eqb c carriage_return || Ascii.eqb c newline))
    || blank_before_break (c :: t).
Proof. done. Qed.

Lemma blank_before_break_run (run : list ascii) (c : ascii) (t : list ascii) :
  Forall (fun b => is_blank b = true) run ->
  Ascii.eqb c carriage_return || Ascii.eqb c newline = false ->
  blank_before_break (run ++ c :: t) = blank_before_break (c :: t).
Proof.
  intros Hrun Hc. induction run as [|b run IH]; [done|].
  apply Forall_cons in Hrun as [Hb Hrun]. specialize (IH Hrun).
  destruct run as [|b' run]; cbn [app] in IH |- *;
    rewrite blank_before_break_cons.
  - by rewrite Hc, andb_false_r.
  - apply Forall_cons in Hrun as [Hb' _].
    by rewrite IH, (blank_not_break b' Hb'), andb_false_r.
Qed.

Lemma blank_before_break_blanks (run : list ascii) :
  Forall (fun b => is_blank b = true) run -> blank_before_break run = false.
Proof.
  intros Hrun. induction run as [|b run IH]; [done|].
  apply Forall_cons in Hrun as [Hb Hrun]. specialize (IH Hrun).
  destruct run as [|b' run]; [done|]. rewrite blank_before_break_cons, IH.
  apply Forall_cons in Hrun as [Hb' _].
  by rewrite (blank_not_break b' Hb'), andb_false_r.
Qed.

Lemma blank_before_break_skip (c : ascii) (t : list ascii) :
  is_blank c = false ->
  blank_before_break (c :: t) = blank_before_break t.
Proof. intros Hc. cbn [blank_before_break]. rewrite Hc. by destruct t. Qed.

Lemma sub_blanks_before_break_clean (here : list ascii) :
  forall pending,
    Forall (fun b => is_blank b = true) pending ->
    blank_before_break (sub_blanks_before_break pending here) = false.
Proof.
  induction here as [|c here IH]; intros pending Hp;
    cbn [sub_blanks_before_break].
  - apply blank_before_break_blanks. by apply Forall_rev.
  - destruct (is_blank c) eqn:Hc; [apply IH; by constructor|].
    destruct (_ || _) eqn:Hbreak.
    + rewrite blank_before_break_skip by done. by apply IH.
    + rewrite blank_before_break_run by (done || by apply Forall_rev).
      rewrite blank_before_break_skip by done. by apply IH.
Qed.

Lemma sub_blanks_before_break_same (here : list ascii) :
  forall pending,
    carriage_return ∉ here -> newline ∉ here ->
    sub_blanks_before_break pending here = rev pending ++ here.
Proof.
  induction here as [|c here IH]; intros pending Hcr Hlf;
    cbn [sub_blanks_before_break].
  - by rewrite app_nil_r.
  - apply not_elem_of_cons in Hcr as [Hcr1 Hcr], Hlf as [Hlf1 Hlf].
    destruct (is_blank c).
    + rewrite IH by done. cbn [rev]. by rewrite <- app_assoc.
    + rewrite (proj2 (ascii_eqb_false c carriage_return)) by done.
      rewrite (proj2 (ascii_eqb_false c newline)) by done.
      cbn [orb]. by rewrite IH.
Qed.

(** Extra X12.  With [requireNewline] true, the result of
    [trimWhitespace] has no blank or tab directly before a carriage return
    or a line feed, and a text that holds neither a carriage return nor a
    line feed is returned as it is, trailing blanks included. *)
Theorem trimWhitespace_before_breaks (st : list ascii) :
  blank_before_break (trimWhitespace st true) = false
  /\ (carriage_return ∉ st -> newline ∉ st -> trimWhitespace st true = st).
Proof.
  unfold trimWhitespace. split.
  - apply sub_blanks_before_break_clean. constructor.
  - intros Hcr Hlf. by rewrite sub_blanks_before_break_same.
Qed.

(** ** Output capture, test runs, suites and tracing *)

(** Extra X14.  For a [CapturingStream], [install] followed by [uninstall]
    puts [sys.stdout] back to the stream it was, leaving [sys.stdin],
    [builtins.input] and the buffer as they were; but when [sys.stdout] was
    [None], [uninstall] does nothing and the capturing stream stays
    installed. *)
Theorem install_uninstall (self : nat) (rt : runtime)
    (original : option nat) (tee : bool) (buffer : list ascii) :
  streams rt !! self = Some (Capturing original tee buffer) ->
  exists rt1 rt2,
    install self rt = Returns rt1
    /\ sys_stdout rt1 = Some self
    /\ uninstall self rt1 = Returns rt2
    /\ sys_stdout rt2
       = match sys_stdout rt with
         | Some out => Some out
         | None => Some self
         end
    /\ streams rt2
       = <[self := Capturing (sys_stdout rt) tee buffer]> (streams rt)
    /\ sys_stdin rt2 = sys_stdin rt
    /\ builtins_input rt2 = builtins_input rt.
Proof.
  intros Hself.
  set (rt1 := set_stdout (Some self)
                (set_streams
                   (<[self := Capturing (sys_stdout rt) tee buffer]>
                      (streams rt)) rt)).
  assert (uninstall self rt1
          = Returns match sys_stdout rt with
                    | Some out => set_stdout (Some out) rt1
                    | None => rt1
                    end) as Hun.
  { unfold uninstall, rt1. cbn [streams set_stdout set_streams].
    rewrite list_lookup_insert_eq by (by eapply lookup_lt_Some).
    by destruct (sys_stdout rt). }
  exists rt1. eexists. unfold install. rewrite Hself.
  split; [done|]. split; [done|]. split; [exact Hun|].
  by destruct (sys_stdout rt).
Qed.

Lemma install_returns (self : nat) (rt : runtime) original tee buffer :
  streams rt !! self = Some (Capturing original tee buffer) ->
  install self rt
  = Returns
      (Runtime (Some self) (sys_stdin rt) (builtins_input rt)
         (<[self := Capturing (sys_stdout rt) tee buffer]> (streams rt))).
Proof. intros H. unfold install. by rewrite H. Qed.

(** Extra X15.  Two capturing streams uninstalled in the reverse order of
    their installation restore [sys.stdout]; uninstalled in the order of
    their installation they leave the first stream installed as
    [sys.stdout]. *)
Theorem captures_nest (a b out : nat) (rt : runtime)
    (oa ob : option nat) (ta tb : bool) (ba bb : list ascii) :
  a <> b ->
  sys_stdout rt = Some out ->
  streams rt !! a = Some (Capturing oa ta ba) ->
  streams rt !! b = Some (Capturing ob tb bb) ->
  sys_stdout
    <$> (rt ← install a rt; rt ← install b rt; rt ← uninstall b rt;
         uninstall a rt)
  = Returns (Some out)
  /\ sys_stdout
       <$> (rt ← install a rt; rt ← install b rt; rt ← uninstall a rt;
            uninstall b rt)
     = Returns (Some a).
Proof.
  intros Hab Hout Ha Hb.
  assert (a < length (streams rt)) by (by eapply lookup_lt_Some).
  assert (b < length (streams rt)) by (by eapply lookup_lt_Some).
  rewrite (install_returns a rt oa ta ba Ha). cbn [mbind outcome_bind].
  erewrite install_returns.
  2:{ cbn [streams]. by rewrite list_lookup_insert_ne. }
  cbn [mbind outcome_bind sys_stdout streams sys_stdin builtins_input].
  unfold uninstall. cbn [streams sys_stdout set_stdout].
  rewrite list_lookup_insert_eq by (by rewrite length_insert).
  cbn [mbind outcome_bind streams sys_stdout set_stdout].
  rewrite list_lookup_insert_ne by done.
  rewrite list_lookup_insert_eq by done.
  rewrite Hout. cbn [mbind outcome_bind fmap outcome_fmap streams sys_stdout
                     set_stdout].
  rewrite list_lookup_insert_eq by (by rewrite length_insert).
  done.
Qed.

Lemma captures_nest_witness :
  sys_stdout
    <$> (rt ← install 1 (Runtime (Some 0) (HostStdin 0) (HostInput 0)
                           [Terminal []; Capturing None false [];
                            Capturing None false []]);
         rt ← install 2 rt; rt ← uninstall 1 rt; uninstall 2 rt)
  = Returns (Some 1).
Proof.
  apply (captures_nest 1 2 0
           (Runtime (Some 0) (HostStdin 0) (HostInput 0)
              [Terminal []; Capturing None false []; Capturing None false []])
           None None false false [] []); [lia|reflexivity..].
Defined.

Lemma write_captured (fuel self out : nat) (stuff : list ascii)
    (ss : list stream) (tee : bool) (buffer shown : list ascii) :
  self <> out ->
  ss !! self = Some (Capturing (Some out) tee buffer) ->
  ss !! out = Some (Terminal shown) ->
  write (S (S fuel)) self stuff ss
  = Returns
      (<[self := Capturing (Some out) tee (buffer ++ stuff)]>
         (<[out := Terminal (shown ++ if tee then stuff else [])]> ss)).
Proof.
  intros Hne Hself Hout.
  assert (self < length ss) by (by eapply lookup_lt_Some).
  assert (out < length ss) by (by eapply lookup_lt_Some).
  cbn [write]. rewrite Hself. destruct tee.
  - rewrite Hout. cbn [mbind outcome_bind].
    rewrite list_lookup_insert_ne by done. by rewrite Hself.
  - cbn [mbind outcome_bind]. rewrite Hself. rewrite app_nil_r.
    by rewrite (list_insert_id ss out) by done.
Qed.

(** Extra X16.  For a capturing stream installed over another stream,
    [writelines] adds the lines, in order, to the captured text, and to the
    original stream as well exactly when [echo] was turned on; it does what
    one [write] of the lines put together does. *)
Theorem writelines_captured (fuel self out : nat)
    (lines : list (list ascii)) :
  forall (ss : list stream) (tee : bool) (buffer shown : list ascii),
    self <> out ->
    ss !! self = Some (Capturing (Some out) tee buffer) ->
    ss !! out = Some (Terminal shown) ->
    writelines (S (S fuel)) self lines ss
    = Returns
        (<[self := Capturing (Some out) tee (buffer ++ concat lines)]>
           (<[out := Terminal (shown ++ if tee then concat lines else [])]>
              ss))
    /\ writelines (S (S fuel)) self lines ss
       = write (S (S fuel)) self (concat lines) ss.
Proof.
  induction lines as [|line lines IH]; intros ss tee buffer shown Hne Hself Hout.
  - assert (E : Returns ss
              = Returns
                  (<[self := Capturing (Some out) tee (buffer ++ [])]>
                     (<[out := Terminal (shown ++ if tee then [] else [])]>
                        ss)) :> outcome (list stream)).
    { rewrite app_nil_r. replace (if tee then [] else []) with (@nil ascii)
        by (by destruct tee).
      rewrite app_nil_r. rewrite (list_insert_id ss out) by done.
      by rewrite list_insert_id. }
    cbn [writelines concat]. split; [done|].
    by rewrite (write_captured fuel self out [] ss tee buffer shown).
  - assert (self < length ss) by (by eapply lookup_lt_Some).
    assert (out < length ss) by (by eapply lookup_lt_Some).
    assert (writelines (S (S fuel)) self (line :: lines) ss
            = Returns
                (<[self := Capturing (Some out) tee
                             (buffer ++ concat (line :: lines))]>
                   (<[out := Terminal
                               (shown ++ if tee then concat (line :: lines)
                                         else [])]> ss))) as E.
    { cbn [writelines].
      rewrite (write_captured fuel self out line ss tee buffer shown) by done.
      cbn [mbind outcome_bind].
      destruct (IH (<[self:=Capturing (Some out) tee (buffer ++ line)]>
                      (<[out:=Terminal (shown ++ (if tee then line else []))]>
                         ss))
                  tee (buffer ++ line) (shown ++ if tee then line else [])
                  Hne) as [-> _].
      - rewrite list_lookup_insert_eq; [done|by rewrite length_insert].
      - rewrite list_lookup_insert_ne by done.
        by rewrite list_lookup_insert_eq.
      - f_equal. rewrite (list_insert_insert_ne _ out self) by done.
        rewrite !list_insert_insert_eq.
        cbn [concat]. rewrite <- !app_assoc.
        by destruct tee; rewrite ?app_nil_r. }
    split; [done|]. rewrite E.
    by rewrite (write_captured fuel self out _ ss tee buffer shown).
Qed.

Lemma _run_prelude (rt : runtime) (tee : bool) :
  (install (length (streams rt))
     (set_streams (streams rt ++ [Capturing None false []])
        (set_input (echoing_input (builtins_input rt)) rt))
   ≫= fun rt0 : runtime =>
        if tee then echo (length (streams rt)) true rt0 else Returns rt0)
  = Returns
      (Runtime (Some (length (streams rt))) (sys_stdin rt)
         (echoing_input (builtins_input rt))
         (streams rt ++ [Capturing (sys_stdout rt) tee []])).
Proof.
  unfold install.
  cbn [streams set_streams set_input sys_stdout sys_stdin builtins_input].
  rewrite lookup_app_r, Nat.sub_diag by lia. cbn [lookup list_lookup].
  cbn [mbind outcome_bind]. rewrite insert_app_r_alt, Nat.sub_diag by lia.
  cbn [insert list_insert]. destruct tee; [|done].
  unfold echo.
  cbn [streams set_streams set_stdout sys_stdout sys_stdin builtins_input].
  rewrite lookup_app_r, Nat.sub_diag by lia. cbn [lookup list_lookup].
  rewrite insert_app_r_alt, Nat.sub_diag by lia. done.
Qed.

Lemma _run_steps (format_exc : exn -> list ascii) (SHOW_OUTPUT : bool)
    (self_echo : option bool) (self_inputs : option (list (list ascii)))
    (payload : runtime -> payload_outcome * runtime) (rt : runtime) :
  keeps_captures payload ->
  let capture := length (streams rt) in
  let started :=
    Runtime (Some capture)
      match self_inputs with
      | Some inputs => FakeInput (str_join [newline] inputs)
      | None => sys_stdin rt
      end
      (echoing_input (builtins_input rt))
      (streams rt
       ++ [Capturing (sys_stdout rt) (default SHOW_OUTPUT self_echo) []]) in
  exists out tee,
    streams (payload started).2 !! capture
    = Some (Capturing (sys_stdout rt) tee out)
    /\ _run format_exc SHOW_OUTPUT self_echo self_inputs payload rt
       = (match (payload started).1 with
          | Returned value =>
              Returns
                (Results (Some out) None None
                   match value with NoResult => None | _ => Some value end
                   false)
          | RaisedException e =>
              Returns
                (Results (Some out) (Some e) (Some (format_exc e)) None false)
          | RaisedOther what => Raises (OtherException what)
          end,
         Runtime
           match sys_stdout rt with
           | Some original => Some original
           | None => sys_stdout (payload started).2
           end
           match self_inputs with
           | Some _ => sys_stdin rt
           | None => sys_stdin (payload started).2
           end
           (builtins_input rt)
           (streams (payload started).2)).
Proof.
  intros Hkeeps capture started.
  assert (streams started !! capture
          = Some (Capturing (sys_stdout rt) (default SHOW_OUTPUT self_echo) []))
    as Hcap.
  { unfold started, capture. cbn [streams].
    by rewrite lookup_app_r, Nat.sub_diag by lia. }
  destruct (payload started) as [ended rt'] eqn:Hpay.
  destruct (Hkeeps _ _ _ _ _ _ _ Hpay Hcap) as (tee & out & Hcap').
  exists out, tee. split; [done|].
  unfold _run, CapturingStream.
  cbn [streams set_streams set_input sys_stdout sys_stdin builtins_input].
  rewrite _run_prelude.
  replace (match self_inputs with
           | Some inputs =>
               set_stdin (FakeInput (str_join [newline] inputs))
                 (Runtime (Some (length (streams rt))) (sys_stdin rt)
                    (echoing_input (builtins_input rt))
                    (streams rt
                     ++ [Capturing (sys_stdout rt)
                           (default SHOW_OUTPUT self_echo) []]))
           | None =>
               Runtime (Some (length (streams rt))) (sys_stdin rt)
                 (echoing_input (builtins_input rt))
                 (streams rt
                  ++ [Capturing (sys_stdout rt)
                        (default SHOW_OUTPUT self_echo) []])
           end) with started by (unfold started; by destruct self_inputs).
  rewrite Hpay. cbn [fst snd].
  unfold uninstall, getvalue. fold capture. rewrite Hcap'.
  destruct (sys_stdout rt) as [original|];
    cbn [set_input set_stdin set_stdout streams sys_stdout sys_stdin
         builtins_input];
    destruct self_inputs;
    cbn [set_input set_stdin set_stdout streams sys_stdout sys_stdin
         builtins_input];
    rewrite ?Hcap'; by destruct ended.
Qed.

(** Extra X17.  Whatever the payload does to them, and whether it
    returns or raises, [_run] leaves [builtins.input] as it found it,
    [sys.stdout] as it found it when it was not [None], and [sys.stdin] as
    it found it when inputs were provided (it does not touch [sys.stdin]
    otherwise); it returns a results dictionary unless the payload raised
    something that is not an [Exception], which it lets through.  The
    payload is only assumed to leave the attributes of existing capturing
    streams alone. *)
Theorem _run_restores (format_exc : exn -> list ascii) (SHOW_OUTPUT : bool)
    (self_echo : option bool) (self_inputs : option (list (list ascii)))
    (payload : runtime -> payload_outcome * runtime) (rt : runtime) :
  keeps_captures payload ->
  exists o rt',
    _run format_exc SHOW_OUTPUT self_echo self_inputs payload rt = (o, rt')
    /\ builtins_input rt' = builtins_input rt
    /\ (forall original,
          sys_stdout rt = Some original -> sys_stdout rt' = Some original)
    /\ (forall inputs,
          self_inputs = Some inputs -> sys_stdin rt' = sys_stdin rt)
    /\ ((exists res, o = Returns res)
        \/ exists what, o = Raises (OtherException what)).
Proof.
  intros Hkeeps.
  destruct (_run_steps format_exc SHOW_OUTPUT self_echo self_inputs payload
              rt Hkeeps) as (out & tee & _ & ->).
  eexists _, _. split; [done|]. cbn [builtins_input sys_stdout sys_stdin].
  split; [done|]. split; [by intros original ->|].
  split; [by intros inputs ->|].
  destruct (payload _).1; [left|left|right]; by eexists.
Qed.

Lemma keeps_captures_id (ended : payload_outcome) :
  keeps_captures (fun rt => (ended, rt)).
Proof.
  intros rt ended' rt' a original tee buffer [= <- <-] H. by eexists _, _.
Qed.

Lemma _run_restores_witness :
  exists o rt',
    _run (fun _ => []) false None (Some [text_of "yes"])
      (fun rt => (Returned ValNone, rt))
      (Runtime (Some 0) (HostStdin 0) (HostInput 0) [Terminal []])
    = (o, rt')
    /\ builtins_input rt' = HostInput 0
    /\ sys_stdout rt' = Some 0
    /\ sys_stdin rt' = HostStdin 0.
Proof.
  destruct (_run_restores (fun _ => []) false None (Some [text_of "yes"])
              (fun rt => (Returned ValNone, rt))
              (Runtime (Some 0) (HostStdin 0) (HostInput 0) [Terminal []])
              (keeps_captures_id _))
    as (o & rt' & E & Hinput & Hout & Hin & _).
  exists o, rt'. split; [done|]. split; [done|].
  split; [by apply Hout|by eapply Hin].
Defined.

Lemma keeps_captures_returning_None execute :
  keeps_captures execute -> keeps_captures (returning_None execute).
Proof.
  intros H rt ended rt' a original tee buffer E Ha. unfold returning_None in E.
  destruct (execute rt) as [ended0 rt0] eqn:E0. injection E as _ <-.
  by eapply H.
Qed.

(** Extra X18.  The results of a file case (and of a block case, whose
    payload likewise returns nothing) that ran without error have a
    [result] entry, holding [None]; when the run raised there is no
    [result] entry and the traceback is recorded. *)
Theorem FileCase_run_has_result (format_exc : exn -> list ascii)
    (SHOW_OUTPUT : bool) (self_echo : option bool)
    (self_inputs : option (list (list ascii)))
    (exec_file : runtime -> payload_outcome * runtime)
    (rt rt' : runtime) (res : results) :
  keeps_captures exec_file ->
  FileCase_run format_exc SHOW_OUTPUT self_echo self_inputs exec_file rt
  = (Returns res, rt') ->
  BlockCase_run format_exc SHOW_OUTPUT self_echo self_inputs exec_file rt
  = (Returns res, rt')
  /\ match error res with
     | None => result res = Some ValNone /\ traceback res = None
     | Some e => result res = None /\ traceback res = Some (format_exc e)
     end.
Proof.
  intros Hkeeps Hrun. split; [done|]. unfold FileCase_run in Hrun.
  destruct (_run_steps format_exc SHOW_OUTPUT self_echo self_inputs
              (returning_None exec_file) rt
              (keeps_captures_returning_None _ Hkeeps))
    as (out & tee & _ & E).
  rewrite E in Hrun. clear E. unfold returning_None in Hrun.
  destruct (exec_file _) as [ended rt0]. cbn [fst snd] in Hrun.
  destruct ended; by simplify_eq.
Qed.

Lemma FileCase_run_has_result_witness :
  keeps_captures (fun rt => (Returned (Val 7), rt))
  /\ result (Results (Some []) None None (Some ValNone) false)
     = Some ValNone.
Proof.
  split; [apply keeps_captures_id|].
  eapply (FileCase_run_has_result (fun _ => []) false None None
            (fun rt => (Returned (Val 7), rt))
            (Runtime (Some 0) (HostStdin 0) (HostInput 0) [Terminal []])
            _ (Results (Some []) None None (Some ValNone) false)
            (keeps_captures_id _)).
  reflexivity.
Defined.

Lemma install_uninstall_witness :
  exists rt1 rt2,
    install 1 (Runtime None (HostStdin 0) (HostInput 0)
                 [Terminal []; Capturing None false []])
    = Returns rt1
    /\ uninstall 1 rt1 = Returns rt2
    /\ sys_stdout rt2 = Some 1.
Proof.
  destruct (install_uninstall 1
              (Runtime None (HostStdin 0) (HostInput 0)
                 [Terminal []; Capturing None false []])
              None false [] eq_refl)
    as (rt1 & rt2 & E1 & _ & E2 & Hout & _).
  by exists rt1, rt2.
Defined.

Lemma writelines_captured_witness :
  writelines 2 1 [text_of "ab"; text_of "c"]
    [Terminal (text_of "x"); Capturing (Some 0) true []]
  = Returns [Terminal (text_of "xabc"); Capturing (Some 0) true (text_of "abc")].
Proof.
  apply (writelines_captured 0 1 0 [text_of "ab"; text_of "c"]
           [Terminal (text_of "x"); Capturing (Some 0) true []]
           true [] (text_of "x") ltac:(lia) eq_refl eq_refl).
Defined.

Lemma get_external_calling_frame_skips (myname : string)
    (own : list frame) (rest : list frame) :
  Forall (fun cf => f_globals_name cf = Some myname) own ->
  get_external_calling_frame myname (own ++ rest)
  = get_external_calling_frame myname rest.
Proof.
  induction 1 as [|cf own Hcf _ IH]; [done|].
  cbn [app get_external_calling_frame]. by rewrite bool_decide_eq_true_2.
Qed.

Lemma get_external_calling_frame_found (myname : string)
    (stack : list frame) (fr : frame) :
  get_external_calling_frame myname stack = Some fr ->
  exists own rest,
    stack = own ++ fr :: rest
    /\ Forall (fun cf => f_globals_name cf = Some myname) own
    /\ f_globals_name fr <> Some myname.
Proof.
  induction stack as [|cf back IH]; [done|].
  cbn [get_external_calling_frame]. case_bool_decide as Hcf.
  - intros (own & rest & -> & Hown & Hfr)%IH.
    exists (cf :: own), rest. split; [done|]. split; [by constructor|done].
  - intros [= ->]. exists [], back. by repeat split.
Qed.

Lemma get_external_calling_frame_none (myname : string)
    (stack : list frame) :
  get_external_calling_frame myname stack = None
  <-> Forall (fun cf => f_globals_name cf = Some myname) stack.
Proof.
  induction stack as [|cf back IH]; [done|].
  cbn [get_external_calling_frame]. case_bool_decide as Hcf.
  - rewrite IH. split; [by constructor|]. by intros [_ ?]%Forall_cons.
  - split; [done|]. by intros [? _]%Forall_cons.
Qed.

(** Extra X19.  [get_external_calling_frame] returns the innermost frame
    whose module is not [optimism] itself, skipping the frames of the
    module; when every frame of the stack belongs to the module it returns
    [None], and then [get_my_location] and [get_my_context] raise
    [AttributeError], the state unchanged. *)
Theorem get_external_calling_frame_spec (myname : string)
    (stack : list frame) :
  (forall fr,
     get_external_calling_frame myname stack = Some fr
     <-> exists own rest,
           stack = own ++ fr :: rest
           /\ Forall (fun cf => f_globals_name cf = Some myname) own
           /\ f_globals_name fr <> Some myname)
  /\ (Forall (fun cf => f_globals_name cf = Some myname) stack ->
      forall speculate h function_or_name w,
        get_my_location myname stack speculate = Raises AttributeError
        /\ get_my_context h (get_external_calling_frame myname stack)
             function_or_name w
           = (Raises AttributeError, w)).
Proof.
  split.
  - intros fr. split; [apply get_external_calling_frame_found|].
    intros (own & rest & -> & Hown & Hfr).
    rewrite get_external_calling_frame_skips by done.
    cbn [get_external_calling_frame]. by rewrite bool_decide_eq_false_2.
  - intros Hown%get_external_calling_frame_none speculate h tgt w.
    unfold get_my_location. by rewrite Hown.
Qed.

Lemma dict_get_set_eq {V : Type} (d : list (string * V)) (key : string)
    (v : V) :
  dict_get (dict_set d key v) key = Some v.
Proof.
  induction d as [|[k v0] d IH]; cbn [dict_set dict_get].
  - by rewrite String.eqb_refl.
  - destruct (String.eqb k key) eqn:E; cbn [dict_get]; by rewrite E.
Qed.

Lemma dict_get_set_ne {V : Type} (d : list (string * V)) (key key' : string)
    (v : V) :
  key <> key' -> dict_get (dict_set d key v) key' = dict_get d key'.
Proof.
  intros Hne. induction d as [|[k v0] d IH]; cbn [dict_set dict_get].
  - by rewrite (proj2 (String.eqb_neq key key')).
  - destruct (String.eqb k key) eqn:E; cbn [dict_get]; [|by rewrite IH].
    apply String.eqb_eq in E as ->.
    by rewrite (proj2 (String.eqb_neq key key')).
Qed.

Lemma dict_set_appended (d : list (string * list nat)) (key : string)
    (x : nat) :
  flat_map snd (dict_set d key (default [] (dict_get d key) ++ [x]))
  ≡ₚ x :: flat_map snd d.
Proof.
  induction d as [|[k l] d IH]; cbn [dict_set dict_get flat_map snd].
  - by rewrite app_nil_r.
  - destruct (String.eqb k key); cbn [flat_map snd default].
    + rewrite <- app_assoc. cbn [app].
      by rewrite <- Permutation_middle.
    + rewrite IH. by rewrite <- Permutation_middle.
Qed.

(** Extra X20.  A new test case is registered last in the current suite,
    which is created if it did not exist; no other suite changes, the
    current suite stays current, [listAllCases] gains exactly the new case,
    and the case starts with no outcome, no failure and no results. *)
Theorem case_registered (myname : string) (detail_level : Z)
    (basename : string -> string) (stack : list frame) (manager_ : nat)
    (st st' : suites) (self : nat) :
  TestCase__init__ myname detail_level basename stack manager_ st
  = Returns (self, st') ->
  self = length (cases st)
  /\ listCasesInSuite None st'
     = Returns
         (default [] (dict_get (ALL_CASES st) (currentTestSuite st))
          ++ [self])
  /\ (forall name,
        name <> currentTestSuite st ->
        listCasesInSuite (Some name) st' = listCasesInSuite (Some name) st)
  /\ currentTestSuite st' = currentTestSuite st
  /\ listAllCases st' ≡ₚ self :: listAllCases st
  /\ exists case,
       cases st' !! self = Some case
       /\ manager case = manager_ /\ outcomes case = []
       /\ any_failed case = false /\ case_results case = None.
Proof.
  unfold TestCase__init__.
  destruct (get_my_location myname stack true) as [loc| |]; [|done..].
  cbn [mbind outcome_bind].
  destruct (tag_for detail_level basename loc) as [tag_| |]; [|done..].
  cbn [mbind outcome_bind]. intros [= <- <-].
  unfold listCasesInSuite, listAllCases, currentTestSuite.
  cbn [ALL_CASES _CURRENT_SUITE_NAME cases default].
  split; [done|]. rewrite dict_get_set_eq. split; [done|].
  split; [intros name Hne; by rewrite dict_get_set_ne|].
  split; [done|]. split; [apply dict_set_appended|].
  eexists. rewrite lookup_app_r, Nat.sub_diag by lia. by repeat split.
Qed.

Local Open Scope string_scope.
Local Open Scope list_scope.

(** Extra X21.  Starting a suite does not create it: until a case is
    created or the suite is reset, [listCasesInSuite] and [showSummary]
    raise [ValueError] for it.  After [resetTestSuite] the current suite
    exists and is empty.  After [deleteAllTestSuites] the current suite is
    ["default"], no case is listed, and [listCasesInSuite] and
    [showSummary] raise [ValueError] for every suite, current one
    included. *)
Theorem suite_needs_cases (st : suites) (colors : bool) :
  (forall name st1,
     dict_get (ALL_CASES st) name = None ->
     startTestSuite (Str name) st = Returns st1 ->
     currentTestSuite st1 = name
     /\ listCasesInSuite None st1 = Raises ValueError
     /\ showSummary colors None st1 = Raises ValueError)
  /\ (listCasesInSuite None (resetTestSuite None st) = Returns []
      /\ showSummary colors None (resetTestSuite None st)
         = Returns [Dashes; No_expectations_were_established; Dashes])
  /\ (currentTestSuite (deleteAllTestSuites st) = "default"
      /\ listAllCases (deleteAllTestSuites st) = []
      /\ forall name,
           listCasesInSuite name (deleteAllTestSuites st) = Raises ValueError
           /\ showSummary colors name (deleteAllTestSuites st)
              = Raises ValueError).
Proof.
  split; [|split].
  - intros name st1 Hnone [= <-].
    unfold listCasesInSuite, showSummary, currentTestSuite.
    cbn [ALL_CASES _CURRENT_SUITE_NAME default]. by rewrite Hnone.
  - unfold listCasesInSuite, showSummary, resetTestSuite, currentTestSuite.
    cbn [ALL_CASES _CURRENT_SUITE_NAME default].
    by rewrite dict_get_set_eq.
  - by repeat split.
Qed.

Local Close Scope string_scope.

Lemma _should_skip_returns (other : nat) (st : suites) (case : test_case)
    (m : test_manager) :
  cases st !! other = Some case ->
  managers st !! manager case = Some m ->
  _should_skip other st
  = Returns
      (bool_decide (SKIP_ON_FAILURE st = Some "case"%string)
       && any_failed case
       || bool_decide (SKIP_ON_FAILURE st = Some "manager"%string)
          && manager_any_failed m).
Proof.
  intros Hc Hm. unfold _should_skip. rewrite Hc, Hm.
  repeat case_bool_decide; try congruence;
    by destruct (any_failed case), (manager_any_failed m).
Qed.

(** Extra X22.  [_register_outcome] appends the outcome to the case, and
    what [_should_skip] answers afterwards, for any case, is what it
    answered before, or true when the outcome is a failure and either the
    mode is ["case"] and the case is the one that failed, or the mode is
    ["manager"] and the case has the manager of the one that failed.  A
    passing outcome changes no answer; no outcome turns an answer back to
    false. *)
Theorem skip_after_failure (self : nat) (passed : bool) (tag_ : string)
    (message : list ascii) (st st' : suites) (case : test_case)
    (m : test_manager) :
  cases st !! self = Some case ->
  managers st !! manager case = Some m ->
  _register_outcome self passed tag_ message st = Returns st' ->
  (exists case1,
     cases st' !! self = Some case1
     /\ outcomes case1 = outcomes case ++ [(passed, tag_, message)])
  /\ forall other case',
       cases st !! other = Some case' ->
       is_Some (managers st !! manager case') ->
       exists before,
         _should_skip other st = Returns before
         /\ _should_skip other st'
            = Returns
                (before
                 || negb passed
                    && (bool_decide (SKIP_ON_FAILURE st = Some "case"%string)
                        && bool_decide (other = self)
                        || bool_decide
                             (SKIP_ON_FAILURE st = Some "manager"%string)
                           && bool_decide (manager case' = manager case))).
Proof.
  intros Hself Hm Hreg.
  assert (self < length (cases st)) as Hlt by (by eapply lookup_lt_Some).
  assert (manager case < length (managers st)) as Hmlt
    by (by eapply lookup_lt_Some).
  unfold _register_outcome in Hreg. rewrite Hself in Hreg.
  cbn [manager managers cases] in Hreg. rewrite Hm in Hreg.
  split.
  - destruct passed; injection Hreg as <-; cbn [cases];
      rewrite ?list_insert_insert_eq, list_lookup_insert_eq by done;
      by eexists.
  - intros other case' Hother [m' Hm'].
    rewrite (_should_skip_returns other st case' m' Hother Hm').
    eexists. split; [done|].
    destruct passed; injection Hreg as <-.
    + cbn [negb andb]. rewrite orb_false_r.
      destruct (decide (other = self)) as [->|Hne].
      * simplify_eq.
        erewrite _should_skip_returns; cbn [cases managers SKIP_ON_FAILURE].
        2:{ rewrite list_lookup_insert_eq by done. reflexivity. }
        2:{ cbn [manager]. done. }
        done.
      * erewrite _should_skip_returns; cbn [cases managers SKIP_ON_FAILURE].
        2:{ rewrite list_lookup_insert_ne by done. eassumption. }
        2:{ done. }
        done.
    + cbn [negb andb]. rewrite list_insert_insert_eq.
      destruct (decide (other = self)) as [->|Hne].
      * simplify_eq.
        erewrite _should_skip_returns; cbn [cases managers SKIP_ON_FAILURE].
        2:{ rewrite list_lookup_insert_eq by done. reflexivity. }
        2:{ cbn [manager]. rewrite list_lookup_insert_eq by done. reflexivity. }
        cbn [any_failed manager_any_failed].
        rewrite (bool_decide_eq_true_2 (self = self)) by done.
        rewrite (bool_decide_eq_true_2 (manager case = manager case)) by done.
        repeat case_bool_decide; try congruence;
          by destruct (any_failed case), (manager_any_failed m).
      * rewrite (bool_decide_eq_false_2 (other = self)) by done.
        destruct (decide (manager case' = manager case)) as [E|Hmne].
        -- erewrite _should_skip_returns; cbn [cases managers SKIP_ON_FAILURE].
           2:{ rewrite list_lookup_insert_ne by done. eassumption. }
           2:{ cbn [manager]. rewrite E. rewrite list_lookup_insert_eq by done.
               reflexivity. }
           cbn [manager_any_failed].
           rewrite (bool_decide_eq_true_2 (manager case' = manager case))
             by done.
           repeat case_bool_decide; try congruence;
             by destruct (any_failed case'), (manager_any_failed m').
        -- erewrite _should_skip_returns; cbn [cases managers SKIP_ON_FAILURE].
           2:{ rewrite list_lookup_insert_ne by done. eassumption. }
           2:{ cbn [manager]. rewrite list_lookup_insert_ne by done. eassumption. }
           rewrite (bool_decide_eq_false_2 (manager case' = manager case))
             by done.
           by rewrite !andb_false_r, !orb_false_r.
Qed.

Local Open Scope string_scope.
Local Open Scope list_scope.

Lemma case_registered_witness :
  TestCase__init__ "optimism" 0 (fun s => s) [frame_own; frame_own; frame_C] 0
    suites_one
  = Returns
      (1,
       Suites [("default", [0; 1])] "default" (Some "case")
         [TestCase 0 None None None (Location (Some "m.py") 1) "m.py:1" []
            false;
          TestCase 0 None None None (Location (Some "m.py") 1) "m.py:1" []
            false]
         [TestManager 0 false])
  /\ listCasesInSuite None
       (Suites [("default", [0; 1])] "default" (Some "case")
          [TestCase 0 None None None (Location (Some "m.py") 1) "m.py:1" []
             false;
           TestCase 0 None None None (Location (Some "m.py") 1) "m.py:1" []
             false]
          [TestManager 0 false])
     = Returns [0; 1].
Proof.
  assert (E : TestCase__init__ "optimism" 0 (fun s => s)
                [frame_own; frame_own; frame_C] 0 suites_one
              = Returns
                  (1,
                   Suites [("default", [0; 1])] "default" (Some "case")
                     [TestCase 0 None None None (Location (Some "m.py") 1)
                        "m.py:1" [] false;
                      TestCase 0 None None None (Location (Some "m.py") 1)
                        "m.py:1" [] false]
                     [TestManager 0 false])) by reflexivity.
  split; [exact E|].
  by destruct (case_registered _ _ _ _ _ _ _ _ E) as (_ & -> & _).
Defined.

Lemma skip_after_failure_witness :
  exists st',
    _register_outcome 0 false "m.py:3" [] suites_one = Returns st'
    /\ _should_skip 0 suites_one = Returns false
    /\ _should_skip 0 st' = Returns true.
Proof.
  eexists. split; [reflexivity|].
  destruct (skip_after_failure 0 false "m.py:3" [] suites_one _
              (TestCase 0 None None None (Location (Some "m.py") 1) "m.py:1"
                 [] false)
              (TestManager 0 false) eq_refl eq_refl eq_refl)
    as [_ Hskip].
  destruct (Hskip 0 _ eq_refl ltac:(by eexists)) as (before & E1 & E2).
  split; [reflexivity|]. rewrite E2. by injection E1 as <-.
Defined.

Local Close Scope string_scope.

(** Extra X23.  [trace] needs the full context: whenever
    [get_my_context] returns the location-only dictionary, as it does when
    the source of the caller cannot be read, [trace] raises [KeyError]
    instead of returning its argument, having printed no trace line and
    changed no counter; with the full context it returns its argument and
    first prints the tag, the source of the expression and the abbreviated
    value. *)
Theorem trace_needs_expression (h : host) (caller : option frame)
    (trace_function expr : nat) (rep : list ascii) (w : world) :
  (forall file line w',
     get_my_context h caller (ByFunction trace_function "trace") w
     = (Returns (LocationOnly file line), w') ->
     trace h caller trace_function expr (Returns rep) w
     = (Raises (OtherException "KeyError"), w'))
  /\ (forall fr,
        caller = Some fr ->
        read_file h (frame_file fr) = None ->
        exists w',
          trace h caller trace_function expr (Returns rep) w
          = (Raises (OtherException "KeyError"), w')
          /\ COMPLETED_PER_LINE w' = COMPLETED_PER_LINE w)
  /\ (forall file line src arg expr_src values relevant w',
        get_my_context h caller (ByFunction trace_function "trace") w
        = (Returns (FullContext file line src arg expr_src values relevant),
           w') ->
        exists lines,
          trace h caller trace_function expr (Returns rep) w
          = (Returns (expr, lines), w')
          /\ head lines
             = Some (Traced
                       (if (DETAIL_LEVEL h >=? 1)%Z
                        then File_and_line file line
                        else Line_only line)
                       expr_src (ellipsis rep 40))).
Proof.
  split; [|split].
  - intros file line w' Hctx. unfold trace.
    unfold mbind at 1. unfold M_bind at 1. by rewrite Hctx.
  - intros fr -> Hread. unfold trace.
    unfold mbind at 1. unfold M_bind at 1.
    unfold get_my_context. rewrite get_filename_frame_file, Hread.
    destruct (DETAIL_LEVEL h >=? 2)%Z;
      unfold mbind, M_bind, print, mret, M_ret, lift; cbn;
      by eexists.
  - intros file line src arg expr_src values relevant w' Hctx.
    unfold trace. unfold mbind at 1. unfold M_bind at 1. rewrite Hctx.
    eexists. by split.
Qed.

(** ** The body of a with statement *)

Lemma primary_search_off_line (h : host) (fr : frame) (function : target)
    (line : nat) (children : list ast) :
  forall result all_on_line w,
    Forall (fun n => node_lineno n <> Some line) children ->
    primary_search h fr function line children result all_on_line w
    = (Returns (result, all_on_line), w).
Proof.
  induction children as [|child children IH]; intros result all_on_line w H;
    [done|].
  apply Forall_cons in H as [Hchild H]. cbn [primary_search].
  rewrite bool_decide_eq_false_2 by done. by apply IH.
Qed.

Local Open Scope string_scope.
Local Open Scope list_scope.

(** Extra X24.  The walker never enters the body of a [with] statement:
    it walks the items twice, then yields the statement.  So when no node of
    the items and not the statement itself is on the target line,
    [find_call_nodes_on_line] finds no call on that line in the statement,
    whatever its body holds, and leaves the state as it is. *)
Theorem with_body_not_searched (h : host) (table : gmap nat (list ast))
    (fr : frame) (function : target) (line uid : nat) (k : kind)
    (pos : option position) (fields : list (string * ast)) (w : world) :
  let node := Node uid k pos fields in
  k = ast_With \/ k = ast_AsyncWith ->
  Forall (fun n => node_lineno n <> Some line)
    (walk_ast_in_order (field node "items")) ->
  node_lineno node <> Some line ->
  walk_ast_in_order node
  = walk_ast_in_order (field node "items")
    ++ walk_ast_in_order (field node "items") ++ [node]
  /\ find_call_nodes_on_line h table node fr function line w
     = (Returns [], w).
Proof.
  intros node Hk Hitems Hnode.
  assert (walk_ast_in_order node
          = walk_ast_in_order (field node "items")
            ++ walk_ast_in_order (field node "items") ++ [node]) as Hwalk.
  { unfold node at 1. destruct Hk as [-> | ->];
      cbn [walk_ast_in_order]; rewrite walk_field; by rewrite <- app_assoc. }
  split; [done|]. unfold find_call_nodes_on_line. rewrite Hwalk.
  unfold mbind at 1. unfold M_bind at 1.
  rewrite primary_search_off_line; [done|].
  rewrite !Forall_app. split; [done|]. split; [done|]. by constructor.
Qed.

Lemma with_body_not_searched_witness :
  find_call_nodes_on_line (host_of [] with_statement)
    (assign_parents with_statement ∅) with_statement frame_multiline
    (ByName "expect") 2 (empty_world [])
  = (Returns [], empty_world []).
Proof.
  apply (with_body_not_searched (host_of [] with_statement)
           (assign_parents with_statement ∅) frame_multiline
           (ByName "expect") 2 51 ast_With (Some (Position 1 0 2 16))).
  - by left.
  - vm_compute. repeat constructor; discriminate.
  - discriminate.
Defined.

Local Close Scope string_scope.
